(** * Invoice financing lifecycle engine: risk banding, offer terms,
    key-value persistence and the advance/settlement handlers.

  Shallow embedding of
    - [OfferScreen.calculateOffer]                 (offer terms),
    - [UploadInvoice.simulateInvoiceProcessing]    (simple-mode banding),
    - [GenkitAIService.calculateRiskScore] and
      [GenkitAIService.determineRiskBand]          (scored-mode banding),
    - the [accept-offer], [advances] and [mark-paid] handlers of
      [supabase/functions/server/index.tsx].

  Conventions of the embedding.
    - Money amounts are JavaScript numbers, and the code computes them in
      binary64.  [OfferScreenBinary64] and [ServerBinary64] embed these
      computations bit for bit with [SpecFloat]; what is claimed of the
      amounts of an offer and of a settlement is proved of them.  The
      lifecycle of the records, the listings and the screens are embedded
      over the exact reading: amounts in [Z], percentages in [Q],
      [Math.floor] / [Math.ceil] as [Qfloor] / [Qceiling].
      [calculateOffer_agrees] and [fee_exact] prove that the two readings
      give the same amounts for every integer amount from 0 to below 2^45
      at a percentage that is a multiple of one half.  Day counts, the
      quotients of a difference of timestamps by 86400000, are kept in
      the exact reading.
    - The risk score is genuinely fractional; it is modelled bit for bit
      as an IEEE 754 binary64 value with [SpecFloat] (precision 53,
      maximal exponent 1024), which is what a JavaScript number is.
    - Timestamps (ISO strings in the source, always read back through
      [new Date(..).getTime()]) are modelled by their epoch milliseconds.
    - [crypto.randomUUID()], [Date.now()] and [Math.random()] are inputs. *)

From Stdlib Require Import ZArith QArith Qround Qabs Lia String List SpecFloat.
From stdpp Require Import gmap strings list fin_maps.
From stdpp Require Import sorting.

Local Open Scope Z_scope.

(* ===================================================================== *)
(** * JavaScript numbers as binary64 values                              *)
(* ===================================================================== *)

Module JsNumber.

Definition prec : Z := 53.
Definition emax : Z := 1024.

Abbreviation number := spec_float.

(** The literals of [genkit-service.tsx], each the binary64 value nearest
    to the decimal numeral ([literals_nearest] below checks it). *)
Definition lit_0_8  : number := S754_finite false 7205759403792794 (-53).
Definition lit_0_6  : number := S754_finite false 5404319552844595 (-53).
Definition lit_0_1  : number := S754_finite false 7205759403792794 (-56).
Definition lit_0_05 : number := S754_finite false 7205759403792794 (-57).
Definition lit_1_0  : number := S754_finite false 4503599627370496 (-52).
Definition lit_0    : number := S754_zero false.

(** [x - y], [x * y] *)
Definition sub (x y : number) : number := SFsub prec emax x y.
Definition mul (x y : number) : number := SFmul prec emax x y.

(** [x < y], [x <= y], [x > y], [x >= y]; all false on [NaN]. *)
Definition lt (x y : number) : bool := SFltb x y.
Definition le (x y : number) : bool := SFleb x y.
Definition gt (x y : number) : bool := SFltb y x.
Definition ge (x y : number) : bool := SFleb y x.

Definition is_nan (x : number) : bool :=
  match x with S754_nan => true | _ => false end.

(** [Math.max(x, y)]: [NaN] if either argument is [NaN]; [+0] is larger
    than [-0]; otherwise the larger argument. *)
Definition Math_max (x y : number) : number :=
  match x, y with
  | S754_nan, _ | _, S754_nan => S754_nan
  | S754_zero sx, S754_zero sy => S754_zero (andb sx sy)
  | _, _ => if SFltb x y then y else x
  end.

(** [Math.min(x, y)]: [NaN] if either argument is [NaN]; [-0] is smaller
    than [+0]; otherwise the smaller argument. *)
Definition Math_min (x y : number) : number :=
  match x, y with
  | S754_nan, _ | _, S754_nan => S754_nan
  | S754_zero sx, S754_zero sy => S754_zero (orb sx sy)
  | _, _ => if SFltb y x then y else x
  end.

(** [x / y] *)
Definition div (x y : number) : number := SFdiv prec emax x y.

(** The binary64 value of the integer [z] and of the half-integer [k / 2]
    (both exactly representable while below 2^53 in magnitude). *)
Definition of_Z (z : Z) : number := binary_normalize prec emax z 0 false.
Definition of_halves (k : Z) : number := binary_normalize prec emax k (-1) false.

(** [Math.floor(x)] of a finite [x], as an integer. *)
Definition floor_Z (x : number) : option Z :=
  match x with
  | S754_zero _ => Some 0
  | S754_finite s m e => Some (Z.shiftl (cond_Zopp s (Zpos m)) e)
  | _ => None
  end.

(** The rational denoted by a binary64 value (0 for the non-finite ones);
    only used to relate the literals to their decimal numerals. *)
Definition to_Q (x : number) : Q :=
  match x with
  | S754_finite s m e =>
      let v := match e with
               | Zneg p => Zpos m # (2 ^ p)
               | _ => inject_Z (Zpos m * 2 ^ e)
               end in
      if s then Qopp v else v
  | _ => 0%Q
  end.

End JsNumber.

(* ===================================================================== *)
(** * Risk bands                                                         *)
(* ===================================================================== *)

(** ['low' | 'medium' | 'high'], the result type of both banding functions. *)
Inductive RiskBand := low | medium | high.

(** The string stored in records and sent over JSON. *)
Definition riskBandName (b : RiskBand) : string :=
  match b with
  | low => "low"
  | medium => "medium"
  | high => "high"
  end.

(** Ordering of the bands by risk: low < medium < high. *)
Definition riskLevel (b : RiskBand) : Z :=
  match b with
  | low => 0
  | medium => 1
  | high => 2
  end.

(** [1000 * 60 * 60 * 24] *)
Definition msPerDay : Z := 1000 * 60 * 60 * 24.

(** [Math.ceil((new Date(dueDate).getTime() - Date.now()) / (1000*60*60*24))] *)
Definition daysToDue (dueDate now : Z) : Z :=
  Qceiling (inject_Z (dueDate - now) / inject_Z msPerDay).

(* --------------------------------------------------------------------- *)
(** ** Simple mode: [UploadInvoice.simulateInvoiceProcessing]            *)
(* --------------------------------------------------------------------- *)

Module UploadInvoice.

(** The [if / else if / else] that assigns [riskBand]. *)
Definition simpleRiskBand (amount daysToDue : Z) : RiskBand :=
  if (amount <? 25000) && (daysToDue <? 60) then low
  else if (amount <? 40000) && (daysToDue <? 45) then medium
  else high.

Record MockInvoice := {
  mock_amount : Z;
  mock_buyer : string;
  mock_dueDate : Z;
  mock_riskBand : RiskBand;
  mock_status : string;
  mock_createdAt : Z
}.

(** The object [mockData].  Its three fields are computed from
    [Math.random()] and are inputs here: the amount
    [Math.floor(Math.random() * 50000) + 10000], the buyer picked from the
    four names, and the due date, cut to its calendar day by
    [toISOString().split('T')[0]] and read back as UTC midnight. *)
Record MockData := {
  data_amount : Z;
  data_buyer : string;
  data_dueDate : Z
}.

(** [simulateInvoiceProcessing]; [mockData] and the clock are inputs. *)
Definition simulateInvoiceProcessing (mockData : MockData) (now : Z) : MockInvoice :=
  let days := daysToDue (data_dueDate mockData) now in
  {| mock_amount := data_amount mockData;
     mock_buyer := data_buyer mockData;
     mock_dueDate := data_dueDate mockData;
     mock_riskBand := simpleRiskBand (data_amount mockData) days;
     mock_status := "uploaded";
     mock_createdAt := now |}.

End UploadInvoice.

(* --------------------------------------------------------------------- *)
(** ** Scored mode: [GenkitAIService]                                    *)
(* --------------------------------------------------------------------- *)

Module GenkitAIService.
Import JsNumber.

(** The object built by [calculateRiskFactors]. *)
Record RiskFactors := {
  amount : Z;
  daysToDue : Z;
  buyerProfile : number;
  invoiceAge : Z;
  paymentHistory : number;
  industryRisk : number
}.

(** [calculateRiskScore]: the mutable [score] becomes a chain of lets. *)
Definition calculateRiskScore (factors : RiskFactors) : number :=
  let score := lit_0_8 in
  let score :=
    if amount factors >? 50000 then sub score lit_0_1
    else if amount factors >? 30000 then sub score lit_0_05
    else score in
  let score :=
    if daysToDue factors >? 60 then sub score lit_0_1
    else if daysToDue factors >? 45 then sub score lit_0_05
    else score in
  let score := mul score (buyerProfile factors) in
  let score := mul score (paymentHistory factors) in
  let score := mul score (industryRisk factors) in
  Math_max lit_0_1 (Math_min lit_1_0 score).

(** [determineRiskBand] *)
Definition determineRiskBand (riskScore : number) : RiskBand :=
  if ge riskScore lit_0_8 then low
  else if ge riskScore lit_0_6 then medium
  else high.

(** The scored mode as the specification words it: a base score, two
    optional penalties, the auxiliary ratios multiplied in turn, and a
    clamp. *)
Definition penalty (x upper lower : Z) : option number :=
  if x >? upper then Some lit_0_1
  else if x >? lower then Some lit_0_05
  else None.

Definition subtractPenalty (score : number) (p : option number) : number :=
  match p with
  | Some d => sub score d
  | None => score
  end.

Definition clamp (lo hi x : number) : number := Math_max lo (Math_min hi x).

Definition scoredModeSpec (amt days : Z) (ratios : list number) : number :=
  let base := lit_0_8 in
  let afterAmount := subtractPenalty base (penalty amt 50000 30000) in
  let afterDays := subtractPenalty afterAmount (penalty days 60 45) in
  clamp lit_0_1 lit_1_0 (fold_left mul ratios afterDays).

(** A ratio in the half-open interval (0, 1]. *)
Definition isRatio (r : number) : Prop :=
  gt r lit_0 = true /\ le r lit_1_0 = true.

End GenkitAIService.

(* ===================================================================== *)
(** * Offer terms: [OfferScreen.calculateOffer]                          *)
(* ===================================================================== *)

Module OfferScreen.

Record Offer := {
  advancePercent : Q;
  feePercent : Q;
  advanceAmount : Z;
  fee : Z;
  netReceived : Z;
  remainingAmount : Z
}.

(** The [switch (invoice.riskBand)]; the band arrives as a JSON string,
    so values outside the three names reach the [default] branch. *)
Definition offerPercents (riskBand : string) : Q * Q :=
  if String.eqb riskBand "low" then (90, 2.5)%Q
  else if String.eqb riskBand "medium" then (85, 3.0)%Q
  else if String.eqb riskBand "high" then (80, 3.5)%Q
  else (85, 3.0)%Q.

(** [calculateOffer] in the exact reading, with [invoice.amount] and
    [invoice.riskBand] as arguments.  The code computes in binary64:
    that is [OfferScreenBinary64.calculateOffer], and
    [calculateOffer_agrees] proves that both give the same amounts for
    every integer amount from 0 to below 2^45. *)
Definition calculateOffer (amount : Z) (riskBand : string) : Offer :=
  let '(advancePercent, feePercent) := offerPercents riskBand in
  let advanceAmount := Qfloor (inject_Z amount * advancePercent / 100) in
  let fee := Qfloor (inject_Z amount * feePercent / 100) in
  {| advancePercent := advancePercent;
     feePercent := feePercent;
     advanceAmount := advanceAmount;
     fee := fee;
     netReceived := advanceAmount;
     remainingAmount := amount - advanceAmount - fee |}.

End OfferScreen.

(* ===================================================================== *)
(** * Stored records                                                     *)
(* ===================================================================== *)

(** The invoice object written by the two invoice-creating handlers; the
    three offer fields are absent until the offer is accepted. *)
Record Invoice := {
  inv_id : string;
  inv_userId : string;
  inv_filename : string;
  inv_amount : Z;
  inv_buyer : string;
  inv_dueDate : Z;
  inv_riskBand : string;
  inv_status : string;
  inv_createdAt : Z;
  inv_advancePercent : option Q;
  inv_feePercent : option Q;
  inv_advanceAmount : option Z
}.

Record Advance := {
  adv_id : string;
  adv_invoiceId : string;
  adv_userId : string;
  adv_filename : string;
  adv_buyer : string;
  adv_invoiceAmount : Z;
  adv_advanceAmount : Z;
  adv_feePercent : Q;
  adv_dueDate : Z;
  adv_status : string;
  adv_createdAt : Z;
  adv_riskBand : string
}.

Record Settlement := {
  stl_id : string;
  stl_invoiceId : string;
  stl_userId : string;
  stl_filename : string;
  stl_buyer : string;
  stl_invoiceAmount : Z;
  stl_advanceAmount : Z;
  stl_feeAmount : Z;
  stl_feePercent : Q;
  stl_remainingAmount : Z;
  stl_settlementAmount : Z;
  stl_paidDate : Z;
  stl_createdAt : Z;
  stl_riskBand : string;
  stl_daysToPay : Z
}.

(** The JSON values this program stores: the three kinds of record and
    the id strings held by the per-user index entries. *)
Inductive Value :=
| VInvoice (i : Invoice)
| VAdvance (a : Advance)
| VSettlement (s : Settlement)
| VId (id : string).

(** JavaScript truthiness of a stored value (the test of [if (!advance)]):
    objects are truthy, a string is truthy unless it is empty. *)
Definition truthy (v : Value) : bool :=
  match v with
  | VId id => negb (String.eqb id "")
  | _ => true
  end.

(* ===================================================================== *)
(** * The key-value store                                                *)
(* ===================================================================== *)

Module kv.

Abbreviation Store := (gmap string Value).

(** Modelled from the spec: [kv_store.tsx] is imported by the server but is
    not among the sources.  [get(key)] returns the stored value or "absent"
    (not an error). *)
Definition get (key : string) (st : Store) : option Value := st !! key.

(** Modelled from the spec: [kv_store.tsx], [set(key, value)] overwrites
    unconditionally. *)
Definition set (key : string) (value : Value) (st : Store) : Store :=
  <[key := value]> st.

(** Modelled from the spec: [kv_store.tsx], [getByPrefix(prefix)] returns
    the values of all keys that start with [prefix].  The contract leaves
    the order unspecified; the model enumerates in the order of
    [map_to_list], and no statement below depends on that order. *)
Definition getByPrefix (prefix : string) (st : Store) : list Value :=
  (filter (fun kv => String.prefix prefix kv.1 = true) (map_to_list st)).*2.

End kv.

(* ===================================================================== *)
(** * The request handlers of [server/index.tsx]                         *)
(* ===================================================================== *)

Module Server.

(** What a handler reads from its environment while it runs. *)
Record Env := {
  randomUUID : string;     (* crypto.randomUUID() *)
  dateNow : Z;             (* Date.now() *)
  newDate : Z              (* new Date().toISOString() *)
}.

Inductive Body :=
| BInvoice (i : Invoice)
| BAdvances (l : list Advance)
| BSuccess                       (* { success: true } *)
| BError (msg : string).         (* { error: msg } *)

(** [c.json(body, status)]; the status is 200 when not given. *)
Record Response := json { body : Body; status : Z }.

Definition DEFAULT_USER_ID : string := "demo-user-123".

(** A handler returns its response and the store it leaves.  [None] marks
    a run that read a value of another shape than the handler assumes (an
    id where a record is expected, or the reverse); the handlers below
    never write such values, and those runs are outside the model. *)
Definition Outcome : Type := option (Response * kv.Store).

(** [Array.prototype.sort] with the comparator
    [(a, b) => time(b.createdAt) - time(a.createdAt)]: a stable sort,
    newest first.  [insertNewestFirst] puts [x] behind every element that
    is not strictly older than [x]. *)
Fixpoint insertNewestFirst (x : Advance) (l : list Advance) : list Advance :=
  match l with
  | [] => [x]
  | y :: l' =>
      if adv_createdAt y <? adv_createdAt x then x :: y :: l'
      else y :: insertNewestFirst x l'
  end.

Definition sortNewestFirst (l : list Advance) : list Advance :=
  fold_left (fun sorted x => insertNewestFirst x sorted) l [].

(** The [for (const advanceId of advanceKeys)] loop of the [GET /advances]
    handler; [advances] is the array being filled. *)
Fixpoint collectAdvances (advanceKeys : list Value) (advances : list Advance)
    (st : kv.Store) : option (list Advance) :=
  match advanceKeys with
  | [] => Some advances
  | VId advanceId :: rest =>
      match kv.get ("advance:" ++ advanceId) st with
      | None => collectAdvances rest advances st            (* console.warn *)
      | Some advance =>
          if truthy advance then
            match advance with
            | VAdvance a => collectAdvances rest (advances ++ [a]) st
            | _ => None
            end
          else collectAdvances rest advances st              (* console.warn *)
      end
  | _ :: _ => None
  end.

(** Body of the [GET /advances] handler for the owner [userId]. *)
Definition listAdvances (userId : string) (st : kv.Store) : Outcome :=
  let advanceKeys := kv.getByPrefix ("user:" ++ userId ++ ":advance:") st in
  match collectAdvances advanceKeys [] st with
  | Some advances => Some (json (BAdvances (sortNewestFirst advances)) 200, st)
  | None => None
  end.

(** [GET /advances]: the owner is always the demo user. *)
Definition getAdvances (st : kv.Store) : Outcome :=
  listAdvances DEFAULT_USER_ID st.

(** [POST /invoices/:invoiceId/accept-offer]; the three offer figures come
    from the request body. *)
Definition acceptOffer (env : Env) (invoiceId : string)
    (advancePercent feePercent : Q) (advanceAmount : Z) (st : kv.Store) : Outcome :=
  let userId := DEFAULT_USER_ID in
  match kv.get ("invoice:" ++ invoiceId) st with
  | None => Some (json (BError "Invoice not found") 404, st)
  | Some v =>
      if negb (truthy v) then Some (json (BError "Invoice not found") 404, st)
      else
        match v with
        | VInvoice invoice =>
            let updatedInvoice :=
              {| inv_id := inv_id invoice;
                 inv_userId := inv_userId invoice;
                 inv_filename := inv_filename invoice;
                 inv_amount := inv_amount invoice;
                 inv_buyer := inv_buyer invoice;
                 inv_dueDate := inv_dueDate invoice;
                 inv_riskBand := inv_riskBand invoice;
                 inv_status := "advanced";
                 inv_createdAt := inv_createdAt invoice;
                 inv_advancePercent := Some advancePercent;
                 inv_feePercent := Some feePercent;
                 inv_advanceAmount := Some advanceAmount |} in
            let st := kv.set ("invoice:" ++ invoiceId) (VInvoice updatedInvoice) st in
            let advanceId := randomUUID env in
            let advance :=
              {| adv_id := advanceId;
                 adv_invoiceId := invoiceId;
                 adv_userId := userId;
                 adv_filename := inv_filename invoice;
                 adv_buyer := inv_buyer invoice;
                 adv_invoiceAmount := inv_amount invoice;
                 adv_advanceAmount := advanceAmount;
                 adv_feePercent := feePercent;
                 adv_dueDate := inv_dueDate invoice;
                 adv_status := "active";
                 adv_createdAt := newDate env;
                 adv_riskBand := inv_riskBand invoice |} in
            let st := kv.set ("advance:" ++ advanceId) (VAdvance advance) st in
            let st := kv.set ("user:" ++ userId ++ ":advance:" ++ advanceId) (VId advanceId) st in
            Some (json (BInvoice updatedInvoice) 200, st)
        | _ => None
        end
  end.

(** [{ ...advance, status: 'paid' }] *)
Definition withStatusPaid (advance : Advance) : Advance :=
  {| adv_id := adv_id advance;
     adv_invoiceId := adv_invoiceId advance;
     adv_userId := adv_userId advance;
     adv_filename := adv_filename advance;
     adv_buyer := adv_buyer advance;
     adv_invoiceAmount := adv_invoiceAmount advance;
     adv_advanceAmount := adv_advanceAmount advance;
     adv_feePercent := adv_feePercent advance;
     adv_dueDate := adv_dueDate advance;
     adv_status := "paid";
     adv_createdAt := adv_createdAt advance;
     adv_riskBand := adv_riskBand advance |}.

(** The settlement object built by the mark-paid handler, in the exact
    reading.  The code computes the fee in binary64 on the figures as
    they were posted: that is [ServerBinary64.settlementOf], and
    [fee_exact] proves that both give the same fee for every integer
    amount from 0 to below 2^45 at a percentage that is a multiple of one
    half. *)
Definition settlementOf (env : Env) (userId : string) (advance : Advance) : Settlement :=
  let settlementId := randomUUID env in
  let feeAmount :=
    Qfloor (inject_Z (adv_invoiceAmount advance) * adv_feePercent advance / 100) in
  let remainingAmount :=
    adv_invoiceAmount advance - adv_advanceAmount advance - feeAmount in
  let daysToPay :=
    Qceiling (inject_Z (dateNow env - adv_createdAt advance) / inject_Z msPerDay) in
  {| stl_id := settlementId;
     stl_invoiceId := adv_invoiceId advance;
     stl_userId := userId;
     stl_filename := adv_filename advance;
     stl_buyer := adv_buyer advance;
     stl_invoiceAmount := adv_invoiceAmount advance;
     stl_advanceAmount := adv_advanceAmount advance;
     stl_feeAmount := feeAmount;
     stl_feePercent := adv_feePercent advance;
     stl_remainingAmount := remainingAmount;
     stl_settlementAmount := remainingAmount;
     stl_paidDate := newDate env;
     stl_createdAt := adv_createdAt advance;
     stl_riskBand := adv_riskBand advance;
     stl_daysToPay := daysToPay |}.

(** [POST /advances/:advanceId/mark-paid] *)
Definition markPaid (env : Env) (advanceId : string) (st : kv.Store) : Outcome :=
  let userId := DEFAULT_USER_ID in
  match kv.get ("advance:" ++ advanceId) st with
  | None => Some (json (BError "Advance not found") 404, st)
  | Some v =>
      if negb (truthy v) then Some (json (BError "Advance not found") 404, st)
      else
        match v with
        | VAdvance advance =>
            let updatedAdvance := withStatusPaid advance in
            let st := kv.set ("advance:" ++ advanceId) (VAdvance updatedAdvance) st in
            let settlementId := randomUUID env in
            let settlement := settlementOf env userId advance in
            let st := kv.set ("settlement:" ++ settlementId) (VSettlement settlement) st in
            let st := kv.set ("user:" ++ userId ++ ":settlement:" ++ settlementId)
                             (VId settlementId) st in
            Some (json BSuccess 200, st)
        | _ => None
        end
  end.

(** The settlement records held by a store (values of the keys
    [settlement:<id>]). *)
Definition settlements (st : kv.Store) : list Settlement :=
  omap (fun v => match v with VSettlement s => Some s | _ => None end)
       (kv.getByPrefix "settlement:" st).

(** The JSON body of [POST /invoices]; a field that is absent is [None]
    (for [dueDate], also the empty string). *)
Record InvoiceBody := {
  body_filename : option string;
  body_amount : option Z;
  body_buyer : option string;
  body_dueDate : option Z;
  body_riskBand : option string
}.

(** [POST /invoices].  The guard
    [!filename || !amount || !buyer || !dueDate || !riskBand] rejects an
    absent field, an empty string and the amount 0. *)
Definition createInvoice (env : Env) (request : InvoiceBody) (st : kv.Store) : Outcome :=
  let userId := DEFAULT_USER_ID in
  match body_filename request, body_amount request, body_buyer request,
        body_dueDate request, body_riskBand request with
  | Some filename, Some amount, Some buyer, Some dueDate, Some riskBand =>
      if String.eqb filename "" || (amount =? 0) || String.eqb buyer ""
         || String.eqb riskBand ""
      then Some (json (BError "Missing required fields") 400, st)
      else
        let invoiceId := randomUUID env in
        let invoice :=
          {| inv_id := invoiceId;
             inv_userId := userId;
             inv_filename := filename;
             inv_amount := amount;
             inv_buyer := buyer;
             inv_dueDate := dueDate;
             inv_riskBand := riskBand;
             inv_status := "uploaded";
             inv_createdAt := newDate env;
             inv_advancePercent := None;
             inv_feePercent := None;
             inv_advanceAmount := None |} in
        let st := kv.set ("invoice:" ++ invoiceId) (VInvoice invoice) st in
        let st := kv.set ("user:" ++ userId ++ ":invoice:" ++ invoiceId) (VId invoiceId) st in
        Some (json (BInvoice invoice) 200, st)
  | _, _, _, _, _ => Some (json (BError "Missing required fields") 400, st)
  end.

(** [settlements.sort((a, b) => time(b.paidDate) - time(a.paidDate))]:
    stable, latest payment first. *)
Fixpoint insertLatestPaidFirst (x : Settlement) (l : list Settlement) : list Settlement :=
  match l with
  | [] => [x]
  | y :: l' =>
      if stl_paidDate y <? stl_paidDate x then x :: y :: l'
      else y :: insertLatestPaidFirst x l'
  end.

Definition sortLatestPaidFirst (l : list Settlement) : list Settlement :=
  fold_left (fun sorted x => insertLatestPaidFirst x sorted) l [].

(** The [for (const settlementId of settlementKeys)] loop of the
    [GET /settlements] handler. *)
Fixpoint collectSettlements (settlementKeys : list Value) (settlements : list Settlement)
    (st : kv.Store) : option (list Settlement) :=
  match settlementKeys with
  | [] => Some settlements
  | VId settlementId :: rest =>
      match kv.get ("settlement:" ++ settlementId) st with
      | None => collectSettlements rest settlements st
      | Some settlement =>
          if truthy settlement then
            match settlement with
            | VSettlement s => collectSettlements rest (settlements ++ [s]) st
            | _ => None
            end
          else collectSettlements rest settlements st
      end
  | _ :: _ => None
  end.

(** Body of the [GET /settlements] handler for the owner [userId]: the
    array it answers with status 200 (it writes nothing). *)
Definition listSettlements (userId : string) (st : kv.Store) : option (list Settlement) :=
  let settlementKeys := kv.getByPrefix ("user:" ++ userId ++ ":settlement:") st in
  match collectSettlements settlementKeys [] st with
  | Some settlements => Some (sortLatestPaidFirst settlements)
  | None => None
  end.

(** [GET /settlements] *)
Definition getSettlements (st : kv.Store) : option (list Settlement) :=
  listSettlements DEFAULT_USER_ID st.

(** What [createSampleData] reads from its environment: the results of
    its calls of [crypto.randomUUID()] and of [Date.now()], numbered in the
    order in which the two array literals evaluate them. *)
Record SampleEnv := {
  uuid : nat -> string;
  clock : nat -> Z
}.

(** [new Date(t).toISOString().split('T')[0]], read back as a date: the
    UTC midnight of the day of [t]. *)
Definition dateOf (t : Z) : Z := (t / msPerDay) * msPerDay.

Definition sampleAdvances (senv : SampleEnv) (userId : string) : list Advance :=
  [ {| adv_id := uuid senv 0;
       adv_invoiceId := uuid senv 1;
       adv_userId := userId;
       adv_filename := "INV-2024-001.pdf";
       adv_buyer := "Acme Corp";
       adv_invoiceAmount := 25000;
       adv_advanceAmount := 22500;
       adv_feePercent := 2.5;
       adv_dueDate := dateOf (clock senv 0 + 30 * msPerDay);
       adv_status := "active";
       adv_createdAt := clock senv 1 - 5 * msPerDay;
       adv_riskBand := "low" |};
    {| adv_id := uuid senv 2;
       adv_invoiceId := uuid senv 3;
       adv_userId := userId;
       adv_filename := "INV-2024-002.pdf";
       adv_buyer := "TechStart Inc";
       adv_invoiceAmount := 18000;
       adv_advanceAmount := 15300;
       adv_feePercent := 3.0;
       adv_dueDate := dateOf (clock senv 2 + 45 * msPerDay);
       adv_status := "active";
       adv_createdAt := clock senv 3 - 3 * msPerDay;
       adv_riskBand := "medium" |} ].

Definition sampleSettlements (senv : SampleEnv) (userId : string) : list Settlement :=
  [ {| stl_id := uuid senv 4;
       stl_invoiceId := uuid senv 5;
       stl_userId := userId;
       stl_filename := "INV-2024-003.pdf";
       stl_buyer := "Global Solutions LLC";
       stl_invoiceAmount := 35000;
       stl_advanceAmount := 31500;
       stl_feeAmount := 875;
       stl_feePercent := 2.5;
       stl_remainingAmount := 2625;
       stl_settlementAmount := 2625;
       stl_paidDate := clock senv 4 - 2 * msPerDay;
       stl_createdAt := clock senv 5 - 30 * msPerDay;
       stl_riskBand := "low";
       stl_daysToPay := 28 |};
    {| stl_id := uuid senv 6;
       stl_invoiceId := uuid senv 7;
       stl_userId := userId;
       stl_filename := "INV-2024-004.pdf";
       stl_buyer := "Enterprise Ltd";
       stl_invoiceAmount := 42000;
       stl_advanceAmount := 33600;
       stl_feeAmount := 1470;
       stl_feePercent := 3.5;
       stl_remainingAmount := 6930;
       stl_settlementAmount := 6930;
       stl_paidDate := clock senv 6 - 7 * msPerDay;
       stl_createdAt := clock senv 7 - 60 * msPerDay;
       stl_riskBand := "high";
       stl_daysToPay := 53 |} ].

(** The two storing loops of [createSampleData]. *)
Definition storeAdvance (userId : string) (st : kv.Store) (advance : Advance) : kv.Store :=
  kv.set ("user:" ++ userId ++ ":advance:" ++ adv_id advance) (VId (adv_id advance))
    (kv.set ("advance:" ++ adv_id advance) (VAdvance advance) st).

Definition storeSettlement (userId : string) (st : kv.Store) (settlement : Settlement) : kv.Store :=
  kv.set ("user:" ++ userId ++ ":settlement:" ++ stl_id settlement) (VId (stl_id settlement))
    (kv.set ("settlement:" ++ stl_id settlement) (VSettlement settlement) st).

(** [createSampleData(userId)]: nothing is written when the owner already
    has an advance index entry. *)
Definition createSampleData (senv : SampleEnv) (userId : string) (st : kv.Store) : kv.Store :=
  let existingAdvances := kv.getByPrefix ("user:" ++ userId ++ ":advance:") st in
  if (0 <? length existingAdvances)%nat then st
  else
    let st := fold_left (storeAdvance userId) (sampleAdvances senv userId) st in
    fold_left (storeSettlement userId) (sampleSettlements senv userId) st.

End Server.

(* ===================================================================== *)
(** * Index entries and the records they point to                        *)
(* ===================================================================== *)

Module Index.

(** The primary record an index entry of the advance index points to, if
    there is one. *)
Definition resolve (st : kv.Store) (entry : Value) : option Advance :=
  match entry with
  | VId advanceId =>
      match kv.get ("advance:" ++ advanceId) st with
      | Some (VAdvance a) => Some a
      | _ => None
      end
  | _ => None
  end.

(** A dangling pointer: an id whose primary record is missing. *)
Definition isDangling (st : kv.Store) (entry : Value) : bool :=
  match entry with
  | VId advanceId =>
      match kv.get ("advance:" ++ advanceId) st with
      | None => true
      | Some _ => false
      end
  | _ => false
  end.

(** An entry of the shape the store is written in: an id that is either
    dangling or points to an advance record. *)
Definition wellShaped (st : kv.Store) (entry : Value) : bool :=
  match entry with
  | VId advanceId =>
      match kv.get ("advance:" ++ advanceId) st with
      | None => true
      | Some (VAdvance _) => true
      | Some _ => false
      end
  | _ => false
  end.

End Index.

(* ===================================================================== *)
(** * A concrete run: accept an offer, then mark the advance paid twice  *)
(* ===================================================================== *)

Module Scenario.
Import Server.

Definition invoice1 : Invoice :=
  {| inv_id := "i1";
     inv_userId := DEFAULT_USER_ID;
     inv_filename := "INV-2024-001.pdf";
     inv_amount := 25000;
     inv_buyer := "Acme Corp";
     inv_dueDate := 59 * msPerDay;
     inv_riskBand := "high";
     inv_status := "uploaded";
     inv_createdAt := 0;
     inv_advancePercent := None;
     inv_feePercent := None;
     inv_advanceAmount := None |}.

Definition storeOf (o : Outcome) : kv.Store :=
  match o with
  | Some (_, st) => st
  | None => ∅
  end.

Definition uploaded : kv.Store :=
  kv.set "user:demo-user-123:invoice:i1" (VId "i1")
    (kv.set "invoice:i1" (VInvoice invoice1) ∅).

Definition envAccept : Env := {| randomUUID := "a1"; dateNow := 1000; newDate := 1000 |}.
Definition envPaid1 : Env :=
  {| randomUUID := "s1"; dateNow := 1000 + 3 * msPerDay + 1; newDate := 1000 + 3 * msPerDay + 2 |}.
Definition envPaid2 : Env :=
  {| randomUUID := "s2"; dateNow := 1000 + 5 * msPerDay; newDate := 1000 + 5 * msPerDay + 2 |}.

(** After the offer 80 / 3.5 / 20000 is accepted. *)
Definition active : kv.Store := storeOf (acceptOffer envAccept "i1" 80 3.5 20000 uploaded).

(** The advance record that accepting the offer creates. *)
Definition advance1 : Advance :=
  {| adv_id := "a1";
     adv_invoiceId := "i1";
     adv_userId := DEFAULT_USER_ID;
     adv_filename := "INV-2024-001.pdf";
     adv_buyer := "Acme Corp";
     adv_invoiceAmount := 25000;
     adv_advanceAmount := 20000;
     adv_feePercent := 3.5;
     adv_dueDate := 59 * msPerDay;
     adv_status := "active";
     adv_createdAt := 1000;
     adv_riskBand := "high" |}.

(** After the advance is marked paid once. *)
Definition paidOnce : kv.Store := storeOf (markPaid envPaid1 "a1" active).

(** After it is marked paid a second time. *)
Definition paidTwice : kv.Store := storeOf (markPaid envPaid2 "a1" paidOnce).


(** An owner whose only index entry points to a record that is gone. *)
Definition onlyDangling : kv.Store :=
  kv.set "user:demo-user-123:advance:gone" (VId "gone") ∅.

(** The same dangling entry next to the live advance of [active]. *)
Definition activeAndDangling : kv.Store :=
  kv.set "user:demo-user-123:advance:gone" (VId "gone") active.

End Scenario.

(* ===================================================================== *)
(** * The offer table as the specification words it                      *)
(* ===================================================================== *)

Module OfferSpec.

(** The fixed banded table: band, advance percent, fee percent. *)
Definition tableRow (b : RiskBand) : Q * Q :=
  match b with
  | low => (90, 2.5)%Q
  | medium => (85, 3.0)%Q
  | high => (80, 3.5)%Q
  end.

(** The band a name stands for, if it is one of the three names. *)
Definition bandOfName (name : string) : option RiskBand :=
  if String.eqb name "low" then Some low
  else if String.eqb name "medium" then Some medium
  else if String.eqb name "high" then Some high
  else None.

(** "Unknown/unmapped band defaults to the medium row." *)
Definition rowOfName (name : string) : Q * Q :=
  match bandOfName name with
  | Some b => tableRow b
  | None => tableRow medium
  end.

End OfferSpec.

(* ===================================================================== *)
(** * [GenkitAIService]: risk factors, recommendation, assessment        *)
(* ===================================================================== *)

Module GenkitAssessment.
Import JsNumber.

(** [x + y] *)
Definition add (x y : number) : number := SFadd prec emax x y.

(** Further literals of [genkit-service.tsx]. *)
Definition lit_0_3 : number := S754_finite false 5404319552844595 (-54).
Definition lit_0_7 : number := S754_finite false 6305039478318694 (-53).
Definition lit_0_2 : number := S754_finite false 7205759403792794 (-55).

(** What [calculateRiskFactors] reads of [invoiceData]. *)
Record InvoiceData := {
  data_amount : Z;
  data_dueDate : Z
}.

(** [calculateRiskFactors]; the clock and the three [Math.random()] draws
    are inputs. *)
Definition calculateRiskFactors (now : Z) (r1 r2 r3 : number) (invoiceData : InvoiceData)
    : GenkitAIService.RiskFactors :=
  {| GenkitAIService.amount := data_amount invoiceData;
     GenkitAIService.daysToDue := daysToDue (data_dueDate invoiceData) now;
     GenkitAIService.buyerProfile := add (mul r1 lit_0_3) lit_0_7;
     GenkitAIService.invoiceAge := 0;
     GenkitAIService.paymentHistory := add (mul r2 lit_0_2) lit_0_8;
     GenkitAIService.industryRisk := add (mul r3 lit_0_3) lit_0_6 |}.

(** An entry of the [recommendations] table. *)
Record Recommendation := {
  rec_advancePercent : Q;
  rec_feePercent : Q;
  rec_message : string
}.

(** [generateRecommendation]; its only caller passes the result of
    [determineRiskBand], so the key is one of the three bands. *)
Definition generateRecommendation (riskBand : RiskBand) : Recommendation :=
  match riskBand with
  | low =>
      {| rec_advancePercent := 90; rec_feePercent := 2.5;
         rec_message := "Excellent risk profile. Recommended for maximum advance." |}
  | medium =>
      {| rec_advancePercent := 85; rec_feePercent := 3.0;
         rec_message := "Good risk profile with standard terms." |}
  | high =>
      {| rec_advancePercent := 80; rec_feePercent := 3.5;
         rec_message := "Higher risk profile requires conservative advance terms." |}
  end.

(** The object [assessInvoiceRisk] returns; nothing in its [try] block
    throws, so [success] is always true. *)
Record RiskAssessment := {
  ra_success : bool;
  ra_riskScore : number;
  ra_riskBand : RiskBand;
  ra_riskFactors : GenkitAIService.RiskFactors;
  ra_recommendation : Recommendation
}.

Definition assessInvoiceRisk (now : Z) (r1 r2 r3 : number) (invoiceData : InvoiceData)
    : RiskAssessment :=
  let riskFactors := calculateRiskFactors now r1 r2 r3 invoiceData in
  let riskScore := GenkitAIService.calculateRiskScore riskFactors in
  let riskBand := GenkitAIService.determineRiskBand riskScore in
  {| ra_success := true;
     ra_riskScore := riskScore;
     ra_riskBand := riskBand;
     ra_riskFactors := riskFactors;
     ra_recommendation := generateRecommendation riskBand |}.

End GenkitAssessment.

(* ===================================================================== *)
(** * [ActiveAdvances]: status badge and summary figures                 *)
(* ===================================================================== *)

Module ActiveAdvances.

Inductive StatusBadge := BadgePaid | BadgeOverdue | BadgeDueSoon | BadgeActive.

(** [getStatusBadge]; [now] is the reading of [Date.now()]. *)
Definition getStatusBadge (now : Z) (advance : Advance) : StatusBadge :=
  let daysToDue := daysToDue (adv_dueDate advance) now in
  if String.eqb (adv_status advance) "paid" then BadgePaid
  else if daysToDue <? 0 then BadgeOverdue
  else if daysToDue <=? 7 then BadgeDueSoon
  else BadgeActive.

(** [advances.reduce((sum, advance) => sum + advance.advanceAmount, 0)] *)
Definition totalAdvanced (advances : list Advance) : Z :=
  fold_left (fun sum advance => sum + adv_advanceAmount advance) advances 0.



End ActiveAdvances.

(* ===================================================================== *)
(** * [Settlements]: summary figures                                     *)
(* ===================================================================== *)

Module SettlementsScreen.

(** [Math.round]: to the nearest integer, halves upwards. *)
Definition Math_round (x : Q) : Z := Qfloor (x + (1 # 2)).

Definition totalSettled (settlements : list Settlement) : Z :=
  fold_left (fun sum settlement => sum + stl_invoiceAmount settlement) settlements 0.

Definition totalFees (settlements : list Settlement) : Z :=
  fold_left (fun sum settlement => sum + stl_feeAmount settlement) settlements 0.

Definition totalAdvanced (settlements : list Settlement) : Z :=
  fold_left (fun sum settlement => sum + stl_advanceAmount settlement) settlements 0.

(** [avgDaysToPay]: 0 for the empty list, else the rounded mean. *)
Definition avgDaysToPay (settlements : list Settlement) : Z :=
  if (0 <? length settlements)%nat
  then Math_round
         (inject_Z (fold_left (fun sum settlement => sum + stl_daysToPay settlement)
                              settlements 0)
          / inject_Z (Z.of_nat (length settlements)))
  else 0.

End SettlementsScreen.

(* ===================================================================== *)
(** * The server as a state machine                                      *)
(* ===================================================================== *)

Module Lifecycle.
Import Server.

(** What reaches the store: the start-up call of [createSampleData] and
    the five routes, each with what it reads from its environment. *)
Inductive Event :=
| Startup (senv : SampleEnv)
| PostInvoice (env : Env) (request : InvoiceBody)
| PostAcceptOffer (env : Env) (invoiceId : string)
    (advancePercent feePercent : Q) (advanceAmount : Z)
| GetAdvances
| PostMarkPaid (env : Env) (advanceId : string)
| GetSettlements.

(** The store an event leaves; [None] as for [Outcome]. *)
Definition step (event : Event) (st : kv.Store) : option kv.Store :=
  match event with
  | Startup senv => Some (createSampleData senv DEFAULT_USER_ID st)
  | PostInvoice env request => snd <$> createInvoice env request st
  | PostAcceptOffer env invoiceId advancePercent feePercent advanceAmount =>
      snd <$> acceptOffer env invoiceId advancePercent feePercent advanceAmount st
  | GetAdvances => snd <$> getAdvances st
  | PostMarkPaid env advanceId => snd <$> markPaid env advanceId st
  | GetSettlements =>
      match getSettlements st with
      | Some _ => Some st
      | None => None
      end
  end.

Fixpoint run (events : list Event) (st : kv.Store) : option kv.Store :=
  match events with
  | [] => Some st
  | event :: rest =>
      match step event st with
      | Some st' => run rest st'
      | None => None
      end
  end.

(** Each family of keys holds values of one kind. *)
Definition kindOk (key : string) (v : Value) : bool :=
  if String.prefix "invoice:" key then
    match v with VInvoice _ => true | _ => false end
  else if String.prefix "advance:" key then
    match v with VAdvance _ => true | _ => false end
  else if String.prefix "settlement:" key then
    match v with VSettlement _ => true | _ => false end
  else if String.prefix "user:" key then
    match v with VId _ => true | _ => false end
  else true.

Definition wellKinded (st : kv.Store) : Prop :=
  forall key v, st !! key = Some v -> kindOk key v = true.

(** The statuses the handlers write. *)
Definition statusOk (v : Value) : bool :=
  match v with
  | VInvoice i => String.eqb (inv_status i) "uploaded" || String.eqb (inv_status i) "advanced"
  | VAdvance a => String.eqb (adv_status a) "active" || String.eqb (adv_status a) "paid"
  | _ => true
  end.

Definition statusesOk (st : kv.Store) : Prop :=
  forall key v, st !! key = Some v -> statusOk v = true.

(** A settlement whose figures add up. *)
Definition balanced (s : Settlement) : Prop :=
  stl_feeAmount s = Qfloor (inject_Z (stl_invoiceAmount s) * stl_feePercent s / 100)
  /\ stl_remainingAmount s = stl_invoiceAmount s - stl_advanceAmount s - stl_feeAmount s
  /\ stl_settlementAmount s = stl_remainingAmount s.

Definition settlementsBalanced (st : kv.Store) : Prop :=
  forall key s, st !! key = Some (VSettlement s) -> balanced s.

(** Every entry of the demo user's advance (settlement) index points to a
    stored advance (settlement). *)
Definition indexResolves (st : kv.Store) : Prop :=
  (forall key id,
      String.prefix "user:demo-user-123:advance:" key = true ->
      st !! key = Some (VId id) ->
      exists a, st !! ("advance:" ++ id)%string = Some (VAdvance a))
  /\ (forall key id,
      String.prefix "user:demo-user-123:settlement:" key = true ->
      st !! key = Some (VId id) ->
      exists s, st !! ("settlement:" ++ id)%string = Some (VSettlement s)).

(** What the handlers write: a record under a key of its own family, with
    a status the handlers use and, for a settlement, figures that add up;
    or an id under a key of the index family. *)
Definition written (key : string) (v : Value) : Prop :=
  (exists id i, key = ("invoice:" ++ id)%string /\ v = VInvoice i /\ statusOk v = true)
  \/ (exists id a, key = ("advance:" ++ id)%string /\ v = VAdvance a /\ statusOk v = true)
  \/ (exists id s, key = ("settlement:" ++ id)%string /\ v = VSettlement s /\ balanced s)
  \/ (exists rest id, key = ("user:" ++ rest)%string /\ v = VId id).

(** An index entry is written after the record it points to: when an id
    goes under a key of the demo user's advance (settlement) index, the
    store already holds a value at the advance (settlement) key of that
    id. *)
Definition indexed (st : kv.Store) (key : string) (v : Value) : Prop :=
  match v with
  | VId id =>
      (String.prefix "user:demo-user-123:advance:" key = true ->
       is_Some (st !! ("advance:" ++ id)%string))
      /\ (String.prefix "user:demo-user-123:settlement:" key = true ->
          is_Some (st !! ("settlement:" ++ id)%string))
  | _ => True
  end.

(** [extends st st']: [st'] is [st] after a sequence of such writes. *)
Inductive extends (st : kv.Store) : kv.Store -> Prop :=
| extends_refl : extends st st
| extends_set (st' : kv.Store) (key : string) (v : Value) :
    extends st st' -> written key v -> indexed st' key v ->
    extends st (kv.set key v st').

(** A run from the empty store: start-up, an invoice is posted, its offer
    accepted, the advance listed, marked paid twice, and the settlements
    listed. *)
Definition sampleEnv : SampleEnv :=
  {| uuid := fun n => String (Ascii.ascii_of_nat (97 + n)) "-sample";
     clock := fun n => 1700000000000 + Z.of_nat n |}.

Definition postedInvoice : InvoiceBody :=
  {| body_filename := Some "INV-2024-005.pdf"%string;
     body_amount := Some 42000;
     body_buyer := Some "Enterprise Ltd"%string;
     body_dueDate := Some (1700000000000 + 60 * msPerDay);
     body_riskBand := Some "high"%string |}.

Definition events : list Event :=
  [ Startup sampleEnv;
    PostInvoice {| randomUUID := "i5"; dateNow := 1700000001000; newDate := 1700000001000 |}
                postedInvoice;
    PostAcceptOffer {| randomUUID := "a5"; dateNow := 1700000002000; newDate := 1700000002000 |}
                    "i5" 80 3.5 33600;
    GetAdvances;
    PostMarkPaid {| randomUUID := "s5"; dateNow := 1700000002000 + 10 * msPerDay;
                    newDate := 1700000002000 + 10 * msPerDay |} "a5";
    PostMarkPaid {| randomUUID := "s6"; dateNow := 1700000002000 + 11 * msPerDay;
                    newDate := 1700000002000 + 11 * msPerDay |} "a5";
    GetSettlements ].

Definition finalStore : kv.Store :=
  match run events ∅ with
  | Some st => st
  | None => ∅
  end.

End Lifecycle.

(* ===================================================================== *)
(** * The two records of an accepted offer                               *)
(* ===================================================================== *)

Module Accepted.
Import Server.

(** [{ ...invoice, status: 'advanced', advancePercent, feePercent,
    advanceAmount }] *)
Definition invoiceOf (invoice : Invoice) (advancePercent feePercent : Q)
    (advanceAmount : Z) : Invoice :=
  {| inv_id := inv_id invoice;
     inv_userId := inv_userId invoice;
     inv_filename := inv_filename invoice;
     inv_amount := inv_amount invoice;
     inv_buyer := inv_buyer invoice;
     inv_dueDate := inv_dueDate invoice;
     inv_riskBand := inv_riskBand invoice;
     inv_status := "advanced";
     inv_createdAt := inv_createdAt invoice;
     inv_advancePercent := Some advancePercent;
     inv_feePercent := Some feePercent;
     inv_advanceAmount := Some advanceAmount |}.

(** The advance record the accept-offer handler builds. *)
Definition advanceOf (env : Env) (invoiceId : string) (invoice : Invoice)
    (feePercent : Q) (advanceAmount : Z) : Advance :=
  {| adv_id := randomUUID env;
     adv_invoiceId := invoiceId;
     adv_userId := DEFAULT_USER_ID;
     adv_filename := inv_filename invoice;
     adv_buyer := inv_buyer invoice;
     adv_invoiceAmount := inv_amount invoice;
     adv_advanceAmount := advanceAmount;
     adv_feePercent := feePercent;
     adv_dueDate := inv_dueDate invoice;
     adv_status := "active";
     adv_createdAt := newDate env;
     adv_riskBand := inv_riskBand invoice |}.

End Accepted.

(* ===================================================================== *)
(** * Settlement index entries                                           *)
(* ===================================================================== *)

Module SettlementIndex.

(** The settlement record an entry of the settlement index points to, if
    there is one. *)
Definition resolve (st : kv.Store) (entry : Value) : option Settlement :=
  match entry with
  | VId settlementId =>
      match kv.get ("settlement:" ++ settlementId) st with
      | Some (VSettlement s) => Some s
      | _ => None
      end
  | _ => None
  end.

End SettlementIndex.

(* ===================================================================== *)
(** * Insertion into a list kept in descending order of a key            *)
(* ===================================================================== *)

Module Descending.

(** The two sorts of the listing handlers, over any record and key. *)
Fixpoint insertBy {A : Type} (key : A -> Z) (x : A) (l : list A) : list A :=
  match l with
  | [] => [x]
  | y :: l' => if key y <? key x then x :: y :: l' else y :: insertBy key x l'
  end.

Definition sortBy {A : Type} (key : A -> Z) (l : list A) : list A :=
  fold_left (fun sorted x => insertBy key x sorted) l [].

(** [l] is in descending order of [key]. *)
Definition descending {A : Type} (key : A -> Z) (l : list A) : Prop :=
  StronglySorted (fun a b => key b <= key a) l.

End Descending.

(* ===================================================================== *)
(** * The money arithmetic on JavaScript numbers                         *)
(* ===================================================================== *)

(** The amounts of an offer and of a settlement are computed by the code
    in binary64: [Math.floor((amount * percent) / 100)] rounds the product
    and the quotient before it takes the floor.  The following modules
    embed these computations bit for bit; the theorems on them say when
    they agree with the exact reading used above. *)
Module Binary64.
Import JsNumber.

(** [x + y] *)
Definition add (x y : number) : number := SFadd prec emax x y.

(** [Math.floor(x)]: the largest integer not above a finite [x], as a
    number ([+0] for [x] in (0, 1), the zero itself for a zero); [NaN]
    and the infinities are returned as they are. *)
Definition Math_floor (x : number) : number :=
  match x with
  | S754_finite s m e =>
      binary_normalize prec emax (Z.shiftl (cond_Zopp s (Zpos m)) e) 0 s
  | _ => x
  end.

(** The literals [100], [90], [85], [80], [2.5], [3.0] and [3.5]; each is
    a binary64 value. *)
Definition lit_100 : number := S754_finite false 7036874417766400 (-46).
Definition lit_90  : number := S754_finite false 6333186975989760 (-46).
Definition lit_85  : number := S754_finite false 5981343255101440 (-46).
Definition lit_80  : number := S754_finite false 5629499534213120 (-46).
Definition lit_2_5 : number := S754_finite false 5629499534213120 (-51).
Definition lit_3_0 : number := S754_finite false 6755399441055744 (-51).
Definition lit_3_5 : number := S754_finite false 7881299347898368 (-51).

(** The binary64 value [n * 2 ^ t] of a positive [n] below 2^53, with its
    mantissa on 53 digits. *)
Definition canon (s : bool) (n t : Z) : number :=
  S754_finite s (Z.to_pos (n * 2 ^ (53 - Zdigits2 n))) (Zdigits2 n - 53 + t).

(** The second half of [binary_round_aux]: the mantissa left by the
    rounding is put back on 53 digits. *)
Definition finish (sx : bool) (m2 e1 : Z) : number :=
  let '(mrs'', e'') := shr_fexp prec emax m2 e1 loc_Exact in
  match shr_m mrs'' with
  | Z0 => S754_zero sx
  | Zpos m => if e'' <=? emax - prec then S754_finite sx m e'' else S754_infinity sx
  | Zneg _ => S754_nan
  end.

End Binary64.

(** [OfferScreen.calculateOffer] on JavaScript numbers. *)
Module OfferScreenBinary64.
Import JsNumber Binary64.

Record Offer := {
  advancePercent : number;
  feePercent : number;
  advanceAmount : number;
  fee : number;
  netReceived : number;
  remainingAmount : number
}.

(** The [switch (invoice.riskBand)] with its [default] branch. *)
Definition offerPercents (riskBand : string) : number * number :=
  if String.eqb riskBand "low" then (lit_90, lit_2_5)
  else if String.eqb riskBand "medium" then (lit_85, lit_3_0)
  else if String.eqb riskBand "high" then (lit_80, lit_3_5)
  else (lit_85, lit_3_0).

(** [calculateOffer], with [invoice.amount] and [invoice.riskBand] as
    arguments. *)
Definition calculateOffer (amount : number) (riskBand : string) : Offer :=
  let '(advancePercent, feePercent) := offerPercents riskBand in
  let advanceAmount := Math_floor (div (mul amount advancePercent) lit_100) in
  let fee := Math_floor (div (mul amount feePercent) lit_100) in
  {| advancePercent := advancePercent;
     feePercent := feePercent;
     advanceAmount := advanceAmount;
     fee := fee;
     netReceived := advanceAmount;
     remainingAmount := sub (sub amount advanceAmount) fee |}.

End OfferScreenBinary64.

(** The offer and settlement handlers of [server/index.tsx] on JavaScript
    numbers: the figures of an advance are stored as they were posted, and
    the settlement is computed from them in binary64. *)
Module ServerBinary64.
Import JsNumber Binary64.

(** A figure as it is posted or read back from a stored record: a number,
    [null], or absent ([undefined]). *)
Inductive JsValue :=
| JNumber (x : number)
| JNull
| JUndefined.

(** [ToNumber], which [*], [/] and [-] apply to their operands. *)
Definition toNumber (v : JsValue) : number :=
  match v with
  | JNumber x => x
  | JNull => S754_zero false
  | JUndefined => S754_nan
  end.

(** [JSON.stringify] followed by [JSON.parse] on a number: [NaN] and the
    infinities are written as [null], and [-0] as [0]. *)
Definition jsonNumber (x : number) : JsValue :=
  match x with
  | S754_finite _ _ _ => JNumber x
  | S754_zero _ => JNumber (S754_zero false)
  | _ => JNull
  end.

Record Invoice := {
  inv_id : string;
  inv_userId : string;
  inv_filename : string;
  inv_amount : JsValue;
  inv_buyer : string;
  inv_dueDate : Z;
  inv_riskBand : string;
  inv_status : string;
  inv_createdAt : Z;
  inv_advancePercent : JsValue;
  inv_feePercent : JsValue;
  inv_advanceAmount : JsValue
}.

Record Advance := {
  adv_id : string;
  adv_invoiceId : string;
  adv_userId : string;
  adv_filename : string;
  adv_buyer : string;
  adv_invoiceAmount : JsValue;
  adv_advanceAmount : JsValue;
  adv_feePercent : JsValue;
  adv_dueDate : Z;
  adv_status : string;
  adv_createdAt : Z;
  adv_riskBand : string
}.

Record Settlement := {
  stl_id : string;
  stl_invoiceId : string;
  stl_userId : string;
  stl_filename : string;
  stl_buyer : string;
  stl_invoiceAmount : JsValue;
  stl_advanceAmount : JsValue;
  stl_feeAmount : number;
  stl_feePercent : JsValue;
  stl_remainingAmount : number;
  stl_settlementAmount : number;
  stl_paidDate : Z;
  stl_createdAt : Z;
  stl_riskBand : string;
  stl_daysToPay : Z
}.

Inductive Value :=
| VInvoice (i : Invoice)
| VAdvance (a : Advance)
| VSettlement (s : Settlement)
| VId (id : string).

Definition truthy (v : Value) : bool :=
  match v with
  | VId id => negb (String.eqb id "")
  | _ => true
  end.

(** The store, with [kv.get] and [kv.set] as in [kv]: modelled from the
    spec, [kv_store.tsx] is not among the sources. *)
Abbreviation Store := (gmap string Value).

Definition get (key : string) (st : Store) : option Value := st !! key.

Definition set (key : string) (value : Value) (st : Store) : Store :=
  <[key := value]> st.

Inductive Body :=
| BInvoice (i : Invoice)
| BSuccess
| BError (msg : string).

Record Response := json { body : Body; status : Z }.

Definition Outcome : Type := option (Response * Store).

(** [POST /invoices/:invoiceId/accept-offer]; the three figures of the
    body are stored as they arrive. *)
Definition acceptOffer (env : Server.Env) (invoiceId : string)
    (advancePercent feePercent advanceAmount : JsValue) (st : Store) : Outcome :=
  let userId := Server.DEFAULT_USER_ID in
  match get ("invoice:" ++ invoiceId) st with
  | None => Some (json (BError "Invoice not found") 404, st)
  | Some v =>
      if negb (truthy v) then Some (json (BError "Invoice not found") 404, st)
      else
        match v with
        | VInvoice invoice =>
            let updatedInvoice :=
              {| inv_id := inv_id invoice;
                 inv_userId := inv_userId invoice;
                 inv_filename := inv_filename invoice;
                 inv_amount := inv_amount invoice;
                 inv_buyer := inv_buyer invoice;
                 inv_dueDate := inv_dueDate invoice;
                 inv_riskBand := inv_riskBand invoice;
                 inv_status := "advanced";
                 inv_createdAt := inv_createdAt invoice;
                 inv_advancePercent := advancePercent;
                 inv_feePercent := feePercent;
                 inv_advanceAmount := advanceAmount |} in
            let st := set ("invoice:" ++ invoiceId) (VInvoice updatedInvoice) st in
            let advanceId := Server.randomUUID env in
            let advance :=
              {| adv_id := advanceId;
                 adv_invoiceId := invoiceId;
                 adv_userId := userId;
                 adv_filename := inv_filename invoice;
                 adv_buyer := inv_buyer invoice;
                 adv_invoiceAmount := inv_amount invoice;
                 adv_advanceAmount := advanceAmount;
                 adv_feePercent := feePercent;
                 adv_dueDate := inv_dueDate invoice;
                 adv_status := "active";
                 adv_createdAt := Server.newDate env;
                 adv_riskBand := inv_riskBand invoice |} in
            let st := set ("advance:" ++ advanceId) (VAdvance advance) st in
            let st := set ("user:" ++ userId ++ ":advance:" ++ advanceId) (VId advanceId) st in
            Some (json (BInvoice updatedInvoice) 200, st)
        | _ => None
        end
  end.

(** [{ ...advance, status: 'paid' }] *)
Definition withStatusPaid (advance : Advance) : Advance :=
  {| adv_id := adv_id advance;
     adv_invoiceId := adv_invoiceId advance;
     adv_userId := adv_userId advance;
     adv_filename := adv_filename advance;
     adv_buyer := adv_buyer advance;
     adv_invoiceAmount := adv_invoiceAmount advance;
     adv_advanceAmount := adv_advanceAmount advance;
     adv_feePercent := adv_feePercent advance;
     adv_dueDate := adv_dueDate advance;
     adv_status := "paid";
     adv_createdAt := adv_createdAt advance;
     adv_riskBand := adv_riskBand advance |}.

(** The settlement object built by the mark-paid handler. *)
Definition settlementOf (env : Server.Env) (userId : string) (advance : Advance) : Settlement :=
  let settlementId := Server.randomUUID env in
  let feeAmount :=
    Math_floor (div (mul (toNumber (adv_invoiceAmount advance))
                         (toNumber (adv_feePercent advance))) lit_100) in
  let remainingAmount :=
    sub (sub (toNumber (adv_invoiceAmount advance)) (toNumber (adv_advanceAmount advance)))
        feeAmount in
  let daysToPay :=
    Qceiling (inject_Z (Server.dateNow env - adv_createdAt advance) / inject_Z msPerDay) in
  {| stl_id := settlementId;
     stl_invoiceId := adv_invoiceId advance;
     stl_userId := userId;
     stl_filename := adv_filename advance;
     stl_buyer := adv_buyer advance;
     stl_invoiceAmount := adv_invoiceAmount advance;
     stl_advanceAmount := adv_advanceAmount advance;
     stl_feeAmount := feeAmount;
     stl_feePercent := adv_feePercent advance;
     stl_remainingAmount := remainingAmount;
     stl_settlementAmount := remainingAmount;
     stl_paidDate := Server.newDate env;
     stl_createdAt := adv_createdAt advance;
     stl_riskBand := adv_riskBand advance;
     stl_daysToPay := daysToPay |}.

(** [POST /advances/:advanceId/mark-paid] *)
Definition markPaid (env : Server.Env) (advanceId : string) (st : Store) : Outcome :=
  let userId := Server.DEFAULT_USER_ID in
  match get ("advance:" ++ advanceId) st with
  | None => Some (json (BError "Advance not found") 404, st)
  | Some v =>
      if negb (truthy v) then Some (json (BError "Advance not found") 404, st)
      else
        match v with
        | VAdvance advance =>
            let updatedAdvance := withStatusPaid advance in
            let st := set ("advance:" ++ advanceId) (VAdvance updatedAdvance) st in
            let settlementId := Server.randomUUID env in
            let settlement := settlementOf env userId advance in
            let st := set ("settlement:" ++ settlementId) (VSettlement settlement) st in
            let st := set ("user:" ++ userId ++ ":settlement:" ++ settlementId)
                          (VId settlementId) st in
            Some (json BSuccess 200, st)
        | _ => None
        end
  end.

(** [handleAcceptOffer] of the offer screen: the three figures of the
    offer, sent as JSON. *)
Definition handleAcceptOffer (env : Server.Env) (invoiceId : string)
    (offer : OfferScreenBinary64.Offer) (st : Store) : Outcome :=
  acceptOffer env invoiceId
    (jsonNumber (OfferScreenBinary64.advancePercent offer))
    (jsonNumber (OfferScreenBinary64.feePercent offer))
    (jsonNumber (OfferScreenBinary64.advanceAmount offer)) st.

End ServerBinary64.

(** A store with one advance of 25000 at 3.5 percent, 20000 advanced, and
    stores whose figures are outside the exact range. *)
Module ScenarioBinary64.
Import JsNumber Binary64 ServerBinary64.

Definition advance1 : Advance :=
  {| adv_id := "a1";
     adv_invoiceId := "i1";
     adv_userId := Server.DEFAULT_USER_ID;
     adv_filename := "INV-2024-001.pdf";
     adv_buyer := "Acme Corp";
     adv_invoiceAmount := JNumber (of_Z 25000);
     adv_advanceAmount := JNumber (of_Z 20000);
     adv_feePercent := JNumber lit_3_5;
     adv_dueDate := 59 * msPerDay;
     adv_status := "active";
     adv_createdAt := 1000;
     adv_riskBand := "high" |}.

Definition active : Store :=
  set "user:demo-user-123:advance:a1" (VId "a1") (set "advance:a1" (VAdvance advance1) ∅).

Definition invoice1 : Invoice :=
  {| inv_id := "i1";
     inv_userId := Server.DEFAULT_USER_ID;
     inv_filename := "INV-2024-001.pdf";
     inv_amount := JNumber (of_Z 25000);
     inv_buyer := "Acme Corp";
     inv_dueDate := 59 * msPerDay;
     inv_riskBand := "high";
     inv_status := "uploaded";
     inv_createdAt := 0;
     inv_advancePercent := JUndefined;
     inv_feePercent := JUndefined;
     inv_advanceAmount := JUndefined |}.

Definition uploaded : Store :=
  set "user:demo-user-123:invoice:i1" (VId "i1") (set "invoice:i1" (VInvoice invoice1) ∅).

(** The double nearest to [0.29]. *)
Definition lit_0_29 : number := S754_finite false 5224175567749775 (-54).

(** An advance of 50000 whose fee percentage was posted as [0.29]. *)
Definition advanceOdd : Advance :=
  {| adv_id := "a3";
     adv_invoiceId := "i3";
     adv_userId := Server.DEFAULT_USER_ID;
     adv_filename := "INV-2024-003.pdf";
     adv_buyer := "Acme Corp";
     adv_invoiceAmount := JNumber (of_Z 50000);
     adv_advanceAmount := JNumber (of_Z 40000);
     adv_feePercent := JNumber lit_0_29;
     adv_dueDate := 59 * msPerDay;
     adv_status := "active";
     adv_createdAt := 1000;
     adv_riskBand := "high" |}.

Definition odd : Store := set "advance:a3" (VAdvance advanceOdd) ∅.

Definition settlementIn (o : Outcome) (key : string) : option Settlement :=
  match o with
  | Some (_, st) => match get key st with Some (VSettlement s) => Some s | _ => None end
  | None => None
  end.

End ScenarioBinary64.

(* ===================================================================== *)
(** * Arithmetic helpers                                                 *)
(* ===================================================================== *)

Section Rounding.

Lemma Qfloor_percent (amount : Z) (n : Z) (d : positive) :
  Qfloor (inject_Z amount * (n # d) / 100) = (amount * n) / (Zpos d * 100).
Proof.
  unfold Qdiv, Qmult, Qinv, Qfloor, inject_Z; simpl.
  rewrite Z.mul_1_r. reflexivity.
Qed.

Lemma Qceiling_whole (k : Z) (d : Z) :
  0 < d -> Qceiling (inject_Z (k * d) / inject_Z d) = k.
Proof.
  intros Hd.
  assert (E : (inject_Z (k * d) / inject_Z d == inject_Z k)%Q).
  { rewrite inject_Z_mult. field.
    intros H. apply (inject_Z_injective d 0) in H. lia. }
  rewrite (Qceiling_comp _ _ E). apply Qceiling_Z.
Qed.

Lemma daysToDue_whole (now k : Z) : daysToDue (now + k * msPerDay) now = k.
Proof.
  unfold daysToDue.
  replace (now + k * msPerDay - now) with (k * msPerDay) by lia.
  apply Qceiling_whole. reflexivity.
Qed.

End Rounding.

(* ===================================================================== *)
(** * Offer terms                                                        *)
(* ===================================================================== *)

Section OfferTheorems.
Import OfferScreen OfferSpec.

Lemma offerPercents_row (riskBand : string) :
  offerPercents riskBand = rowOfName riskBand.
Proof.
  unfold offerPercents, rowOfName, bandOfName.
  destruct (String.eqb riskBand "low"); [reflexivity|].
  destruct (String.eqb riskBand "medium"); [reflexivity|].
  destruct (String.eqb riskBand "high"); reflexivity.
Qed.

Lemma calculateOffer_percents (amount : Z) (riskBand : string) :
  (advancePercent (calculateOffer amount riskBand),
   feePercent (calculateOffer amount riskBand)) = offerPercents riskBand.
Proof.
  unfold calculateOffer. destruct (offerPercents riskBand); reflexivity.
Qed.

(** The binary64 computation [Math.floor((amount * percent) / 100)] and
    its rational model give the same integer on sample amounts, among them
    quotients just below an integer (39 * 2.5 / 100 = 0.975 and
    57 * 3.5 / 100 = 1.995). *)
Example binary64_floor_agrees :
  let samples := [(25000, 180); (25000, 5); (42000, 160); (42000, 7);
                  (18000, 170); (18000, 6); (24999, 5); (39, 5); (57, 7);
                  (59999, 7); (1, 5); (0, 5)] in
  map (fun '(a, k) =>
         JsNumber.floor_Z (JsNumber.div (JsNumber.mul (JsNumber.of_Z a)
                                                       (JsNumber.of_halves k))
                                        (JsNumber.of_Z 100))) samples
  = map (fun '(a, k) => Some (Qfloor (inject_Z a * (k # 2) / 100))) samples.
Proof. vm_compute. reflexivity. Qed.

End OfferTheorems.

(* ===================================================================== *)
(** * Simple-mode banding                                                *)
(* ===================================================================== *)

Section SimpleModeTheorems.
Import UploadInvoice OfferScreen.

Ltac band_cases amount days :=
  unfold simpleRiskBand;
  destruct (Z.ltb_spec amount 25000), (Z.ltb_spec days 60),
           (Z.ltb_spec amount 40000), (Z.ltb_spec days 45);
  cbn [andb].

(** C3. For every amount and number of days until due, the simple-mode
    band is low if amount < 25000 and days < 60; otherwise medium if
    amount < 40000 and days < 45; otherwise high. *)
Theorem simpleRiskBand_rule (amount days : Z) :
  let isLow := amount < 25000 /\ days < 60 in
  let isMedium := amount < 40000 /\ days < 45 in
  (simpleRiskBand amount days = low <-> isLow)
  /\ (simpleRiskBand amount days = medium <-> ~ isLow /\ isMedium)
  /\ (simpleRiskBand amount days = high <-> ~ isLow /\ ~ isMedium).
Proof.
  cbv zeta. band_cases amount days;
    repeat split; intros; try discriminate; try lia; try reflexivity.
Qed.

(** C9. The simple-mode banding is monotone: raising the amount or the
    days until due never gives a band of lower risk, with
    low < medium < high. *)
Theorem simpleRiskBand_monotone (amount1 days1 amount2 days2 : Z) :
  amount1 <= amount2 -> days1 <= days2 ->
  riskLevel (simpleRiskBand amount1 days1) <= riskLevel (simpleRiskBand amount2 days2).
Proof.
  intros Ha Hd.
  unfold simpleRiskBand.
  destruct (Z.ltb_spec amount1 25000), (Z.ltb_spec days1 60),
           (Z.ltb_spec amount1 40000), (Z.ltb_spec days1 45),
           (Z.ltb_spec amount2 25000), (Z.ltb_spec days2 60),
           (Z.ltb_spec amount2 40000), (Z.ltb_spec days2 45);
    cbn [andb riskLevel]; lia.
Qed.

Lemma simpleRiskBand_monotone_witness :
  riskLevel (simpleRiskBand 24999 44) <= riskLevel (simpleRiskBand 25000 59).
Proof.
  apply (simpleRiskBand_monotone 24999 44 25000 59); lia.
Defined.

(** C4 as stated fails: an amount of exactly 25000 is not below 25000, and
    59 days are not below 45, so the invoice due in 59 days is banded high
    and its offer is the high row, not the low one. *)
Lemma scenario_25000_59_is_not_low :
  let now := 1700000000000 in
  let band := simpleRiskBand 25000 (daysToDue (now + 59 * msPerDay) now) in
  band <> low
  /\ advancePercent (calculateOffer 25000 (riskBandName band)) <> 90%Q
  /\ advanceAmount (calculateOffer 25000 (riskBandName band)) <> 22500.
Proof.
  cbv zeta. rewrite daysToDue_whole.
  repeat split; intros H; vm_compute in H; discriminate H.
Qed.

(** C4, amended. For an invoice of 25000 whose due date is 59 days ahead,
    the simple-mode band is high, and the offer for it has
    advancePercent 80, advanceAmount 20000, feePercent 3.5, fee 875 and
    remainingAmount 4125; accepting that offer stores the invoice as
    advanced with these figures and creates the active advance.  The
    figures 90 / 22500 / 2.5 / 625 / 1875 are those of the same amount
    under the band low. *)
Theorem scenario_25000_59 (now : Z) :
  let band := simpleRiskBand 25000 (daysToDue (now + 59 * msPerDay) now) in
  let offer := calculateOffer 25000 (riskBandName band) in
  band = high
  /\ offer =
       {| advancePercent := 80; feePercent := 3.5; advanceAmount := 20000;
          fee := 875; netReceived := 20000; remainingAmount := 4125 |}
  /\ (exists accepted,
        Server.acceptOffer Scenario.envAccept "i1" (advancePercent offer)
          (feePercent offer) (advanceAmount offer) Scenario.uploaded
        = Some (Server.json (Server.BInvoice accepted) 200, Scenario.active)
        /\ inv_status accepted = "advanced"%string
        /\ inv_advancePercent accepted = Some 80%Q
        /\ inv_feePercent accepted = Some 3.5%Q
        /\ inv_advanceAmount accepted = Some 20000
        /\ kv.get "advance:a1" Scenario.active = Some (VAdvance Scenario.advance1))
  /\ calculateOffer 25000 (riskBandName low) =
       {| advancePercent := 90; feePercent := 2.5; advanceAmount := 22500;
          fee := 625; netReceived := 22500; remainingAmount := 1875 |}.
Proof.
  cbv zeta. rewrite daysToDue_whole.
  split; [reflexivity|]. split; [reflexivity|]. split; [|reflexivity].
  eexists. split; [vm_compute; reflexivity|]. repeat split.
Qed.

(** The band that [simulateInvoiceProcessing] returns is the simple-mode
    band of the amount and of the days until the due date of [mockData]. *)
Lemma simulateInvoiceProcessing_band (mockData : MockData) (now : Z) :
  let invoice := simulateInvoiceProcessing mockData now in
  mock_riskBand invoice
  = simpleRiskBand (mock_amount invoice) (daysToDue (mock_dueDate invoice) now).
Proof. reflexivity. Qed.

End SimpleModeTheorems.

(* ===================================================================== *)
(** * Facts about binary64 arithmetic                                    *)
(* ===================================================================== *)

Section Binary64Facts.
Import JsNumber.

Lemma shr_1_nonneg (mrs : shr_record) : 0 <= shr_m mrs -> 0 <= shr_m (shr_1 mrs).
Proof.
  destruct mrs as [m r s]; simpl.
  destruct m as [|[p|p|]|[p|p|]]; simpl; lia.
Qed.

Lemma iter_shr_1_nonneg (n : positive) :
  forall mrs, 0 <= shr_m mrs -> 0 <= shr_m (SpecFloat.iter_pos shr_1 n mrs).
Proof.
  induction n as [n IH|n IH|]; intros mrs H; simpl.
  - apply IH, IH, shr_1_nonneg, H.
  - apply IH, IH, H.
  - apply shr_1_nonneg, H.
Qed.

Lemma shr_nonneg (mrs : shr_record) (e n : Z) :
  0 <= shr_m mrs -> 0 <= shr_m (fst (shr mrs e n)).
Proof.
  intros H. destruct n; simpl; try exact H. apply iter_shr_1_nonneg, H.
Qed.

Lemma shr_record_of_loc_m (m : Z) (l : location) : shr_m (shr_record_of_loc m l) = m.
Proof. destruct l as [|[]]; reflexivity. Qed.

Lemma shr_fexp_nonneg (m e : Z) (l : location) :
  0 <= m -> 0 <= shr_m (fst (shr_fexp prec emax m e l)).
Proof.
  intros H. unfold shr_fexp. apply shr_nonneg. rewrite shr_record_of_loc_m. exact H.
Qed.

Lemma round_nearest_even_nonneg (m : Z) (l : location) :
  0 <= m -> 0 <= round_nearest_even m l.
Proof.
  intros H. destruct l as [|[]]; simpl; try lia. destruct (Z.even m); lia.
Qed.

Lemma binary_round_aux_not_nan (s : bool) (m e : Z) (l : location) :
  0 <= m -> is_nan (binary_round_aux prec emax s m e l) = false.
Proof.
  intros H. unfold binary_round_aux.
  pose proof (shr_fexp_nonneg m e l H) as H1.
  destruct (shr_fexp prec emax m e l) as [mrs' e']. simpl in H1.
  pose proof (shr_fexp_nonneg _ e' loc_Exact
                (round_nearest_even_nonneg _ (loc_of_shr_record mrs') H1)) as H2.
  destruct (shr_fexp prec emax _ e' loc_Exact) as [mrs'' e'']. simpl in H2.
  destruct (shr_m mrs''); [reflexivity| |lia].
  destruct (e'' <=? emax - prec); reflexivity.
Qed.

(** A product with a finite non-zero factor is [NaN] only if the other
    factor is. *)
Lemma mul_finite_not_nan (x : number) (s : bool) (m : positive) (e : Z) :
  is_nan x = false -> is_nan (mul x (S754_finite s m e)) = false.
Proof.
  destruct x; intros H; try discriminate H; try reflexivity.
  apply binary_round_aux_not_nan; lia.
Qed.

Lemma isRatio_finite (r : number) :
  GenkitAIService.isRatio r -> exists m e, r = S754_finite false m e.
Proof.
  intros [Hpos Hle]. destruct r as [s|s| |s m e]; try discriminate.
  - destruct s; discriminate.
  - destruct s; [discriminate|]. eauto.
Qed.

Lemma SFcompare_antisym (x y : number) :
  SFcompare y x = option_map CompOpp (SFcompare x y).
Proof.
  destruct x as [sx|sx| |sx mx ex], y as [sy|sy| |sy my ey]; simpl;
    try reflexivity; try (destruct sx; reflexivity); try (destruct sy; reflexivity);
    try (destruct sx, sy; reflexivity).
  destruct sx, sy; try reflexivity; f_equal;
    rewrite (Z.compare_antisym ex ey); destruct (ex ?= ey); simpl; try reflexivity;
    rewrite (Pos.compare_cont_antisym); try rewrite CompOpp_involutive; reflexivity.
Qed.

End Binary64Facts.

(* ===================================================================== *)
(** * Scored-mode banding                                                *)
(* ===================================================================== *)

Section ScoredModeTheorems.
Import JsNumber GenkitAIService.

Lemma literals_nearest :
  (Qabs (to_Q lit_0_8 - 0.8) <= 1 # 2 ^ 54
   /\ Qabs (to_Q lit_0_6 - 0.6) <= 1 # 2 ^ 54
   /\ Qabs (to_Q lit_0_1 - 0.1) <= 1 # 2 ^ 57
   /\ Qabs (to_Q lit_0_05 - 0.05) <= 1 # 2 ^ 58
   /\ to_Q lit_1_0 == 1)%Q.
Proof. repeat split; vm_compute; intros H; discriminate H. Qed.

Lemma lt_le (x y : number) : lt x y = true -> le x y = true.
Proof. unfold lt, le, SFltb, SFleb. destruct (SFcompare x y) as [[]|]; congruence. Qed.

Lemma not_ge_lt (x c : number) :
  is_nan x = false -> is_nan c = false -> (ge x c = false <-> lt x c = true).
Proof.
  intros Hx Hc. unfold ge, lt, SFleb, SFltb. rewrite (SFcompare_antisym x c).
  assert (Hk : exists k, SFcompare x c = Some k).
  { destruct x, c; try discriminate; simpl; eexists; reflexivity. }
  destruct Hk as [k ->]. destruct k; simpl; split; congruence.
Qed.

Lemma clamp_range (x : number) :
  is_nan x = false ->
  let y := clamp lit_0_1 lit_1_0 x in
  is_nan y = false /\ le lit_0_1 y = true /\ le y lit_1_0 = true.
Proof.
  intros Hx. cbv zeta. unfold clamp.
  assert (Hmin : is_nan (Math_min lit_1_0 x) = false
                 /\ le (Math_min lit_1_0 x) lit_1_0 = true).
  { unfold Math_min, lit_1_0.
    destruct x as [s|s| |s m e]; try discriminate Hx.
    - split; reflexivity.
    - destruct s; split; reflexivity.
    - destruct (SFltb (S754_finite s m e) _) eqn:E; split; try reflexivity.
      apply lt_le. exact E. }
  destruct Hmin as [Hn Hle]. set (z := Math_min lit_1_0 x) in *.
  unfold Math_max, lit_0_1.
  destruct z as [s|s| |s m e]; try discriminate Hn.
  - repeat split.
  - destruct s; repeat split. discriminate Hle.
  - fold lit_0_1. destruct (SFltb lit_0_1 (S754_finite s m e)) eqn:E;
      repeat split; [apply lt_le; exact E | exact Hle].
Qed.

Lemma calculateRiskScore_refines (f : RiskFactors) :
  calculateRiskScore f =
  scoredModeSpec (amount f) (daysToDue f)
                 [buyerProfile f; paymentHistory f; industryRisk f].
Proof.
  unfold calculateRiskScore, scoredModeSpec, penalty, subtractPenalty, clamp.
  destruct (amount f >? 50000), (amount f >? 30000),
           (daysToDue f >? 60), (daysToDue f >? 45); reflexivity.
Qed.

Lemma penalised_base_not_nan (amt days : Z) :
  is_nan (subtractPenalty (subtractPenalty lit_0_8 (penalty amt 50000 30000))
                          (penalty days 60 45)) = false.
Proof.
  unfold penalty.
  destruct (amt >? 50000), (amt >? 30000), (days >? 60), (days >? 45);
    vm_compute; reflexivity.
Qed.

Lemma ge_0_8_ge_0_6 (x : number) : ge x lit_0_8 = true -> ge x lit_0_6 = true.
Proof.
  unfold ge, lit_0_8, lit_0_6, SFleb, SFcompare.
  destruct x as [s|s| |s m e];
    try (intros H; discriminate H);
    try (destruct s; intros H; (discriminate H || reflexivity)).
  destruct s; [intros H; discriminate H|].
  destruct (Z.compare_spec (-53) e) as [He|He|He];
    try (intros H; discriminate H); try reflexivity.
  change (Pos.compare_cont Eq) with Pos.compare.
  destruct (Pos.compare_spec 5404319552844595 m) as [H6|H6|H6]; try reflexivity.
  destruct (Pos.compare_spec 7205759403792794 m) as [H8|H8|H8];
    intros H; try discriminate H.
  - subst m. vm_compute in H6. discriminate H6.
  - pose proof (Pos.lt_trans _ _ _ H8 H6) as C. vm_compute in C. discriminate C.
Qed.

(** C5. For every scored-mode input whose three auxiliary ratios lie in
    (0, 1], the score is: 0.8, less 0.10 if amount > 50000 else 0.05 if
    amount > 30000, less 0.10 if days > 60 else 0.05 if days > 45, times
    each ratio in turn, clamped into [0.1, 1.0]; the band is low iff
    score >= 0.8, medium iff 0.6 <= score < 0.8, and high otherwise. *)
Theorem scored_mode_score_and_band (f : RiskFactors) :
  isRatio (buyerProfile f) -> isRatio (paymentHistory f) -> isRatio (industryRisk f) ->
  let score := calculateRiskScore f in
  let band := determineRiskBand score in
  score = scoredModeSpec (amount f) (daysToDue f)
                         [buyerProfile f; paymentHistory f; industryRisk f]
  /\ le lit_0_1 score = true /\ le score lit_1_0 = true
  /\ (band = low <-> ge score lit_0_8 = true)
  /\ (band = medium <-> ge score lit_0_6 = true /\ lt score lit_0_8 = true)
  /\ (band = high <-> lt score lit_0_6 = true).
Proof.
  intros Hb Hp Hi score band.
  assert (Hspec := calculateRiskScore_refines f). fold score in Hspec.
  destruct (isRatio_finite _ Hb) as (mb & eb & Eb).
  destruct (isRatio_finite _ Hp) as (mp & ep & Ep).
  destruct (isRatio_finite _ Hi) as (mi & ei & Ei).
  assert (Hrange : is_nan score = false /\ le lit_0_1 score = true
                   /\ le score lit_1_0 = true).
  { rewrite Hspec. unfold scoredModeSpec. apply clamp_range.
    cbn [fold_left]. rewrite Eb, Ep, Ei.
    do 3 apply mul_finite_not_nan. apply penalised_base_not_nan. }
  destruct Hrange as (Hnan & Hlo & Hhi).
  pose proof (not_ge_lt score lit_0_8 Hnan eq_refl) as H8.
  pose proof (not_ge_lt score lit_0_6 Hnan eq_refl) as H6.
  split; [exact Hspec|]. split; [exact Hlo|]. split; [exact Hhi|].
  subst band. unfold determineRiskBand.
  destruct (ge score lit_0_8) eqn:E8; [|destruct (ge score lit_0_6) eqn:E6];
    repeat split; intros; try discriminate; try reflexivity.
  - match goal with H : _ /\ lt _ _ = true |- _ => destruct H as [_ H];
      apply H8 in H; discriminate H end.
  - match goal with H : lt _ _ = true |- _ =>
      apply H6 in H; rewrite (ge_0_8_ge_0_6 _ E8) in H; discriminate H end.
  - apply H8. reflexivity.
  - match goal with H : lt _ _ = true |- _ => apply H6 in H; discriminate H end.
  - match goal with H : false = true /\ _ |- _ => destruct H as [H _]; discriminate H end.
  - apply H6. reflexivity.
Qed.

Lemma scored_mode_score_and_band_witness :
  let f := {| amount := 60000; daysToDue := 30; buyerProfile := lit_1_0;
              invoiceAge := 0; paymentHistory := lit_1_0;
              industryRisk := lit_1_0 |} in
  calculateRiskScore f = S754_finite false 6305039478318695 (-53)
  /\ determineRiskBand (calculateRiskScore f) = medium.
Proof.
  intros f.
  destruct (scored_mode_score_and_band f (conj eq_refl eq_refl)
              (conj eq_refl eq_refl) (conj eq_refl eq_refl))
    as (Hspec & _ & _ & _ & Hmed & _).
  split.
  - rewrite Hspec. reflexivity.
  - apply Hmed. split; reflexivity.
Defined.

End ScoredModeTheorems.

(* ===================================================================== *)
(** * The handlers                                                       *)
(* ===================================================================== *)

Section HandlerTheorems.
Import Server Index.

Lemma markPaid_found (env : Env) (advanceId : string) (st : kv.Store) (advance : Advance) :
  kv.get ("advance:" ++ advanceId) st = Some (VAdvance advance) ->
  markPaid env advanceId st =
  Some (json BSuccess 200,
        kv.set ("user:" ++ DEFAULT_USER_ID ++ ":settlement:" ++ randomUUID env)
               (VId (randomUUID env))
          (kv.set ("settlement:" ++ randomUUID env)
                  (VSettlement (settlementOf env DEFAULT_USER_ID advance))
             (kv.set ("advance:" ++ advanceId) (VAdvance (withStatusPaid advance)) st))).
Proof. intros H. unfold markPaid. rewrite H. reflexivity. Qed.

Lemma markPaid_missing (env : Env) (advanceId : string) (st : kv.Store) :
  kv.get ("advance:" ++ advanceId) st = None ->
  markPaid env advanceId st = Some (json (BError "Advance not found") 404, st).
Proof. intros H. unfold markPaid. rewrite H. reflexivity. Qed.

Lemma markPaid_store_advance (env : Env) (advanceId : string) (st st' : kv.Store)
    (advance : Advance) (r : Response) :
  kv.get ("advance:" ++ advanceId) st = Some (VAdvance advance) ->
  markPaid env advanceId st = Some (r, st') ->
  kv.get ("advance:" ++ advanceId) st' = Some (VAdvance (withStatusPaid advance)).
Proof.
  intros H Hrun. rewrite (markPaid_found env advanceId st advance H) in Hrun.
  injection Hrun as _ <-. unfold kv.get, kv.set.
  rewrite lookup_insert_ne by discriminate.
  rewrite lookup_insert_ne by discriminate.
  apply lookup_insert_eq.
Qed.

Lemma markPaid_store_settlement (env : Env) (advanceId : string) (st st' : kv.Store)
    (advance : Advance) (r : Response) :
  kv.get ("advance:" ++ advanceId) st = Some (VAdvance advance) ->
  markPaid env advanceId st = Some (r, st') ->
  kv.get ("settlement:" ++ randomUUID env) st'
    = Some (VSettlement (settlementOf env DEFAULT_USER_ID advance))
  /\ kv.get ("user:" ++ DEFAULT_USER_ID ++ ":settlement:" ++ randomUUID env) st'
    = Some (VId (randomUUID env)).
Proof.
  intros H Hrun. rewrite (markPaid_found env advanceId st advance H) in Hrun.
  injection Hrun as _ <-. unfold kv.get, kv.set. split.
  - rewrite lookup_insert_ne by discriminate. apply lookup_insert_eq.
  - apply lookup_insert_eq.
Qed.



(** C10. MarkPaid on an existing advance writes back a record that
    differs from the stored one in its status only (now paid): id,
    invoiceId, userId, filename, buyer, invoiceAmount, advanceAmount,
    feePercent, dueDate, createdAt and riskBand keep their values. *)
Theorem markPaid_changes_only_status (env : Env) (advanceId : string) (st : kv.Store)
    (advance : Advance) :
  kv.get ("advance:" ++ advanceId) st = Some (VAdvance advance) ->
  exists r st' updated,
    markPaid env advanceId st = Some (r, st')
    /\ kv.get ("advance:" ++ advanceId) st' = Some (VAdvance updated)
    /\ adv_status updated = "paid"%string
    /\ adv_id updated = adv_id advance
    /\ adv_invoiceId updated = adv_invoiceId advance
    /\ adv_userId updated = adv_userId advance
    /\ adv_filename updated = adv_filename advance
    /\ adv_buyer updated = adv_buyer advance
    /\ adv_invoiceAmount updated = adv_invoiceAmount advance
    /\ adv_advanceAmount updated = adv_advanceAmount advance
    /\ adv_feePercent updated = adv_feePercent advance
    /\ adv_dueDate updated = adv_dueDate advance
    /\ adv_createdAt updated = adv_createdAt advance
    /\ adv_riskBand updated = adv_riskBand advance.
Proof.
  intros H. pose proof (markPaid_found env advanceId st advance H) as Hrun.
  pose proof (markPaid_store_advance _ _ _ _ _ _ H Hrun) as Ha.
  eexists _, _, (withStatusPaid advance).
  split; [exact Hrun|]. split; [exact Ha|]. repeat split.
Qed.

Lemma markPaid_changes_only_status_witness :
  exists r st' updated,
    markPaid Scenario.envPaid1 "a1" Scenario.active = Some (r, st')
    /\ kv.get "advance:a1" st' = Some (VAdvance updated)
    /\ adv_status updated = "paid"%string
    /\ adv_advanceAmount updated = 20000
    /\ adv_createdAt updated = 1000.
Proof.
  destruct (markPaid_changes_only_status Scenario.envPaid1 "a1" Scenario.active
              Scenario.advance1 eq_refl)
    as (r & st' & updated & Hrun & Ha & Hstatus & _ & _ & _ & _ & _ & _ & Hadv
        & _ & _ & Hcreated & _).
  exists r, st', updated.
  split; [exact Hrun|]. split; [exact Ha|]. split; [exact Hstatus|].
  split; [exact Hadv | exact Hcreated].
Defined.




Lemma collectAdvances_resolves (st : kv.Store) (entries : list Value) :
  forall advances : list Advance,
  forallb (wellShaped st) entries = true ->
  collectAdvances entries advances st = Some (advances ++ omap (resolve st) entries).
Proof.
  induction entries as [|entry entries IH]; intros advances Hshape.
  - simpl. rewrite app_nil_r. reflexivity.
  - simpl in Hshape. apply andb_true_iff in Hshape as [Hentry Hrest].
    destruct entry as [i|a|s|advanceId]; try discriminate Hentry.
    cbn [collectAdvances omap list_omap resolve]. unfold wellShaped in Hentry.
    destruct (kv.get ("advance:" ++ advanceId) st) as [[i|a|s|id]|];
      try discriminate Hentry.
    + cbn [truthy]. rewrite (IH _ Hrest), <- app_assoc. reflexivity.
    + apply IH, Hrest.
Qed.

Lemma dangling_wellShaped (st : kv.Store) (entries : list Value) :
  forallb (isDangling st) entries = true ->
  forallb (wellShaped st) entries = true /\ omap (resolve st) entries = [].
Proof.
  induction entries as [|entry entries IH]; intros H; [split; reflexivity|].
  simpl in H. apply andb_true_iff in H as [Hentry Hrest].
  destruct (IH Hrest) as [IH1 IH2].
  destruct entry as [i|a|s|advanceId]; try discriminate Hentry.
  cbn [forallb omap list_omap wellShaped resolve]. unfold isDangling in Hentry.
  destruct (kv.get ("advance:" ++ advanceId) st); [discriminate Hentry|].
  split; assumption.
Qed.

(** A dangling entry next to a live one: the live record is listed, the
    dangling entry is passed over. *)
Example listAdvances_mixed :
  length (kv.getByPrefix "user:demo-user-123:advance:" Scenario.activeAndDangling) = 2%nat
  /\ listAdvances DEFAULT_USER_ID Scenario.activeAndDangling
     = Some (json (BAdvances [Scenario.advance1]) 200, Scenario.activeAndDangling).
Proof. vm_compute. split; reflexivity. Qed.

End HandlerTheorems.

(* ===================================================================== *)
(** * The store: prefix scans and key families                           *)
(* ===================================================================== *)

Section StoreFacts.

Lemma getByPrefix_elem (prefix : string) (st : kv.Store) (v : Value) :
  v ∈ kv.getByPrefix prefix st
  <-> exists key, st !! key = Some v /\ String.prefix prefix key = true.
Proof.
  unfold kv.getByPrefix. rewrite list_elem_of_fmap. split.
  - intros ([key v'] & -> & Hin). apply list_elem_of_filter in Hin as [Hp Hin].
    apply elem_of_map_to_list in Hin. exists key. split; assumption.
  - intros (key & Hget & Hp). exists (key, v). split; [reflexivity|].
    apply list_elem_of_filter. split; [exact Hp|].
    apply elem_of_map_to_list. exact Hget.
Qed.

Lemma prefix_append (p rest : string) : String.prefix p (p ++ rest) = true.
Proof.
  induction p as [|c p IH]; simpl; [destruct rest; reflexivity|].
  destruct (Ascii.ascii_dec c c); [exact IH|contradiction].
Qed.

Lemma prefix_split (p key : string) :
  String.prefix p key = true -> exists rest, key = (p ++ rest)%string.
Proof.
  revert key. induction p as [|c p IH]; intros key H.
  - exists key. reflexivity.
  - destruct key as [|c' key]; [discriminate H|]. simpl in H.
    destruct (Ascii.ascii_dec c c') as [->|]; [|discriminate H].
    destruct (IH key H) as [rest ->]. exists rest. reflexivity.
Qed.

End StoreFacts.

(* ===================================================================== *)
(** * The listings are in descending order                               *)
(* ===================================================================== *)

Section SortFacts.
Import Descending Server.
Context {A : Type} (key : A -> Z).

Lemma insertBy_perm (x : A) (l : list A) : insertBy key x l ≡ₚ x :: l.
Proof.
  induction l as [|y l IH]; simpl; [reflexivity|].
  destruct (key y <? key x); [reflexivity|].
  rewrite IH. apply Permutation_swap.
Qed.

Lemma sortBy_perm_acc (l : list A) :
  forall sorted, fold_left (fun sorted x => insertBy key x sorted) l sorted ≡ₚ l ++ sorted.
Proof.
  induction l as [|x l IH]; intros sorted; simpl; [reflexivity|].
  rewrite IH, insertBy_perm. symmetry. apply Permutation_middle.
Qed.

Lemma sortBy_perm (l : list A) : sortBy key l ≡ₚ l.
Proof. unfold sortBy. rewrite sortBy_perm_acc, app_nil_r. reflexivity. Qed.

Lemma insertBy_descending (x : A) (l : list A) :
  descending key l -> descending key (insertBy key x l).
Proof.
  unfold descending. induction 1 as [|y l Hsorted IH Hall]; simpl.
  - repeat constructor.
  - destruct (Z.ltb_spec (key y) (key x)) as [Hlt|Hge].
    + constructor; [constructor; assumption|].
      constructor; [lia|].
      eapply Forall_impl; [exact Hall|]. intros b Hb. simpl in Hb. lia.
    + constructor; [exact IH|].
      rewrite (insertBy_perm x l). constructor; [exact Hge|exact Hall].
Qed.

Lemma sortBy_descending_acc (l : list A) :
  forall sorted, descending key sorted ->
  descending key (fold_left (fun sorted x => insertBy key x sorted) l sorted).
Proof.
  induction l as [|x l IH]; intros sorted H; simpl; [exact H|].
  apply IH, insertBy_descending, H.
Qed.

Lemma sortBy_descending (l : list A) : descending key (sortBy key l).
Proof. apply sortBy_descending_acc. constructor. Qed.

End SortFacts.

Section ListingOrder.
Import Descending Server Index.

Lemma insertNewestFirst_insertBy (x : Advance) (l : list Advance) :
  insertNewestFirst x l = insertBy adv_createdAt x l.
Proof. induction l as [|y l IH]; simpl; [reflexivity|]. rewrite IH. reflexivity. Qed.

Lemma sortNewestFirst_sortBy (l : list Advance) :
  sortNewestFirst l = sortBy adv_createdAt l.
Proof.
  unfold sortNewestFirst, sortBy. generalize (@nil Advance) as sorted.
  induction l as [|x l IH]; intros sorted; simpl; [reflexivity|].
  rewrite insertNewestFirst_insertBy. apply IH.
Qed.

Lemma insertLatestPaidFirst_insertBy (x : Settlement) (l : list Settlement) :
  insertLatestPaidFirst x l = insertBy stl_paidDate x l.
Proof. induction l as [|y l IH]; simpl; [reflexivity|]. rewrite IH. reflexivity. Qed.

Lemma sortLatestPaidFirst_sortBy (l : list Settlement) :
  sortLatestPaidFirst l = sortBy stl_paidDate l.
Proof.
  unfold sortLatestPaidFirst, sortBy. generalize (@nil Settlement) as sorted.
  induction l as [|x l IH]; intros sorted; simpl; [reflexivity|].
  rewrite insertLatestPaidFirst_insertBy. apply IH.
Qed.

Lemma collectAdvances_some (st : kv.Store) (entries : list Value) :
  forall advances result,
  collectAdvances entries advances st = Some result ->
  result = advances ++ omap (resolve st) entries.
Proof.
  induction entries as [|entry entries IH]; intros advances result H.
  - simpl in H. injection H as <-. simpl. rewrite app_nil_r. reflexivity.
  - destruct entry as [i|a|s|advanceId]; try discriminate H.
    cbn [collectAdvances] in H. cbn [omap list_omap resolve].
    destruct (kv.get ("advance:" ++ advanceId) st) as [[i|a|s|id]|];
      cbn [truthy] in H; try discriminate H.
    + rewrite (IH _ _ H), <- app_assoc. reflexivity.
    + destruct (negb (String.eqb id "")); [discriminate H|]. apply IH, H.
    + apply IH, H.
Qed.

(** X1. Whenever [GET /advances] answers, it answers with status 200 and
    leaves the store as it was; the list is in descending order of
    createdAt (newest first) and holds, as a multiset, exactly the advance
    records that the owner's index entries resolve to. *)
Theorem listAdvances_sorted_resolved (userId : string) (st st' : kv.Store) (r : Response) :
  listAdvances userId st = Some (r, st') ->
  exists advances,
    r = json (BAdvances advances) 200
    /\ st' = st
    /\ descending adv_createdAt advances
    /\ advances ≡ₚ omap (resolve st)
                     (kv.getByPrefix ("user:" ++ userId ++ ":advance:") st).
Proof.
  unfold listAdvances. intros H.
  destruct (collectAdvances _ [] st) as [collected|] eqn:Hc; [|discriminate H].
  injection H as <- <-. apply collectAdvances_some in Hc. simpl in Hc. subst collected.
  eexists. split; [reflexivity|]. split; [reflexivity|].
  rewrite sortNewestFirst_sortBy. split.
  - apply sortBy_descending.
  - apply sortBy_perm.
Qed.

Lemma listAdvances_sorted_resolved_witness :
  exists advances,
    getAdvances Scenario.activeAndDangling
      = Some (json (BAdvances advances) 200, Scenario.activeAndDangling)
    /\ descending adv_createdAt advances
    /\ advances ≡ₚ [Scenario.advance1].
Proof.
  destruct (listAdvances_sorted_resolved DEFAULT_USER_ID Scenario.activeAndDangling
              Scenario.activeAndDangling
              (json (BAdvances [Scenario.advance1]) 200) eq_refl)
    as (advances & Hr & _ & Hsorted & Hperm).
  exists advances. injection Hr as <-.
  split; [reflexivity|]. split; [exact Hsorted|]. exact Hperm.
Defined.

End ListingOrder.

(* ===================================================================== *)
(** * What the handlers write                                            *)
(* ===================================================================== *)

Section HandlerEffects.
Import Server Lifecycle.

Lemma balanced_settlementOf (env : Env) (userId : string) (advance : Advance) :
  balanced (settlementOf env userId advance).
Proof. unfold balanced, settlementOf. simpl. repeat split. Qed.

Lemma written_invoice (id : string) (i : Invoice) :
  statusOk (VInvoice i) = true -> written ("invoice:" ++ id) (VInvoice i).
Proof. intros H. left. eexists _, _. repeat split. exact H. Qed.

Lemma written_advance (id : string) (a : Advance) :
  statusOk (VAdvance a) = true -> written ("advance:" ++ id) (VAdvance a).
Proof. intros H. right. left. eexists _, _. repeat split. exact H. Qed.

Lemma written_settlement (id : string) (s : Settlement) :
  balanced s -> written ("settlement:" ++ id) (VSettlement s).
Proof. intros H. right. right. left. eexists _, _. repeat split; apply H. Qed.

Lemma written_index (rest id : string) : written ("user:" ++ rest) (VId id).
Proof. right. right. right. eexists _, _. split; reflexivity. Qed.

Lemma indexed_advance (st : kv.Store) (id : string) (a : Advance) :
  indexed (kv.set ("advance:" ++ id) (VAdvance a) st)
          ("user:" ++ DEFAULT_USER_ID ++ ":advance:" ++ id) (VId id).
Proof.
  split.
  - intros _. unfold kv.set. rewrite lookup_insert_eq. eexists. reflexivity.
  - unfold DEFAULT_USER_ID. simpl. intros H. discriminate H.
Qed.

Lemma indexed_settlement (st : kv.Store) (id : string) (s : Settlement) :
  indexed (kv.set ("settlement:" ++ id) (VSettlement s) st)
          ("user:" ++ DEFAULT_USER_ID ++ ":settlement:" ++ id) (VId id).
Proof.
  split.
  - unfold DEFAULT_USER_ID. simpl. intros H. discriminate H.
  - intros _. unfold kv.set. rewrite lookup_insert_eq. eexists. reflexivity.
Qed.

Lemma indexed_invoice (st : kv.Store) (id : string) :
  indexed st ("user:" ++ DEFAULT_USER_ID ++ ":invoice:" ++ id) (VId id).
Proof. split; unfold DEFAULT_USER_ID; simpl; intros H; discriminate H. Qed.

Lemma createInvoice_extends (env : Env) (request : InvoiceBody) (st : kv.Store) :
  exists r st', createInvoice env request st = Some (r, st') /\ extends st st'.
Proof.
  unfold createInvoice.
  destruct (body_filename request) as [filename|],
           (body_amount request) as [amount|],
           (body_buyer request) as [buyer|],
           (body_dueDate request) as [dueDate|],
           (body_riskBand request) as [riskBand|];
    try (eexists _, _; split; [reflexivity|apply extends_refl]).
  destruct (_ || _); (eexists _, _; split; [reflexivity|]); [apply extends_refl|].
  apply extends_set; [apply extends_set; [apply extends_refl| |exact I]| |].
  - apply written_invoice. reflexivity.
  - apply written_index.
  - apply indexed_invoice.
Qed.

Lemma acceptOffer_extends (env : Env) (invoiceId : string) (advancePercent feePercent : Q)
    (advanceAmount : Z) (st st' : kv.Store) (r : Response) :
  acceptOffer env invoiceId advancePercent feePercent advanceAmount st = Some (r, st') ->
  extends st st'.
Proof.
  unfold acceptOffer. intros Hrun.
  destruct (kv.get ("invoice:" ++ invoiceId) st) as [w|];
    [|injection Hrun as _ <-; apply extends_refl].
  destruct (negb (truthy w)); [injection Hrun as _ <-; apply extends_refl|].
  destruct w as [invoice| | |]; try discriminate Hrun.
  injection Hrun as _ <-.
  apply extends_set;
    [apply extends_set; [apply extends_set; [apply extends_refl| |exact I]| |exact I]| |].
  - apply written_invoice. reflexivity.
  - apply written_advance. reflexivity.
  - apply written_index.
  - apply indexed_advance.
Qed.

Lemma markPaid_extends (env : Env) (advanceId : string) (st st' : kv.Store) (r : Response) :
  markPaid env advanceId st = Some (r, st') -> extends st st'.
Proof.
  unfold markPaid. intros Hrun.
  destruct (kv.get ("advance:" ++ advanceId) st) as [w|];
    [|injection Hrun as _ <-; apply extends_refl].
  destruct (negb (truthy w)); [injection Hrun as _ <-; apply extends_refl|].
  destruct w as [|advance| |]; try discriminate Hrun.
  injection Hrun as _ <-.
  apply extends_set;
    [apply extends_set; [apply extends_set; [apply extends_refl| |exact I]| |exact I]| |].
  - apply written_advance. reflexivity.
  - apply written_settlement, balanced_settlementOf.
  - apply written_index.
  - apply indexed_settlement.
Qed.

Lemma storeAdvance_extends (userId : string) (st st' : kv.Store) (advance : Advance) :
  userId = DEFAULT_USER_ID -> statusOk (VAdvance advance) = true ->
  extends st st' -> extends st (storeAdvance userId st' advance).
Proof.
  intros -> Hs H. unfold storeAdvance.
  apply extends_set; [apply extends_set; [exact H| |exact I]| |].
  - apply written_advance, Hs.
  - apply written_index.
  - apply indexed_advance.
Qed.

Lemma storeSettlement_extends (userId : string) (st st' : kv.Store) (s : Settlement) :
  userId = DEFAULT_USER_ID -> balanced s ->
  extends st st' -> extends st (storeSettlement userId st' s).
Proof.
  intros -> Hb H. unfold storeSettlement.
  apply extends_set; [apply extends_set; [exact H| |exact I]| |].
  - apply written_settlement, Hb.
  - apply written_index.
  - apply indexed_settlement.
Qed.

Lemma createSampleData_extends (senv : SampleEnv) (st : kv.Store) :
  extends st (createSampleData senv DEFAULT_USER_ID st).
Proof.
  unfold createSampleData.
  destruct (0 <? length _)%nat; [apply extends_refl|].
  cbn [fold_left sampleAdvances sampleSettlements].
  repeat first
    [ apply extends_refl
    | apply storeSettlement_extends; [reflexivity|repeat split|]
    | apply storeAdvance_extends; [reflexivity|reflexivity|] ].
Qed.

End HandlerEffects.

(* ===================================================================== *)
(** * Invariants of the stored data                                      *)
(* ===================================================================== *)

Section LifecycleInvariants.
Import Server Lifecycle.

Lemma extends_trans (st1 st2 st3 : kv.Store) :
  extends st1 st2 -> extends st2 st3 -> extends st1 st3.
Proof.
  intros H12 H23. induction H23 as [|st3 key v _ IH Hw Hi]; [exact H12|].
  apply extends_set; assumption.
Qed.

Lemma step_extends (event : Event) (st st' : kv.Store) :
  step event st = Some st' -> extends st st'.
Proof.
  destruct event as [senv|env request|env invoiceId ap fp aa| |env advanceId|];
    cbn [step]; intros Hstep.
  - injection Hstep as <-. apply createSampleData_extends.
  - destruct (createInvoice_extends env request st) as (r & st1 & Hrun & Hext).
    rewrite Hrun in Hstep. injection Hstep as <-. exact Hext.
  - destruct (acceptOffer _ _ _ _ _ _) as [[r st1]|] eqn:Hrun; [|discriminate Hstep].
    injection Hstep as <-. exact (acceptOffer_extends _ _ _ _ _ _ _ _ Hrun).
  - unfold getAdvances, listAdvances in Hstep.
    destruct (collectAdvances _ _ _); [|discriminate Hstep].
    injection Hstep as <-. apply extends_refl.
  - destruct (markPaid _ _ _) as [[r st1]|] eqn:Hrun; [|discriminate Hstep].
    injection Hstep as <-. exact (markPaid_extends _ _ _ _ _ Hrun).
  - destruct (getSettlements st); [|discriminate Hstep].
    injection Hstep as <-. apply extends_refl.
Qed.

Lemma run_extends (events : list Event) :
  forall st st', run events st = Some st' -> extends st st'.
Proof.
  induction events as [|event events IH]; intros st st' Hrun.
  - injection Hrun as <-. apply extends_refl.
  - cbn [run] in Hrun. destruct (step event st) as [st1|] eqn:Hstep; [|discriminate Hrun].
    exact (extends_trans _ _ _ (step_extends _ _ _ Hstep) (IH _ _ Hrun)).
Qed.

Lemma extends_effect (st st' : kv.Store) :
  extends st st' ->
  forall key v, st' !! key = Some v -> written key v \/ st !! key = Some v.
Proof.
  induction 1 as [|st' k w _ IH Hw _]; intros key v H; [right; exact H|].
  unfold kv.set in H. apply lookup_insert_Some in H as [[<- <-]|[_ H]].
  - left. exact Hw.
  - apply IH, H.
Qed.

Lemma extends_keeps (st st' : kv.Store) (key : string) :
  extends st st' -> is_Some (st !! key) -> is_Some (st' !! key).
Proof.
  induction 1 as [|st' k w _ IH _ _]; intros H; [exact H|].
  unfold kv.set. apply lookup_insert_is_Some'. right. apply IH, H.
Qed.

Lemma step_effect (event : Event) (st st' : kv.Store) :
  step event st = Some st' ->
  forall key v, st' !! key = Some v -> written key v \/ st !! key = Some v.
Proof. intros H. apply extends_effect, (step_extends _ _ _ H). Qed.

Lemma run_effect (events : list Event) (st st' : kv.Store) :
  run events st = Some st' ->
  forall key v, st' !! key = Some v -> written key v \/ st !! key = Some v.
Proof. intros H. apply extends_effect, (run_extends _ _ _ H). Qed.

Lemma written_kindOk (key : string) (v : Value) : written key v -> kindOk key v = true.
Proof.
  intros [(id & i & -> & -> & _)|[(id & a & -> & -> & _)|[(id & s & -> & -> & _)
         |(rest & id & -> & ->)]]]; unfold kindOk; simpl.
  - destruct id; reflexivity.
  - destruct id; reflexivity.
  - destruct id; reflexivity.
  - destruct rest; reflexivity.
Qed.

Lemma written_statusOk (key : string) (v : Value) : written key v -> statusOk v = true.
Proof.
  intros [(id & i & _ & -> & H)|[(id & a & _ & -> & H)|[(id & s & _ & -> & _)
         |(rest & id & _ & ->)]]]; try exact H; reflexivity.
Qed.

Lemma written_balanced (key : string) (s : Settlement) :
  written key (VSettlement s) -> balanced s.
Proof.
  intros [(id & i & _ & E & _)|[(id & a & _ & E & _)|[(id & s' & _ & E & H)
         |(rest & id & _ & E)]]]; try discriminate E.
  injection E as ->. exact H.
Qed.

Lemma kindOk_invoice (id : string) (v : Value) :
  kindOk ("invoice:" ++ id) v = true -> exists i, v = VInvoice i.
Proof.
  unfold kindOk; simpl. destruct id; destruct v; intros H; try discriminate H; eauto.
Qed.

Lemma kindOk_advance (id : string) (v : Value) :
  kindOk ("advance:" ++ id) v = true -> exists a, v = VAdvance a.
Proof.
  unfold kindOk; simpl. destruct id; destruct v; intros H; try discriminate H; eauto.
Qed.

Lemma kindOk_settlement (id : string) (v : Value) :
  kindOk ("settlement:" ++ id) v = true -> exists s, v = VSettlement s.
Proof.
  unfold kindOk; simpl. destruct id; destruct v; intros H; try discriminate H; eauto.
Qed.

Lemma kindOk_user (rest : string) (v : Value) :
  kindOk ("user:" ++ rest) v = true -> exists id, v = VId id.
Proof.
  unfold kindOk; simpl. destruct rest; destruct v; intros H; try discriminate H; eauto.
Qed.

Lemma wellKinded_index_entry (st : kv.Store) (userId kind : string) (v : Value) :
  wellKinded st ->
  v ∈ kv.getByPrefix ("user:" ++ userId ++ kind) st ->
  exists id, v = VId id.
Proof.
  intros Hwk Hin. apply getByPrefix_elem in Hin as (key & Hget & Hp).
  apply prefix_split in Hp as [rest ->].
  apply Hwk in Hget. apply (kindOk_user ((userId ++ kind) ++ rest)). exact Hget.
Qed.

Lemma wellKinded_wellShaped (st : kv.Store) (userId : string) :
  wellKinded st ->
  forallb (Index.wellShaped st) (kv.getByPrefix ("user:" ++ userId ++ ":advance:") st) = true.
Proof.
  intros Hwk. apply forallb_forall. intros v Hin. apply list_elem_of_In in Hin.
  destruct (wellKinded_index_entry st userId ":advance:" v Hwk Hin) as [id ->].
  unfold Index.wellShaped, kv.get.
  destruct (st !! ("advance:" ++ id)%string) as [w|] eqn:Hget; [|reflexivity].
  apply Hwk in Hget. apply kindOk_advance in Hget as [a ->]. reflexivity.
Qed.

Lemma collectSettlements_total (st : kv.Store) (entries : list Value) :
  wellKinded st ->
  (forall v, v ∈ entries -> exists id, v = VId id) ->
  forall settlements, exists result, collectSettlements entries settlements st = Some result.
Proof.
  intros Hwk. induction entries as [|entry entries IH]; intros Hids settlements.
  - eexists. reflexivity.
  - destruct (Hids entry) as [id ->]; [left|].
    assert (Hrest : forall v, v ∈ entries -> exists id, v = VId id)
      by (intros v Hv; apply Hids; right; exact Hv).
    cbn [collectSettlements]. unfold kv.get.
    destruct (st !! ("settlement:" ++ id)%string) as [w|] eqn:Hget; [|apply IH, Hrest].
    apply Hwk in Hget. apply kindOk_settlement in Hget as [s ->].
    cbn [truthy]. apply IH, Hrest.
Qed.

Lemma wellKinded_step (event : Event) (st : kv.Store) :
  wellKinded st -> exists st', step event st = Some st'.
Proof.
  intros Hwk.
  destruct event as [senv|env request|env invoiceId ap fp aa| |env advanceId|];
    cbn [step].
  - eexists. reflexivity.
  - destruct (createInvoice_extends env request st) as (r & st1 & -> & _).
    eexists. reflexivity.
  - unfold acceptOffer, kv.get.
    destruct (st !! ("invoice:" ++ invoiceId)%string) as [w|] eqn:Hget;
      [|eexists; reflexivity].
    apply Hwk in Hget. apply kindOk_invoice in Hget as [i ->].
    eexists. reflexivity.
  - unfold getAdvances, listAdvances.
    rewrite (collectAdvances_resolves st _ [] (wellKinded_wellShaped st _ Hwk)).
    eexists. reflexivity.
  - unfold markPaid, kv.get.
    destruct (st !! ("advance:" ++ advanceId)%string) as [w|] eqn:Hget;
      [|eexists; reflexivity].
    apply Hwk in Hget. apply kindOk_advance in Hget as [a ->].
    eexists. reflexivity.
  - unfold getSettlements, listSettlements.
    destruct (collectSettlements_total st
                (kv.getByPrefix ("user:" ++ DEFAULT_USER_ID ++ ":settlement:") st) Hwk
                (fun v Hv => wellKinded_index_entry st DEFAULT_USER_ID ":settlement:" v Hwk Hv)
                []) as [result ->].
    eexists. reflexivity.
Qed.

Lemma wellKinded_preserved (event : Event) (st st' : kv.Store) :
  wellKinded st -> step event st = Some st' -> wellKinded st'.
Proof.
  intros Hwk Hstep key v H.
  destruct (step_effect _ _ _ Hstep key v H) as [Hw|H0].
  - apply written_kindOk, Hw.
  - apply Hwk, H0.
Qed.

(** X2. From a store in which every key family holds values of its own
    kind (the empty store is one), every sequence of start-up and requests
    runs to the end: no handler ever meets a value of another shape than
    it assumes, and the store it leaves is again of that form. *)
Theorem run_never_stuck (events : list Event) (st : kv.Store) :
  wellKinded st ->
  exists st', run events st = Some st' /\ wellKinded st'.
Proof.
  revert st. induction events as [|event events IH]; intros st Hwk.
  - exists st. split; [reflexivity|exact Hwk].
  - destruct (wellKinded_step event st Hwk) as [st1 Hstep].
    cbn [run]. rewrite Hstep.
    apply IH. exact (wellKinded_preserved _ _ _ Hwk Hstep).
Qed.

Lemma run_never_stuck_witness :
  exists st', run events ∅ = Some st' /\ wellKinded st'.
Proof.
  apply (run_never_stuck events ∅). intros key v H. rewrite lookup_empty in H. discriminate H.
Defined.

(** X3. The only statuses the server ever stores are 'uploaded' and
    'advanced' for an invoice and 'active' and 'paid' for an advance: a
    store that has no others keeps that through every run, so no invoice
    is ever stored as 'offered' or 'settled' and no advance as
    'overdue'. *)
Theorem run_statuses (events : list Event) (st st' : kv.Store) :
  statusesOk st -> run events st = Some st' -> statusesOk st'.
Proof.
  intros Hok Hrun key v H.
  destruct (run_effect _ _ _ Hrun key v H) as [Hw|H0].
  - exact (written_statusOk _ _ Hw).
  - exact (Hok _ _ H0).
Qed.

Lemma run_statuses_witness :
  statusesOk finalStore
  /\ (fun v => match v with Some (VInvoice i) => inv_status i | _ => ""%string end)
       (finalStore !! "invoice:i5"%string) = "advanced"%string.
Proof.
  split; [|reflexivity].
  apply (run_statuses events ∅ finalStore).
  - intros key v H. rewrite lookup_empty in H. discriminate H.
  - reflexivity.
Defined.

Lemma extends_index (st st' : kv.Store) :
  extends st st' ->
  forall key id, st' !! key = Some (VId id) ->
  st !! key = Some (VId id)
  \/ ((String.prefix "user:demo-user-123:advance:" key = true ->
       is_Some (st' !! ("advance:" ++ id)%string))
      /\ (String.prefix "user:demo-user-123:settlement:" key = true ->
          is_Some (st' !! ("settlement:" ++ id)%string))).
Proof.
  induction 1 as [|st' k w _ IH _ Hi]; intros key id H; [left; exact H|].
  unfold kv.set in *. apply lookup_insert_Some in H as [[<- ->]|[_ H]].
  - right. destruct Hi as [Ha Hs]. split; intros Hp; apply lookup_insert_is_Some';
      right; [apply Ha|apply Hs]; exact Hp.
  - destruct (IH key id H) as [H0|[Ha Hs]]; [left; exact H0|].
    right. split; intros Hp; apply lookup_insert_is_Some'; right;
      [apply Ha|apply Hs]; exact Hp.
Qed.

Lemma extends_wellKinded (st st' : kv.Store) :
  wellKinded st -> extends st st' -> wellKinded st'.
Proof.
  intros Hwk Hext key v H. destruct (extends_effect _ _ Hext key v H) as [Hw|H0].
  - apply written_kindOk, Hw.
  - apply Hwk, H0.
Qed.

Lemma extends_indexResolves (st st' : kv.Store) :
  wellKinded st -> indexResolves st -> extends st st' -> indexResolves st'.
Proof.
  intros Hwk [Hadv Hstl] Hext.
  pose proof (extends_wellKinded _ _ Hwk Hext) as Hwk'.
  split; intros key id Hp H.
  - assert (Hsome : is_Some (st' !! ("advance:" ++ id)%string)).
    { destruct (extends_index _ _ Hext key id H) as [H0|[Ha _]]; [|exact (Ha Hp)].
      destruct (Hadv key id Hp H0) as [a Ha].
      apply (extends_keeps _ _ _ Hext). rewrite Ha. eexists. reflexivity. }
    destruct Hsome as [v Hv]. pose proof (Hwk' _ _ Hv) as Hk.
    apply kindOk_advance in Hk as [a ->]. exists a. exact Hv.
  - assert (Hsome : is_Some (st' !! ("settlement:" ++ id)%string)).
    { destruct (extends_index _ _ Hext key id H) as [H0|[_ Hs]]; [|exact (Hs Hp)].
      destruct (Hstl key id Hp H0) as [s Hs].
      apply (extends_keeps _ _ _ Hext). rewrite Hs. eexists. reflexivity. }
    destruct Hsome as [v Hv]. pose proof (Hwk' _ _ Hv) as Hk.
    apply kindOk_settlement in Hk as [s ->]. exists s. exact Hv.
Qed.

(** X5. The handlers never leave a dangling index entry behind: in a
    store where every key family holds its own kind of value and every
    entry of the demo user's advance and settlement indexes points to a
    stored record, both remain so after every run. *)
Theorem run_index_resolves (events : list Event) (st st' : kv.Store) :
  wellKinded st -> indexResolves st -> run events st = Some st' ->
  indexResolves st'.
Proof.
  intros Hwk Hres Hrun.
  exact (extends_indexResolves _ _ Hwk Hres (run_extends _ _ _ Hrun)).
Qed.

Lemma run_index_resolves_witness :
  indexResolves finalStore
  /\ length (kv.getByPrefix "user:demo-user-123:advance:" finalStore) = 3%nat.
Proof.
  split; [|reflexivity].
  apply (run_index_resolves events ∅ finalStore).
  - intros key v H. rewrite lookup_empty in H. discriminate H.
  - split; intros key id _ H; rewrite lookup_empty in H; discriminate H.
  - reflexivity.
Defined.

Lemma omap_length_all {A B : Type} (f : A -> option B) (l : list A) :
  (forall x, x ∈ l -> is_Some (f x)) -> length (omap f l) = length l.
Proof.
  induction l as [|x l IH]; intros H; [reflexivity|].
  cbn [omap list_omap]. destruct (H x) as [y ->]; [left|].
  cbn [length]. f_equal. apply IH. intros x' Hx'. apply H. right. exact Hx'.
Qed.

(** X24. In sequential operation the listing never has to skip an entry:
    after any run from a store whose index entries all resolve (the empty
    store is one), [GET /advances] answers exactly one record for each
    entry of the demo user's advance index. *)
Theorem run_lists_every_entry (events : list Event) (st st' : kv.Store) :
  wellKinded st -> indexResolves st -> run events st = Some st' ->
  exists advances,
    getAdvances st' = Some (json (BAdvances advances) 200, st')
    /\ length advances = length (kv.getByPrefix "user:demo-user-123:advance:" st').
Proof.
  intros Hwk Hres Hrun. pose proof (run_extends _ _ _ Hrun) as Hext.
  pose proof (extends_wellKinded _ _ Hwk Hext) as Hwk'.
  destruct (extends_indexResolves _ _ Hwk Hres Hext) as [Hadv _].
  unfold getAdvances, listAdvances.
  rewrite (collectAdvances_resolves st' _ [] (wellKinded_wellShaped st' _ Hwk')).
  eexists. split; [reflexivity|]. cbn [app].
  rewrite sortNewestFirst_sortBy, sortBy_perm.
  apply omap_length_all. intros entry Hin.
  pose proof Hin as Hin'. apply getByPrefix_elem in Hin' as (key & Hget & Hp).
  destruct (wellKinded_index_entry st' DEFAULT_USER_ID ":advance:" entry Hwk' Hin)
    as [id ->].
  destruct (Hadv key id Hp Hget) as [a Ha].
  unfold Index.resolve, kv.get. rewrite Ha. eexists. reflexivity.
Qed.

Lemma run_lists_every_entry_witness :
  exists advances,
    getAdvances finalStore = Some (json (BAdvances advances) 200, finalStore)
    /\ length advances = 3%nat.
Proof.
  destruct (run_lists_every_entry events ∅ finalStore) as (advances & Hlist & Hlen).
  - intros key v H. rewrite lookup_empty in H. discriminate H.
  - split; intros key id _ H; rewrite lookup_empty in H; discriminate H.
  - reflexivity.
  - exists advances. split; [exact Hlist|]. rewrite Hlen. reflexivity.
Defined.

End LifecycleInvariants.

(* ===================================================================== *)
(** * Requests and how they compose                                      *)
(* ===================================================================== *)

Section RequestTheorems.
Import Server Lifecycle Descending.

(** X6. [POST /invoices] answers 400 "Missing required fields" and writes
    nothing when the file name, the buyer or the risk band is absent or
    empty, when the due date is absent, or when the amount is absent or
    is 0. *)
Theorem createInvoice_missing_field (env : Env) (request : InvoiceBody) (st : kv.Store) :
  body_filename request = None \/ body_filename request = Some ""%string
  \/ body_amount request = None \/ body_amount request = Some 0
  \/ body_buyer request = None \/ body_buyer request = Some ""%string
  \/ body_dueDate request = None
  \/ body_riskBand request = None \/ body_riskBand request = Some ""%string ->
  createInvoice env request st = Some (json (BError "Missing required fields") 400, st).
Proof.
  unfold createInvoice.
  destruct (body_filename request) as [filename|],
           (body_amount request) as [amount|],
           (body_buyer request) as [buyer|],
           (body_dueDate request) as [dueDate|],
           (body_riskBand request) as [riskBand|];
    try reflexivity.
  intros [H|[H|[H|[H|[H|[H|[H|[H|H]]]]]]]]; try discriminate H;
    injection H as ->; cbn [String.eqb Z.eqb orb]; rewrite ?orb_true_r; reflexivity.
Qed.

Lemma createInvoice_missing_field_witness :
  createInvoice (Build_Env "i9" 5 5)
    {| body_filename := Some "INV-9.pdf"%string; body_amount := Some 0;
       body_buyer := Some "Acme Corp"%string; body_dueDate := Some 86400000;
       body_riskBand := Some "low"%string |} ∅
  = Some (json (BError "Missing required fields") 400, ∅).
Proof.
  apply createInvoice_missing_field. right. right. right. left. reflexivity.
Defined.

(** X7. With every field present, the strings non-empty and the amount
    not 0, [POST /invoices] answers 200 with the invoice it stored: the
    posted fields, status 'uploaded', no offer fields, under the key
    [invoice:<id>] with an index entry [user:demo-user-123:invoice:<id>];
    every other key keeps its value.  The risk band is stored as posted,
    whatever string it is. *)
Theorem createInvoice_stores (env : Env) (st : kv.Store)
    (filename buyer riskBand : string) (amount dueDate : Z) :
  filename <> ""%string -> buyer <> ""%string -> riskBand <> ""%string -> amount <> 0 ->
  let request := {| body_filename := Some filename; body_amount := Some amount;
                    body_buyer := Some buyer; body_dueDate := Some dueDate;
                    body_riskBand := Some riskBand |} in
  let invoice := {| inv_id := randomUUID env; inv_userId := DEFAULT_USER_ID;
                    inv_filename := filename; inv_amount := amount;
                    inv_buyer := buyer; inv_dueDate := dueDate;
                    inv_riskBand := riskBand; inv_status := "uploaded";
                    inv_createdAt := newDate env; inv_advancePercent := None;
                    inv_feePercent := None; inv_advanceAmount := None |} in
  exists st',
    createInvoice env request st = Some (json (BInvoice invoice) 200, st')
    /\ kv.get ("invoice:" ++ randomUUID env) st' = Some (VInvoice invoice)
    /\ kv.get ("user:" ++ DEFAULT_USER_ID ++ ":invoice:" ++ randomUUID env) st'
       = Some (VId (randomUUID env))
    /\ (forall key : string,
          key <> ("invoice:" ++ randomUUID env)%string ->
          key <> ("user:" ++ DEFAULT_USER_ID ++ ":invoice:" ++ randomUUID env)%string ->
          kv.get key st' = kv.get key st).
Proof.
  intros Hf Hb Hr Ha request invoice. unfold createInvoice. cbn [request body_filename
    body_amount body_buyer body_dueDate body_riskBand].
  apply String.eqb_neq in Hf, Hb, Hr. apply Z.eqb_neq in Ha.
  rewrite Hf, Hb, Hr, Ha. cbn [orb].
  eexists. split; [reflexivity|]. unfold kv.get, kv.set. repeat split.
  - rewrite lookup_insert_ne by discriminate. apply lookup_insert_eq.
  - apply lookup_insert_eq.
  - intros key H1 H2. rewrite !lookup_insert_ne by congruence. reflexivity.
Qed.

Lemma createInvoice_stores_witness :
  exists st' invoice,
    createInvoice (Build_Env "i9" 5 5)
      {| body_filename := Some "INV-9.pdf"%string; body_amount := Some 1200;
         body_buyer := Some "Acme Corp"%string; body_dueDate := Some 86400000;
         body_riskBand := Some "unrated"%string |} ∅
    = Some (json (BInvoice invoice) 200, st')
    /\ kv.get "invoice:i9" st' = Some (VInvoice invoice)
    /\ inv_riskBand invoice = "unrated"%string.
Proof.
  destruct (createInvoice_stores (Build_Env "i9" 5 5) ∅ "INV-9.pdf" "Acme Corp" "unrated"
              1200 86400000) as (st' & Hrun & Hget & _); try discriminate.
  eexists st', _. split; [exact Hrun|]. split; [exact Hget|reflexivity].
Defined.

Lemma getAdvances_elem (st : kv.Store) :
  wellKinded st ->
  exists advances,
    getAdvances st = Some (json (BAdvances advances) 200, st)
    /\ descending adv_createdAt advances
    /\ forall a, a ∈ advances
         <-> exists key id,
               String.prefix "user:demo-user-123:advance:" key = true
               /\ st !! key = Some (VId id)
               /\ st !! ("advance:" ++ id)%string = Some (VAdvance a).
Proof.
  intros Hwk. unfold getAdvances, listAdvances.
  rewrite (collectAdvances_resolves st _ [] (wellKinded_wellShaped st _ Hwk)).
  eexists. split; [reflexivity|]. rewrite sortNewestFirst_sortBy.
  split; [apply sortBy_descending|].
  intros a. rewrite sortBy_perm. cbn [app]. rewrite list_elem_of_omap. split.
  - intros (entry & Hin & Hres). apply getByPrefix_elem in Hin as (key & Hget & Hp).
    destruct entry as [| | |id]; try discriminate Hres.
    exists key, id. split; [exact Hp|]. split; [exact Hget|].
    unfold Index.resolve, kv.get in Hres.
    destruct (st !! ("advance:" ++ id)%string) as [[| a'| |]|]; try discriminate Hres.
    injection Hres as ->. reflexivity.
  - intros (key & id & Hp & Hget & Ha). exists (VId id). split.
    + apply getByPrefix_elem. exists key. split; [exact Hget|exact Hp].
    + unfold Index.resolve, kv.get. rewrite Ha. reflexivity.
Qed.

Lemma collectSettlements_some (st : kv.Store) (entries : list Value) :
  forall settlements result,
  collectSettlements entries settlements st = Some result ->
  result = settlements ++ omap (SettlementIndex.resolve st) entries.
Proof.
  induction entries as [|entry entries IH]; intros settlements result H.
  - simpl in H. injection H as <-. simpl. rewrite app_nil_r. reflexivity.
  - destruct entry as [i|a|s|settlementId]; try discriminate H.
    cbn [collectSettlements] in H. cbn [omap list_omap SettlementIndex.resolve].
    destruct (kv.get ("settlement:" ++ settlementId) st) as [[i|a|s|id]|];
      cbn [truthy] in H; try discriminate H.
    + rewrite (IH _ _ H), <- app_assoc. reflexivity.
    + destruct (negb (String.eqb id "")); [discriminate H|]. apply IH, H.
    + apply IH, H.
Qed.


Lemma acceptOffer_found (env : Env) (invoiceId : string) (advancePercent feePercent : Q)
    (advanceAmount : Z) (st : kv.Store) (invoice : Invoice) :
  kv.get ("invoice:" ++ invoiceId) st = Some (VInvoice invoice) ->
  acceptOffer env invoiceId advancePercent feePercent advanceAmount st =
  Some (json (BInvoice (Accepted.invoiceOf invoice advancePercent feePercent advanceAmount)) 200,
        kv.set ("user:" ++ DEFAULT_USER_ID ++ ":advance:" ++ randomUUID env)
               (VId (randomUUID env))
          (kv.set ("advance:" ++ randomUUID env)
                  (VAdvance (Accepted.advanceOf env invoiceId invoice feePercent advanceAmount))
             (kv.set ("invoice:" ++ invoiceId)
                     (VInvoice (Accepted.invoiceOf invoice advancePercent feePercent
                                                   advanceAmount)) st))).
Proof. intros H. unfold acceptOffer. rewrite H. reflexivity. Qed.

(** X8. [accept-offer] on an unknown invoice answers 404 and writes
    nothing.  On a stored invoice it succeeds whatever the invoice's
    status and whatever figures are posted (they are stored unchecked):
    the invoice becomes 'advanced' with the posted figures, and an
    'active' advance is stored under the new id, copying file name,
    buyer, amount, due date and risk band from the invoice, with its
    index entry; every other key keeps its value. *)
Theorem acceptOffer_creates_advance (env : Env) (invoiceId : string)
    (advancePercent feePercent : Q) (advanceAmount : Z) (st : kv.Store) (invoice : Invoice) :
  (kv.get ("invoice:" ++ invoiceId) st = None ->
   acceptOffer env invoiceId advancePercent feePercent advanceAmount st
   = Some (json (BError "Invoice not found") 404, st))
  /\ (kv.get ("invoice:" ++ invoiceId) st = Some (VInvoice invoice) ->
      exists st',
        acceptOffer env invoiceId advancePercent feePercent advanceAmount st
        = Some (json (BInvoice (Accepted.invoiceOf invoice advancePercent feePercent
                                                   advanceAmount)) 200, st')
        /\ kv.get ("invoice:" ++ invoiceId) st'
           = Some (VInvoice (Accepted.invoiceOf invoice advancePercent feePercent
                                                 advanceAmount))
        /\ kv.get ("advance:" ++ randomUUID env) st'
           = Some (VAdvance (Accepted.advanceOf env invoiceId invoice feePercent
                                                 advanceAmount))
        /\ kv.get ("user:" ++ DEFAULT_USER_ID ++ ":advance:" ++ randomUUID env) st'
           = Some (VId (randomUUID env))
        /\ (forall key : string,
              key <> ("invoice:" ++ invoiceId)%string ->
              key <> ("advance:" ++ randomUUID env)%string ->
              key <> ("user:" ++ DEFAULT_USER_ID ++ ":advance:" ++ randomUUID env)%string ->
              kv.get key st' = kv.get key st)).
Proof.
  split.
  - intros H. unfold acceptOffer. rewrite H. reflexivity.
  - intros H. eexists. split; [apply (acceptOffer_found _ _ _ _ _ _ _ H)|].
    unfold kv.get, kv.set. repeat split.
    + rewrite !lookup_insert_ne by discriminate. apply lookup_insert_eq.
    + rewrite lookup_insert_ne by discriminate. apply lookup_insert_eq.
    + apply lookup_insert_eq.
    + intros key H1 H2 H3. rewrite !lookup_insert_ne by congruence. reflexivity.
Qed.

Lemma acceptOffer_creates_advance_witness :
  acceptOffer Scenario.envAccept "i2" 80 3.5 20000 Scenario.uploaded
  = Some (json (BError "Invoice not found") 404, Scenario.uploaded)
  /\ exists st',
       acceptOffer Scenario.envAccept "i1" 80 3.5 99999 Scenario.active
       = Some (json (BInvoice (Accepted.invoiceOf
                                 (Accepted.invoiceOf Scenario.invoice1 80 3.5 20000)
                                 80 3.5 99999)) 200, st')
       /\ kv.get "advance:a1" st'
          = Some (VAdvance (Accepted.advanceOf Scenario.envAccept "i1"
                              (Accepted.invoiceOf Scenario.invoice1 80 3.5 20000) 3.5 99999)).
Proof.
  split.
  - apply (acceptOffer_creates_advance Scenario.envAccept "i2" 80 3.5 20000
             Scenario.uploaded Scenario.invoice1). reflexivity.
  - destruct (acceptOffer_creates_advance Scenario.envAccept "i1" 80 3.5 99999
                Scenario.active (Accepted.invoiceOf Scenario.invoice1 80 3.5 20000))
      as [_ Hfound].
    destruct (Hfound eq_refl) as (st' & Hrun & _ & Hadv & _).
    exists st'. split; [exact Hrun|exact Hadv].
Defined.

End RequestTheorems.

Section Compositions.
Import Server Lifecycle Descending.

Lemma wellKinded_check (st : kv.Store) :
  forallb (fun entry => kindOk entry.1 entry.2) (map_to_list st) = true ->
  wellKinded st.
Proof.
  intros Hall key v H. rewrite forallb_forall in Hall.
  apply (Hall (key, v)). apply list_elem_of_In, elem_of_map_to_list. exact H.
Qed.

Lemma advance_key_inj (id1 id2 : string) :
  ("advance:" ++ id1)%string = ("advance:" ++ id2)%string -> id1 = id2.
Proof. simpl. intros E. injection E as E. exact E. Qed.

Lemma advanceIndex_prefix (id : string) :
  String.prefix "user:demo-user-123:advance:"
                ("user:" ++ DEFAULT_USER_ID ++ ":advance:" ++ id) = true.
Proof. exact (prefix_append "user:demo-user-123:advance:" id). Qed.


(** X9. An accepted offer shows up in the listing: after [accept-offer]
    on a stored invoice, [GET /advances] answers a list, newest first,
    that contains the new active advance. *)
Theorem acceptOffer_then_listed (env : Env) (invoiceId : string)
    (advancePercent feePercent : Q) (advanceAmount : Z) (st : kv.Store) (invoice : Invoice) :
  wellKinded st ->
  kv.get ("invoice:" ++ invoiceId) st = Some (VInvoice invoice) ->
  exists r st' advances,
    acceptOffer env invoiceId advancePercent feePercent advanceAmount st = Some (r, st')
    /\ getAdvances st' = Some (json (BAdvances advances) 200, st')
    /\ descending adv_createdAt advances
    /\ Accepted.advanceOf env invoiceId invoice feePercent advanceAmount ∈ advances.
Proof.
  intros Hwk Hget.
  pose proof (acceptOffer_found env invoiceId advancePercent feePercent advanceAmount
                st invoice Hget) as Hrun.
  set (st' := kv.set _ _ _) in Hrun.
  assert (Hwk' : wellKinded st').
  { apply (wellKinded_preserved
             (PostAcceptOffer env invoiceId advancePercent feePercent advanceAmount) st);
      [exact Hwk|]. cbn [step]. rewrite Hrun. reflexivity. }
  destruct (getAdvances_elem st' Hwk') as (advances & Hlist & Hsorted & Helem).
  eexists _, st', advances. split; [exact Hrun|]. split; [exact Hlist|].
  split; [exact Hsorted|]. apply Helem.
  exists ("user:" ++ DEFAULT_USER_ID ++ ":advance:" ++ randomUUID env)%string, (randomUUID env).
  split; [apply advanceIndex_prefix|]. subst st'. unfold kv.set. split.
  - apply lookup_insert_eq.
  - rewrite lookup_insert_ne by discriminate. apply lookup_insert_eq.
Qed.

Lemma acceptOffer_then_listed_witness :
  exists r st' advances,
    acceptOffer Scenario.envAccept "i1" 80 3.5 20000 Scenario.uploaded = Some (r, st')
    /\ getAdvances st' = Some (json (BAdvances advances) 200, st')
    /\ Scenario.advance1 ∈ advances.
Proof.
  destruct (acceptOffer_then_listed Scenario.envAccept "i1" 80 3.5 20000 Scenario.uploaded
              Scenario.invoice1) as (r & st' & advances & Hrun & Hlist & _ & Hin).
  - apply wellKinded_check. reflexivity.
  - reflexivity.
  - exists r, st', advances. split; [exact Hrun|]. split; [exact Hlist|exact Hin].
Defined.



(** X12. Accepting is not guarded against repetition: a second
    [accept-offer] on the same invoice succeeds as the first did and,
    given a new id, leaves two active advances that refer to the one
    invoice. *)
Theorem acceptOffer_twice (env1 env2 : Env) (invoiceId : string)
    (advancePercent1 feePercent1 advancePercent2 feePercent2 : Q)
    (advanceAmount1 advanceAmount2 : Z) (st : kv.Store) (invoice : Invoice) :
  kv.get ("invoice:" ++ invoiceId) st = Some (VInvoice invoice) ->
  randomUUID env1 <> randomUUID env2 ->
  exists r1 st1 r2 st2 a1 a2,
    acceptOffer env1 invoiceId advancePercent1 feePercent1 advanceAmount1 st = Some (r1, st1)
    /\ acceptOffer env2 invoiceId advancePercent2 feePercent2 advanceAmount2 st1
       = Some (r2, st2)
    /\ status r1 = 200 /\ status r2 = 200
    /\ kv.get ("advance:" ++ randomUUID env1) st2 = Some (VAdvance a1)
    /\ kv.get ("advance:" ++ randomUUID env2) st2 = Some (VAdvance a2)
    /\ adv_invoiceId a1 = invoiceId /\ adv_invoiceId a2 = invoiceId
    /\ adv_status a1 = "active"%string /\ adv_status a2 = "active"%string.
Proof.
  intros Hget Hfresh.
  pose proof (acceptOffer_found env1 invoiceId advancePercent1 feePercent1 advanceAmount1
                st invoice Hget) as Hrun1.
  set (st1 := kv.set _ _ _) in Hrun1.
  assert (Hget1 : kv.get ("invoice:" ++ invoiceId) st1
                  = Some (VInvoice (Accepted.invoiceOf invoice advancePercent1 feePercent1
                                                       advanceAmount1))).
  { subst st1. unfold kv.get, kv.set.
    rewrite !lookup_insert_ne by discriminate. apply lookup_insert_eq. }
  pose proof (acceptOffer_found env2 invoiceId advancePercent2 feePercent2 advanceAmount2
                st1 _ Hget1) as Hrun2.
  eexists _, st1, _, _, _, _. split; [exact Hrun1|]. split; [exact Hrun2|].
  split; [reflexivity|]. split; [reflexivity|].
  unfold kv.get, kv.set. split; [|split].
  - rewrite lookup_insert_ne by discriminate.
    rewrite lookup_insert_ne by (intros E; apply advance_key_inj in E; congruence).
    rewrite lookup_insert_ne by discriminate.
    subst st1. unfold kv.set.
    rewrite lookup_insert_ne by discriminate. apply lookup_insert_eq.
  - rewrite lookup_insert_ne by discriminate. apply lookup_insert_eq.
  - repeat split.
Qed.

Lemma acceptOffer_twice_witness :
  exists st2 a1 a2,
    kv.get "advance:a1" st2 = Some (VAdvance a1)
    /\ kv.get "advance:a2" st2 = Some (VAdvance a2)
    /\ adv_invoiceId a1 = "i1"%string /\ adv_invoiceId a2 = "i1"%string.
Proof.
  destruct (acceptOffer_twice Scenario.envAccept (Build_Env "a2" 2000 2000) "i1"
              80 3.5 80 3.5 20000 20000 Scenario.uploaded Scenario.invoice1 eq_refl)
    as (r1 & st1 & r2 & st2 & a1 & a2 & _ & _ & _ & _ & H1 & H2 & I1 & I2 & _);
    [discriminate|].
  exists st2, a1, a2. split; [exact H1|]. split; [exact H2|]. split; [exact I1|exact I2].
Defined.

End Compositions.

(* ===================================================================== *)
(** * Day counts                                                         *)
(* ===================================================================== *)

Section DayCounts.
Import Server.

Lemma Qceiling_days (x : Z) :
  Qceiling (inject_Z x / inject_Z msPerDay) = - ((- x) / msPerDay).
Proof.
  unfold Qceiling, Qfloor, Qdiv, Qmult, Qinv, Qopp, inject_Z, msPerDay. simpl.
  rewrite Z.mul_1_r. reflexivity.
Qed.

Lemma ceiling_days_bounds (x : Z) :
  let d := Qceiling (inject_Z x / inject_Z msPerDay) in
  (d - 1) * msPerDay < x <= d * msPerDay.
Proof.
  cbv zeta. rewrite Qceiling_days. unfold msPerDay.
  change (1000 * 60 * 60 * 24) with 86400000.
  pose proof (Z.div_mod (- x) 86400000 ltac:(discriminate)) as Hdm.
  pose proof (Z.mod_pos_bound (- x) 86400000 ltac:(reflexivity)) as Hb.
  lia.
Qed.

(** X13. The day count of a settlement is the number of started days
    between the advance's creation and the payment:
    (daysToPay - 1) days < now - createdAt <= daysToPay days.  The count
    is 0 exactly when the payment is less than one day before and not
    after the creation (in particular in the same millisecond), and 1
    exactly when it is after it by at most 24 hours. *)
Theorem markPaid_daysToPay (env : Env) (advanceId : string) (st : kv.Store)
    (advance : Advance) :
  kv.get ("advance:" ++ advanceId) st = Some (VAdvance advance) ->
  exists st' s,
    markPaid env advanceId st = Some (json BSuccess 200, st')
    /\ kv.get ("settlement:" ++ randomUUID env) st' = Some (VSettlement s)
    /\ (stl_daysToPay s - 1) * msPerDay < dateNow env - adv_createdAt advance
       <= stl_daysToPay s * msPerDay
    /\ (stl_daysToPay s = 0 <-> - msPerDay < dateNow env - adv_createdAt advance <= 0)
    /\ (stl_daysToPay s = 1 <-> 0 < dateNow env - adv_createdAt advance <= msPerDay).
Proof.
  intros Hget. pose proof (markPaid_found env advanceId st advance Hget) as Hrun.
  destruct (markPaid_store_settlement _ _ _ _ _ _ Hget Hrun) as [Hs _].
  eexists _, _. split; [exact Hrun|]. split; [exact Hs|].
  cbn [settlementOf stl_daysToPay].
  pose proof (ceiling_days_bounds (dateNow env - adv_createdAt advance)) as Hb.
  cbv zeta in Hb. unfold msPerDay in *. lia.
Qed.

Lemma markPaid_daysToPay_witness :
  exists st' s,
    markPaid Scenario.envPaid1 "a1" Scenario.active = Some (json BSuccess 200, st')
    /\ kv.get "settlement:s1" st' = Some (VSettlement s)
    /\ (stl_daysToPay s - 1) * msPerDay < 3 * msPerDay + 1 <= stl_daysToPay s * msPerDay.
Proof.
  destruct (markPaid_daysToPay Scenario.envPaid1 "a1" Scenario.active Scenario.advance1
              eq_refl) as (st' & s & Hrun & Hs & Hb & _).
  exists st', s. split; [exact Hrun|]. split; [exact Hs|]. exact Hb.
Defined.

End DayCounts.

(* ===================================================================== *)
(** * The advances screen                                                *)
(* ===================================================================== *)

Section AdvancesScreen.
Import ActiveAdvances.

Lemma daysToDue_negative (due now : Z) :
  (daysToDue due now <? 0) = (msPerDay <=? now - due).
Proof.
  unfold daysToDue. pose proof (ceiling_days_bounds (due - now)) as Hb. cbv zeta in Hb.
  unfold msPerDay in *.
  destruct (Z.ltb_spec (Qceiling (inject_Z (due - now) / inject_Z (1000 * 60 * 60 * 24))) 0),
           (Z.leb_spec (1000 * 60 * 60 * 24) (now - due)); try reflexivity; lia.
Qed.

Lemma daysToDue_within_week (due now : Z) :
  (daysToDue due now <=? 7) = (due - now <=? 7 * msPerDay).
Proof.
  unfold daysToDue. pose proof (ceiling_days_bounds (due - now)) as Hb. cbv zeta in Hb.
  unfold msPerDay in *.
  destruct (Z.leb_spec (Qceiling (inject_Z (due - now) / inject_Z (1000 * 60 * 60 * 24))) 7),
           (Z.leb_spec (due - now) (7 * (1000 * 60 * 60 * 24))); try reflexivity; lia.
Qed.

(** X14. The status badge in terms of the clock: a paid advance shows
    Paid; any other shows Overdue only once a full day has passed since
    its due date, Due Soon from seven days before the due date until then,
    and Active earlier. *)
Theorem getStatusBadge_thresholds (now : Z) (advance : Advance) :
  let late := now - adv_dueDate advance in
  let unpaid := adv_status advance <> "paid"%string in
  (getStatusBadge now advance = BadgePaid <-> adv_status advance = "paid"%string)
  /\ (getStatusBadge now advance = BadgeOverdue <-> unpaid /\ msPerDay <= late)
  /\ (getStatusBadge now advance = BadgeDueSoon
      <-> unpaid /\ - 7 * msPerDay <= late < msPerDay)
  /\ (getStatusBadge now advance = BadgeActive <-> unpaid /\ late < - 7 * msPerDay).
Proof.
  cbv zeta. unfold getStatusBadge.
  rewrite daysToDue_negative, daysToDue_within_week.
  destruct (String.eqb_spec (adv_status advance) "paid") as [Hp|Hp];
    [|destruct (Z.leb_spec msPerDay (now - adv_dueDate advance));
      [|destruct (Z.leb_spec (adv_dueDate advance - now) (7 * msPerDay))]];
    repeat split; intros; try discriminate; try assumption; try tauto;
    try (unfold msPerDay in *; lia);
    try (match goal with H : _ /\ _ |- _ => destruct H as [? ?] end;
         try contradiction; unfold msPerDay in *; lia).
Qed.

End AdvancesScreen.

Section AdvancesSummary.
Import ActiveAdvances.





End AdvancesSummary.

(* ===================================================================== *)
(** * The settlements screen                                             *)
(* ===================================================================== *)

Section SettlementsSummary.
Import SettlementsScreen.

Lemma sum_bounds {A : Type} (f : A -> Z) (lo hi : Z) (l : list A) :
  Forall (fun x => lo <= f x <= hi) l ->
  forall acc,
  acc + Z.of_nat (length l) * lo <= fold_left (fun sum x => sum + f x) l acc
  /\ fold_left (fun sum x => sum + f x) l acc <= acc + Z.of_nat (length l) * hi.
Proof.
  induction 1 as [|x l Hx _ IH]; intros acc; simpl fold_left.
  - simpl. lia.
  - destruct (IH (acc + f x)) as [IH1 IH2].
    rewrite length_cons, Nat2Z.inj_succ. lia.
Qed.

Lemma Math_round_bounds (s n lo hi : Z) :
  0 < n -> n * lo <= s -> s <= n * hi ->
  lo <= Math_round (inject_Z s / inject_Z n) <= hi.
Proof.
  intros Hn Hlo Hhi. unfold Math_round.
  assert (Hn' : (0 < inject_Z n)%Q)
    by (change (inject_Z 0 < inject_Z n)%Q; rewrite <- Zlt_Qlt; exact Hn).
  assert (Hq1 : (inject_Z lo <= inject_Z s / inject_Z n)%Q).
  { apply Qle_shift_div_l; [exact Hn'|].
    rewrite <- inject_Z_mult, <- Zle_Qle. lia. }
  assert (Hq2 : (inject_Z s / inject_Z n <= inject_Z hi)%Q).
  { apply Qle_shift_div_r; [exact Hn'|].
    rewrite <- inject_Z_mult, <- Zle_Qle. lia. }
  split.
  - rewrite <- (Qfloor_Z lo). apply Qfloor_resp_le.
    apply Qle_trans with (1 := Hq1).
    rewrite <- (Qplus_0_r (inject_Z s / inject_Z n)) at 1.
    apply Qplus_le_r. discriminate.
  - apply Z.lt_succ_r. rewrite Zlt_Qlt.
    apply Qle_lt_trans with (1 := Qfloor_le _).
    unfold Z.succ. rewrite inject_Z_plus.
    rewrite (Qplus_comm (inject_Z s / inject_Z n)), (Qplus_comm (inject_Z hi)).
    apply Qplus_lt_le_compat; [reflexivity|exact Hq2].
Qed.

(** X16. The average on the settlements screen is 0 for an empty list
    (no division takes place) and otherwise lies between the smallest and
    the largest daysToPay of the list. *)
Theorem avgDaysToPay_bounds (settlements : list Settlement) (lo hi : Z) :
  avgDaysToPay [] = 0
  /\ (settlements <> [] ->
      Forall (fun s => lo <= stl_daysToPay s <= hi) settlements ->
      lo <= avgDaysToPay settlements <= hi).
Proof.
  split; [reflexivity|]. intros Hne Hall. unfold avgDaysToPay.
  destruct settlements as [|s0 rest]; [contradiction|].
  replace (0 <? length (s0 :: rest))%nat with true by reflexivity.
  destruct (sum_bounds stl_daysToPay lo hi (s0 :: rest) Hall 0) as [H1 H2].
  apply Math_round_bounds; [rewrite length_cons; lia|lia|lia].
Qed.

Lemma avgDaysToPay_bounds_witness :
  let settlements :=
    [Server.settlementOf Scenario.envPaid1 Server.DEFAULT_USER_ID Scenario.advance1;
     Server.settlementOf Scenario.envPaid2 Server.DEFAULT_USER_ID Scenario.advance1] in
  4 <= avgDaysToPay settlements <= 5.
Proof.
  intros settlements.
  destruct (avgDaysToPay_bounds settlements 4 5) as [_ H].
  apply H; [discriminate|].
  constructor; [split; vm_compute; discriminate|].
  constructor; [split; vm_compute; discriminate|]. constructor.
Defined.

End SettlementsSummary.

(* ===================================================================== *)
(** * Scored mode: banding order, NaN, recommendation                    *)
(* ===================================================================== *)

Section ScoredModeMore.
Import JsNumber GenkitAIService GenkitAssessment.

Ltac compare_cases :=
  repeat match goal with
         | |- context [Z.compare ?a ?b] => destruct (Z.compare_spec a b)
         | |- context [Pos.compare ?a ?b] => destruct (Pos.compare_spec a b)
         end.

Lemma SFleb_trans (x y z : number) :
  SFleb x y = true -> SFleb y z = true -> SFleb x z = true.
Proof.
  unfold SFleb, SFcompare.
  destruct x as [sx|sx| |sx mx ex], y as [sy|sy| |sy my ey], z as [sz|sz| |sz mz ez];
    try (intros H; discriminate H); try (intros _ H; discriminate H);
    try reflexivity;
    try (destruct sx; try (intros H; discriminate H));
    try (destruct sy; try (intros H; discriminate H); try (intros _ H; discriminate H));
    try (destruct sz; try (intros _ H; discriminate H));
    try reflexivity;
    change (Pos.compare_cont Eq) with Pos.compare;
    compare_cases; cbn [CompOpp];
    intros Hxy Hyz; try discriminate Hxy; try discriminate Hyz; try reflexivity; lia.
Qed.

(** X17. The band never rises with the score: if score1 <= score2 then
    the band of score2 is of no higher risk than the band of score1. *)
Theorem determineRiskBand_antitone (score1 score2 : number) :
  le score1 score2 = true ->
  riskLevel (determineRiskBand score2) <= riskLevel (determineRiskBand score1).
Proof.
  intros Hle. unfold determineRiskBand, ge.
  destruct (SFleb lit_0_8 score1) eqn:H8.
  - rewrite (SFleb_trans _ _ _ H8 Hle). reflexivity.
  - destruct (SFleb lit_0_6 score1) eqn:H6.
    + rewrite (SFleb_trans _ _ _ H6 Hle).
      destruct (SFleb lit_0_8 score2); cbn [riskLevel]; lia.
    + destruct (SFleb lit_0_8 score2), (SFleb lit_0_6 score2); cbn [riskLevel]; lia.
Qed.

Lemma determineRiskBand_antitone_witness :
  riskLevel (determineRiskBand lit_0_8) <= riskLevel (determineRiskBand lit_0_6).
Proof. apply (determineRiskBand_antitone lit_0_6 lit_0_8). reflexivity. Defined.

Lemma mul_nan_r (x : number) : mul x S754_nan = S754_nan.
Proof. destruct x; reflexivity. Qed.

Lemma mul_nan_l (y : number) : mul S754_nan y = S754_nan.
Proof. reflexivity. Qed.

(** X18. The clamp does not catch [NaN]: if one of the three auxiliary
    ratios is [NaN], the score is [NaN] (not a value of [0.1, 1.0]), and
    since every comparison with [NaN] is false the band is high. *)
Theorem calculateRiskScore_nan (f : RiskFactors) :
  is_nan (buyerProfile f) = true \/ is_nan (paymentHistory f) = true
  \/ is_nan (industryRisk f) = true ->
  calculateRiskScore f = S754_nan
  /\ determineRiskBand (calculateRiskScore f) = high.
Proof.
  intros H.
  assert (Hscore : calculateRiskScore f = S754_nan).
  { unfold calculateRiskScore.
    destruct H as [H|[H|H]];
      [destruct (buyerProfile f); try discriminate H
      |destruct (paymentHistory f); try discriminate H
      |destruct (industryRisk f); try discriminate H];
      rewrite ?mul_nan_r, ?mul_nan_l, ?mul_nan_r; reflexivity. }
  rewrite Hscore. split; reflexivity.
Qed.

Lemma calculateRiskScore_nan_witness :
  determineRiskBand
    (calculateRiskScore {| amount := 15000; daysToDue := 30; buyerProfile := lit_1_0;
                           invoiceAge := 0; paymentHistory := S754_nan;
                           industryRisk := lit_1_0 |}) = high.
Proof.
  apply (calculateRiskScore_nan
           {| amount := 15000; daysToDue := 30; buyerProfile := lit_1_0;
              invoiceAge := 0; paymentHistory := S754_nan; industryRisk := lit_1_0 |}).
  right. left. reflexivity.
Defined.

(** X19. The recommendation of the risk assessment and the offer screen
    agree: for every invoice, clock and random draws, [assessInvoiceRisk]
    succeeds, its band is the band of its score, and the percentages it
    recommends are those [calculateOffer] uses for that band. *)
Theorem assessInvoiceRisk_recommendation (now : Z) (r1 r2 r3 : number)
    (invoiceData : InvoiceData) (invoiceAmount : Z) :
  let assessment := assessInvoiceRisk now r1 r2 r3 invoiceData in
  let offer := OfferScreen.calculateOffer invoiceAmount
                 (riskBandName (ra_riskBand assessment)) in
  ra_success assessment = true
  /\ ra_riskBand assessment = determineRiskBand (ra_riskScore assessment)
  /\ rec_advancePercent (ra_recommendation assessment) = OfferScreen.advancePercent offer
  /\ rec_feePercent (ra_recommendation assessment) = OfferScreen.feePercent offer.
Proof.
  cbv zeta. unfold assessInvoiceRisk. cbn [ra_success ra_riskBand ra_riskScore
    ra_recommendation].
  split; [reflexivity|]. split; [reflexivity|].
  destruct (determineRiskBand _); split; reflexivity.
Qed.

End ScoredModeMore.

(* ===================================================================== *)
(** * Offers across bands and amounts                                    *)
(* ===================================================================== *)

Section OfferOrder.
Import OfferScreen.

Lemma offer_amounts (amount : Z) (b : RiskBand) :
  advanceAmount (calculateOffer amount (riskBandName b))
  = match b with
    | low => (amount * 90) / 100
    | medium => (amount * 85) / 100
    | high => (amount * 80) / 100
    end
  /\ fee (calculateOffer amount (riskBandName b))
     = match b with
       | low => (amount * 25) / 1000
       | medium => (amount * 30) / 1000
       | high => (amount * 35) / 1000
       end.
Proof.
  destruct b; cbn [riskBandName calculateOffer offerPercents String.eqb Ascii.eqb
    Bool.eqb advanceAmount fee andb]; rewrite !Qfloor_percent; split; reflexivity.
Qed.



End OfferOrder.

(* ===================================================================== *)
(** * Start-up sample data and the settlements listing                   *)
(* ===================================================================== *)

Section SampleData.
Import Server Lifecycle Descending.

Lemma getByPrefix_nonempty (prefix key : string) (st : kv.Store) :
  is_Some (st !! key) -> String.prefix prefix key = true ->
  (0 <? length (kv.getByPrefix prefix st))%nat = true.
Proof.
  intros [v Hget] Hp.
  assert (Hin : v ∈ kv.getByPrefix prefix st)
    by (apply getByPrefix_elem; exists key; split; assumption).
  destruct (kv.getByPrefix prefix st); [inversion Hin|reflexivity].
Qed.

(** X22. [createSampleData] writes at most once: whatever ids and clock
    readings it is given, running it again on its own result writes
    nothing, because after the first run the demo user has an advance
    index entry. *)
Theorem createSampleData_once (senv senv' : SampleEnv) (st : kv.Store) :
  let st' := createSampleData senv DEFAULT_USER_ID st in
  kv.getByPrefix "user:demo-user-123:advance:" st' <> []
  /\ createSampleData senv' DEFAULT_USER_ID st' = st'.
Proof.
  intros st'.
  assert (Hne : (0 <? length (kv.getByPrefix ("user:" ++ DEFAULT_USER_ID ++ ":advance:")
                                             st'))%nat = true).
  { subst st'. unfold createSampleData.
    destruct (0 <? length (kv.getByPrefix ("user:" ++ DEFAULT_USER_ID ++ ":advance:")
                                          st))%nat eqn:Hexisting; [exact Hexisting|].
    apply (getByPrefix_nonempty _
             ("user:" ++ DEFAULT_USER_ID ++ ":advance:" ++ uuid senv 0));
      [|apply advanceIndex_prefix].
    cbn [fold_left sampleAdvances sampleSettlements storeAdvance storeSettlement
         adv_id stl_id]. unfold kv.set.
    do 6 (apply lookup_insert_is_Some'; right).
    apply lookup_insert_is_Some'. left. reflexivity. }
  split.
  - intros E. change ("user:" ++ DEFAULT_USER_ID ++ ":advance:")%string
      with "user:demo-user-123:advance:"%string in Hne. rewrite E in Hne. discriminate Hne.
  - unfold createSampleData at 1. rewrite Hne. reflexivity.
Qed.

Lemma createSampleData_once_witness :
  length (kv.getByPrefix "user:demo-user-123:advance:"
            (createSampleData sampleEnv DEFAULT_USER_ID ∅)) = 2%nat
  /\ createSampleData sampleEnv DEFAULT_USER_ID (createSampleData sampleEnv DEFAULT_USER_ID ∅)
     = createSampleData sampleEnv DEFAULT_USER_ID ∅.
Proof.
  split; [reflexivity|].
  apply (createSampleData_once sampleEnv sampleEnv ∅).
Defined.

(** X23. Whenever [GET /settlements] answers, for any owner, its list is
    in descending order of paidDate (latest payment first) and holds, as a
    multiset, exactly the settlement records that the owner's index entries
    resolve to; entries without a record are passed over. *)
Theorem listSettlements_sorted_resolved (userId : string) (st : kv.Store)
    (settlements : list Settlement) :
  listSettlements userId st = Some settlements ->
  descending stl_paidDate settlements
  /\ settlements ≡ₚ omap (SettlementIndex.resolve st)
                      (kv.getByPrefix ("user:" ++ userId ++ ":settlement:") st).
Proof.
  unfold listSettlements. intros H.
  destruct (collectSettlements _ [] st) as [collected|] eqn:Hc; [|discriminate H].
  injection H as <-. apply collectSettlements_some in Hc. cbn [app] in Hc. subst collected.
  rewrite sortLatestPaidFirst_sortBy. split.
  - apply sortBy_descending.
  - apply sortBy_perm.
Qed.

Lemma listSettlements_sorted_resolved_witness :
  let settlements :=
    [settlementOf Scenario.envPaid2 DEFAULT_USER_ID (withStatusPaid Scenario.advance1);
     settlementOf Scenario.envPaid1 DEFAULT_USER_ID Scenario.advance1] in
  getSettlements Scenario.paidTwice = Some settlements
  /\ descending stl_paidDate settlements.
Proof.
  intros settlements.
  assert (E : getSettlements Scenario.paidTwice = Some settlements)
    by (vm_compute; reflexivity).
  split; [exact E|].
  exact (proj1 (listSettlements_sorted_resolved DEFAULT_USER_ID Scenario.paidTwice
                  settlements E)).
Defined.

End SampleData.

(* ===================================================================== *)
(** * Dangling index entries                                             *)
(* ===================================================================== *)

Section DanglingEntries.
Import Descending Server Index.

Lemma resolve_some (st : kv.Store) (entry : Value) (a : Advance) :
  resolve st entry = Some a <->
  exists advanceId, entry = VId advanceId
    /\ kv.get ("advance:" ++ advanceId) st = Some (VAdvance a).
Proof.
  split.
  - destruct entry as [i|a'|s|advanceId]; try discriminate. unfold resolve.
    destruct (kv.get ("advance:" ++ advanceId) st) as [[i|a'|s|id]|] eqn:E; try discriminate.
    intros [= ->]. exists advanceId. split; [reflexivity|exact E].
  - intros (advanceId & -> & E). unfold resolve. rewrite E. reflexivity.
Qed.

Lemma resolved_or_dangling (st : kv.Store) (entries : list Value) :
  forallb (wellShaped st) entries = true ->
  (length (omap (resolve st) entries) + length (List.filter (isDangling st) entries)
   = length entries)%nat.
Proof.
  induction entries as [|entry entries IH]; intros H; [reflexivity|].
  simpl in H. apply andb_true_iff in H as [Hentry Hrest]. specialize (IH Hrest).
  destruct entry as [i|a|s|advanceId]; try discriminate Hentry.
  cbn [omap list_omap List.filter resolve isDangling]. unfold wellShaped in Hentry.
  destruct (kv.get ("advance:" ++ advanceId) st) as [[i|a|s|id]|];
    try discriminate Hentry; cbn [length]; lia.
Qed.

(** C8. For every owner, the listing answers with exactly the records
    its index entries resolve to: a record is listed if and only if some
    entry holds the id of a stored advance record, and as many times; the
    entries whose record is missing are passed over, each dropping one
    item from the count; the answer is a success whatever the number of
    dangling entries, and an owner whose index holds dangling entries only
    gets the empty list. *)
Theorem listAdvances_skips_dangling (userId : string) (st : kv.Store) :
  let entries := kv.getByPrefix ("user:" ++ userId ++ ":advance:") st in
  forallb (wellShaped st) entries = true ->
  exists advances,
    listAdvances userId st = Some (json (BAdvances advances) 200, st)
    /\ advances ≡ₚ omap (resolve st) entries
    /\ (forall a, a ∈ advances <->
          exists advanceId, VId advanceId ∈ entries
            /\ kv.get ("advance:" ++ advanceId) st = Some (VAdvance a))
    /\ (forall entry, entry ∈ entries -> isDangling st entry = true ->
          resolve st entry = None)
    /\ (length advances + length (List.filter (isDangling st) entries)
        = length entries)%nat
    /\ (forallb (isDangling st) entries = true -> advances = []).
Proof.
  intros entries Hshape.
  exists (sortNewestFirst (omap (resolve st) entries)).
  assert (Hperm : sortNewestFirst (omap (resolve st) entries) ≡ₚ omap (resolve st) entries)
    by (rewrite sortNewestFirst_sortBy; apply sortBy_perm).
  split.
  { unfold listAdvances. fold entries.
    rewrite (collectAdvances_resolves st entries [] Hshape). reflexivity. }
  split; [exact Hperm|]. split.
  { intros a. rewrite Hperm, list_elem_of_omap. split.
    - intros (entry & Hin & Hres). apply resolve_some in Hres as (advanceId & -> & E).
      exists advanceId. split; assumption.
    - intros (advanceId & Hin & E). exists (VId advanceId). split; [exact Hin|].
      apply resolve_some. exists advanceId. split; [reflexivity|exact E]. }
  split.
  { intros entry _ Hd. destruct entry as [i|a|s|advanceId]; try discriminate Hd.
    unfold isDangling in Hd. unfold resolve.
    destruct (kv.get ("advance:" ++ advanceId) st); [discriminate Hd|reflexivity]. }
  split.
  { rewrite Hperm. apply resolved_or_dangling, Hshape. }
  intros Hd. destruct (dangling_wellShaped st entries Hd) as [_ ->]. reflexivity.
Qed.

Lemma listAdvances_skips_dangling_witness :
  (exists advances,
     listAdvances DEFAULT_USER_ID Scenario.activeAndDangling
       = Some (json (BAdvances advances) 200, Scenario.activeAndDangling)
     /\ advances = [Scenario.advance1]
     /\ length (kv.getByPrefix "user:demo-user-123:advance:" Scenario.activeAndDangling)
        = 2%nat)
  /\ listAdvances DEFAULT_USER_ID Scenario.onlyDangling
     = Some (json (BAdvances []) 200, Scenario.onlyDangling).
Proof.
  split.
  - destruct (listAdvances_skips_dangling DEFAULT_USER_ID Scenario.activeAndDangling eq_refl)
      as (advances & Hrun & Hperm & _).
    exists advances. split; [exact Hrun|]. split; [|reflexivity].
    apply Permutation_singleton_r. exact Hperm.
  - destruct (listAdvances_skips_dangling DEFAULT_USER_ID Scenario.onlyDangling eq_refl)
      as (advances & Hrun & _ & _ & _ & _ & Hempty).
    rewrite Hrun, Hempty; reflexivity.
Defined.

End DanglingEntries.

(* ===================================================================== *)
(** * Rounding in binary64                                               *)
(* ===================================================================== *)

Section Binary64Rounding.
Import JsNumber Binary64.

Local Abbreviation fexp := (SpecFloat.fexp prec emax).

Lemma digits2_log2 (p : positive) : Zpos (digits2_pos p) = Z.log2 (Zpos p) + 1.
Proof.
  assert (H : forall q, digits2_pos q = Pos.size q)
    by (induction q; simpl; congruence).
  rewrite H. destruct p; simpl; lia.
Qed.

Lemma Zdigits2_bounds (m : Z) :
  0 < m -> 2 ^ (Zdigits2 m - 1) <= m < 2 ^ Zdigits2 m.
Proof.
  intros Hm. destruct m as [|p|p]; try lia. unfold Zdigits2. rewrite digits2_log2.
  replace (Z.log2 (Z.pos p) + 1 - 1) with (Z.log2 (Z.pos p)) by lia.
  pose proof (Z.log2_spec (Z.pos p) Hm). unfold Z.succ in *. lia.
Qed.

Lemma Zdigits2_pos (m : Z) : 0 < m -> 0 < Zdigits2 m.
Proof. destruct m; try lia. intros _. reflexivity. Qed.

Lemma Zdigits2_unique (m d : Z) : 2 ^ (d - 1) <= m < 2 ^ d -> 0 < d -> Zdigits2 m = d.
Proof.
  intros [H1 H2] Hd.
  assert (Hm : 0 < m) by (assert (0 < 2 ^ (d - 1)) by (apply Z.pow_pos_nonneg; lia); lia).
  destruct m as [|p|p]; try lia. unfold Zdigits2. rewrite digits2_log2.
  assert (Z.log2 (Z.pos p) = d - 1); [|lia].
  apply Z.log2_unique; [lia|]. unfold Z.succ. replace (d - 1 + 1) with d by lia. lia.
Qed.

Lemma Zdigits2_mul_pow2 (m k : Z) : 0 < m -> 0 <= k -> Zdigits2 (m * 2 ^ k) = Zdigits2 m + k.
Proof.
  intros Hm Hk. pose proof (Zdigits2_bounds m Hm) as [H1 H2].
  pose proof (Zdigits2_pos m Hm).
  apply Zdigits2_unique; [|lia].
  replace (Zdigits2 m + k - 1) with (Zdigits2 m - 1 + k) by lia.
  rewrite !Z.pow_add_r by lia.
  assert (0 < 2 ^ k) by (apply Z.pow_pos_nonneg; lia). nia.
Qed.

Lemma iter_pos_nat {A : Type} (f : A -> A) (p : positive) (x : A) :
  SpecFloat.iter_pos f p x = Nat.iter (Pos.to_nat p) f x.
Proof.
  revert x. induction p as [p IH|p IH|]; intros x; cbn [SpecFloat.iter_pos].
  - rewrite !IH. rewrite Pos2Nat.inj_xI.
    replace (S (2 * Pos.to_nat p)) with (Pos.to_nat p + (Pos.to_nat p + 1))%nat by lia.
    rewrite !Nat.iter_add. reflexivity.
  - rewrite !IH, Pos2Nat.inj_xO.
    replace (2 * Pos.to_nat p)%nat with (Pos.to_nat p + Pos.to_nat p)%nat by lia.
    rewrite Nat.iter_add. reflexivity.
  - reflexivity.
Qed.

Lemma shr_1_m (r : shr_record) : 0 <= shr_m r -> shr_m (shr_1 r) = shr_m r / 2.
Proof.
  destruct r as [m r s]; cbn [shr_m]. intros Hm. rewrite <- Z.div2_div.
  destruct m as [|[p|p|]|]; try lia; reflexivity.
Qed.

Lemma iter_shr_1_m (n : nat) (r : shr_record) :
  0 <= shr_m r -> shr_m (Nat.iter n shr_1 r) = shr_m r / 2 ^ Z.of_nat n
                  /\ 0 <= shr_m (Nat.iter n shr_1 r).
Proof.
  intros Hm. induction n as [|n [IH1 IH2]].
  - simpl. rewrite Z.div_1_r. split; [reflexivity|exact Hm].
  - change (Nat.iter (S n) shr_1 r) with (shr_1 (Nat.iter n shr_1 r)).
    rewrite shr_1_m by exact IH2. rewrite IH1.
    rewrite Nat2Z.inj_succ, Z.pow_succ_r by lia.
    rewrite Z.div_div by lia. rewrite (Z.mul_comm 2). split; [reflexivity|].
    assert (0 < 2 ^ Z.of_nat n) by (apply Z.pow_pos_nonneg; lia).
    apply Z.div_pos; [exact Hm|lia].
Qed.

Lemma shr_1_exact (m : Z) :
  0 <= m -> m mod 2 = 0 ->
  shr_1 (Build_shr_record m false false) = Build_shr_record (m / 2) false false.
Proof.
  intros Hm Hmod. rewrite <- Z.div2_div.
  destruct m as [|[p|p|]|]; try lia; try reflexivity.
  - rewrite Pos2Z.inj_xI in Hmod. rewrite Z.add_comm, Z.mul_comm, Z.mod_add in Hmod by lia.
    discriminate Hmod.
  - discriminate Hmod.
Qed.

Lemma iter_shr_1_exact (n : nat) (m : Z) :
  0 <= m -> m mod 2 ^ Z.of_nat n = 0 ->
  Nat.iter n shr_1 (Build_shr_record m false false)
  = Build_shr_record (m / 2 ^ Z.of_nat n) false false.
Proof.
  intros Hm. induction n as [|n IH]; intros Hmod.
  - simpl. rewrite Z.div_1_r. reflexivity.
  - rewrite Nat2Z.inj_succ, Z.pow_succ_r in * by lia.
    assert (Hp : 0 < 2 ^ Z.of_nat n) by (apply Z.pow_pos_nonneg; lia).
    apply Z.mod_divide in Hmod; [|lia]. destruct Hmod as [c Hc].
    assert (Hq : m / 2 ^ Z.of_nat n = c * 2).
    { rewrite Hc. replace (c * (2 * 2 ^ Z.of_nat n)) with (c * 2 * 2 ^ Z.of_nat n) by lia.
      apply Z.div_mul. lia. }
    assert (Hq2 : m / (2 * 2 ^ Z.of_nat n) = c) by (rewrite Hc; apply Z.div_mul; lia).
    match goal with |- Nat.iter (S n) shr_1 ?r = _ =>
      change (Nat.iter (S n) shr_1 r) with (shr_1 (Nat.iter n shr_1 r)) end.
    rewrite IH.
    + rewrite Hq, Hq2. rewrite shr_1_exact.
      * rewrite Z.div_mul by lia. reflexivity.
      * lia.
      * apply Z.mod_mul. lia.
    + apply Z.mod_divide; [lia|]. exists (c * 2). lia.
Qed.

Lemma fexp_eq (e : Z) : fexp e = Z.max (e - 53) (-1074).
Proof. reflexivity. Qed.

Lemma shr_pos (mrs : shr_record) (e n : Z) :
  0 < n -> shr mrs e n = (Nat.iter (Z.to_nat n) shr_1 mrs, e + n).
Proof.
  destruct n as [|p|p]; try lia. intros _. unfold shr. rewrite iter_pos_nat.
  rewrite Z2Nat.inj_pos. reflexivity.
Qed.

Lemma shr_nonpos (mrs : shr_record) (e n : Z) : n <= 0 -> shr mrs e n = (mrs, e).
Proof. destruct n as [|p|p]; try lia; reflexivity. Qed.

Lemma shr_m_of_loc (m : Z) (l : location) : shr_m (shr_record_of_loc m l) = m.
Proof. destruct l as [|[| |]]; reflexivity. Qed.

Lemma loc_of_shr_of_loc (m : Z) (l : location) :
  loc_of_shr_record (shr_record_of_loc m l) = l.
Proof. destruct l as [|[| |]]; reflexivity. Qed.

Lemma round_nearest_even_bracket (m : Z) (l : location) :
  round_nearest_even m l = m \/ round_nearest_even m l = m + 1.
Proof.
  destruct l as [|[| |]]; simpl; auto. destruct (Z.even m); auto.
Qed.

Lemma binary_round_aux_finish (sx : bool) (mx ex : Z) (lx : location) :
  binary_round_aux prec emax sx mx ex lx
  = let '(mrs', e') := shr_fexp prec emax mx ex lx in
    finish sx (round_nearest_even (shr_m mrs') (loc_of_shr_record mrs')) e'.
Proof. unfold binary_round_aux, finish. destruct (shr_fexp prec emax mx ex lx). reflexivity. Qed.

Lemma finish_small (sx : bool) (m2 e1 : Z) :
  0 < m2 < 2 ^ 53 -> -1074 <= e1 <= 971 ->
  finish sx m2 e1 = S754_finite sx (Z.to_pos m2) e1.
Proof.
  intros [Hm Hlt] He. unfold finish, shr_fexp.
  assert (Hd : Zdigits2 m2 <= 53).
  { pose proof (Zdigits2_bounds m2 Hm) as [Hb _].
    destruct (Z_le_gt_dec (Zdigits2 m2) 53) as [|Hgt]; [assumption|exfalso].
    assert (2 ^ 53 <= 2 ^ (Zdigits2 m2 - 1)) by (apply Z.pow_le_mono_r; lia). lia. }
  rewrite shr_nonpos by (rewrite fexp_eq; lia).
  rewrite shr_m_of_loc. destruct m2 as [|p|p]; try lia.
  replace (e1 <=? emax - prec) with true by (symmetry; apply Z.leb_le; unfold emax, prec; lia).
  reflexivity.
Qed.

Lemma finish_carry (sx : bool) (e1 : Z) :
  -1074 <= e1 <= 970 ->
  finish sx (2 ^ 53) e1 = S754_finite sx (Z.to_pos (2 ^ 52)) (e1 + 1).
Proof.
  intros He. unfold finish, shr_fexp.
  replace (fexp (Zdigits2 (2 ^ 53) + e1) - e1) with 1
    by (rewrite fexp_eq; change (Zdigits2 (2 ^ 53)) with 54; lia).
  cbn [shr]. cbn [SpecFloat.iter_pos].
  replace (e1 + 1 <=? emax - prec) with true by (symmetry; apply Z.leb_le; unfold emax, prec; lia).
  reflexivity.
Qed.

Section RoundAux.
Variables (sx : bool) (mx ex : Z) (lx : location).
Hypothesis Hmx : 0 < mx.
Let E := Zdigits2 mx + ex - 53.
Let sh := Z.max 0 (E - ex).
Let m1 := mx / 2 ^ sh.
Let e1 := ex + sh.
Hypothesis Hlow : -1074 <= E.
Hypothesis Hhigh : e1 <= 970.

Lemma round_aux_m1 : 0 < m1 < 2 ^ 53.
Proof.
  pose proof (Zdigits2_bounds mx Hmx) as [Hb1 Hb2]. pose proof (Zdigits2_pos mx Hmx) as Hd.
  unfold m1, sh. destruct (Z.max_spec 0 (E - ex)) as [[Hc ->]|[Hc ->]].
  - assert (Hpos : 0 < 2 ^ (E - ex)) by (apply Z.pow_pos_nonneg; lia).
    assert (Hsplit : 2 ^ Zdigits2 mx = 2 ^ 53 * 2 ^ (E - ex)).
    { rewrite <- Z.pow_add_r by lia. f_equal. unfold E. lia. }
    assert (Hsplit' : 2 ^ (Zdigits2 mx - 1) = 2 ^ 52 * 2 ^ (E - ex)).
    { rewrite <- Z.pow_add_r by lia. f_equal. unfold E. lia. }
    split.
    + apply Z.lt_le_trans with (2 ^ 52); [reflexivity|].
      apply Z.div_le_lower_bound; [lia|]. rewrite Z.mul_comm. lia.
    + apply Z.div_lt_upper_bound; [lia|]. rewrite Z.mul_comm. lia.
  - rewrite Z.div_1_r. split; [lia|].
    apply Z.lt_le_trans with (2 ^ Zdigits2 mx); [lia|].
    apply Z.pow_le_mono_r; unfold E in *; lia.
Qed.

Lemma round_aux_e1 : -1074 <= e1.
Proof. unfold e1, sh. lia. Qed.

Lemma shr_fexp_first :
  exists mrs, shr_fexp prec emax mx ex lx = (mrs, e1) /\ shr_m mrs = m1
    /\ (lx = loc_Exact -> mx mod 2 ^ sh = 0 -> mrs = Build_shr_record m1 false false).
Proof.
  unfold shr_fexp. rewrite fexp_eq.
  replace (Z.max (Zdigits2 mx + ex - 53) (-1074)) with E by (unfold E in *; lia).
  unfold m1, e1, sh. destruct (Z.max_spec 0 (E - ex)) as [[Hc ->]|[Hc ->]].
  - rewrite shr_pos by lia. eexists; split; [reflexivity|]. split.
    + destruct (iter_shr_1_m (Z.to_nat (E - ex)) (shr_record_of_loc mx lx)) as [-> _].
      * rewrite shr_m_of_loc. lia.
      * rewrite shr_m_of_loc, Z2Nat.id by lia. reflexivity.
    + intros -> Hmod. cbn [shr_record_of_loc].
      rewrite iter_shr_1_exact; rewrite ?Z2Nat.id by lia; [reflexivity|lia|exact Hmod].
  - rewrite shr_nonpos by lia. eexists; split; [f_equal; lia|]. split.
    + rewrite shr_m_of_loc, Z.div_1_r. reflexivity.
    + intros -> _. rewrite Z.div_1_r. reflexivity.
Qed.

(** The rounded result lies on the grid of spacing [2 ^ e1], at the grid
    point below the exact value or the one above. *)
Lemma binary_round_aux_bracket :
  exists m e c, binary_round_aux prec emax sx mx ex lx = S754_finite sx m e
    /\ (c = m1 \/ c = m1 + 1) /\ e1 <= e /\ Zpos m * 2 ^ (e - e1) = c.
Proof.
  destruct shr_fexp_first as (mrs & Hshr & Hm & _).
  rewrite binary_round_aux_finish, Hshr, Hm.
  pose proof round_aux_m1 as [Hm1 Hm1']. pose proof round_aux_e1 as He1.
  set (m2 := round_nearest_even m1 (loc_of_shr_record mrs)).
  assert (Hm2 : m2 = m1 \/ m2 = m1 + 1) by apply round_nearest_even_bracket.
  destruct (Z.eq_dec m2 (2 ^ 53)) as [Heq|Hne].
  - rewrite Heq, finish_carry by lia. exists (Z.to_pos (2 ^ 52)), (e1 + 1), m2.
    split; [reflexivity|]. split; [exact Hm2|]. split; [lia|].
    replace (e1 + 1 - e1) with 1 by lia. rewrite Heq. reflexivity.
  - rewrite finish_small by lia. exists (Z.to_pos m2), e1, m2.
    split; [reflexivity|]. split; [exact Hm2|]. split; [lia|].
    rewrite Z.sub_diag, Z.mul_1_r, Z2Pos.id by lia. reflexivity.
Qed.

(** When nothing is lost by the shift, the result is exact. *)
Lemma binary_round_aux_exact :
  lx = loc_Exact -> mx mod 2 ^ sh = 0 ->
  binary_round_aux prec emax sx mx ex lx = S754_finite sx (Z.to_pos m1) e1.
Proof.
  intros Hl Hmod. destruct shr_fexp_first as (mrs & Hshr & Hm & Hex).
  rewrite binary_round_aux_finish, Hshr, (Hex Hl Hmod). cbn [shr_m loc_of_shr_record round_nearest_even].
  pose proof round_aux_m1. pose proof round_aux_e1.
  apply finish_small; lia.
Qed.

End RoundAux.

Lemma Zdigits2_le_53 (n : Z) : 0 < n < 2 ^ 53 -> 0 < Zdigits2 n <= 53.
Proof.
  intros [Hn Hlt]. pose proof (Zdigits2_bounds n Hn) as [Hb _].
  pose proof (Zdigits2_pos n Hn). split; [assumption|].
  destruct (Z_le_gt_dec (Zdigits2 n) 53) as [|Hgt]; [assumption|exfalso].
  assert (2 ^ 53 <= 2 ^ (Zdigits2 n - 1)) by (apply Z.pow_le_mono_r; lia). lia.
Qed.

Lemma pow2_pos (k : Z) : 0 <= k -> 0 < 2 ^ k.
Proof. intros; apply Z.pow_pos_nonneg; lia. Qed.

(** A mantissa of at least 53 digits whose extra digits are zeros is
    rounded without error. *)
Lemma binary_round_aux_canon (s : bool) (n j E : Z) :
  0 < n < 2 ^ 53 -> 0 <= j -> 53 <= Zdigits2 n + j ->
  -1074 <= Zdigits2 n - 53 + (j + E) <= 970 ->
  binary_round_aux prec emax s (n * 2 ^ j) E loc_Exact = canon s n (j + E).
Proof.
  intros Hn Hj Hd Hr. pose proof (Zdigits2_le_53 n Hn) as Hdn.
  assert (HM : 0 < n * 2 ^ j) by (pose proof (pow2_pos j Hj); nia).
  assert (HdM : Zdigits2 (n * 2 ^ j) = Zdigits2 n + j) by (apply Zdigits2_mul_pow2; lia).
  assert (Hsh : Z.max 0 (Zdigits2 (n * 2 ^ j) + E - 53 - E) = Zdigits2 n + j - 53)
    by (rewrite HdM; lia).
  assert (Hsplit : n * 2 ^ j = n * 2 ^ (53 - Zdigits2 n) * 2 ^ (Zdigits2 n + j - 53)).
  { rewrite <- Z.mul_assoc, <- Z.pow_add_r by lia. do 2 f_equal. lia. }
  rewrite binary_round_aux_exact; rewrite ?Hsh, ?HdM; try lia; try reflexivity.
  - unfold canon. f_equal; [|lia]. f_equal.
    rewrite Hsplit at 1. apply Z.div_mul. pose proof (pow2_pos (Zdigits2 n + j - 53)). lia.
  - rewrite Hsplit. apply Z.mod_mul. pose proof (pow2_pos (Zdigits2 n + j - 53)). lia.
Qed.

Lemma Pos_iter_xO (m d : positive) : Zpos (Pos.iter xO m d) = Zpos m * 2 ^ Zpos d.
Proof.
  induction d as [|d IH] using Pos.peano_ind.
  - change (Pos.iter xO m 1) with (m~0)%positive. lia.
  - rewrite Pos.iter_succ, Pos2Z.inj_xO, IH, Pos2Z.inj_succ, Z.pow_succ_r by lia. lia.
Qed.

Lemma shl_align_spec (mx : positive) (ex ez : Z) :
  ez <= ex ->
  Zpos (fst (shl_align mx ex ez)) = Zpos mx * 2 ^ (ex - ez)
  /\ snd (shl_align mx ex ez) = ez.
Proof.
  intros Hle. unfold shl_align. destruct (ez - ex) as [|d|d] eqn:Hd; try lia; cbn [fst snd].
  - replace (ex - ez) with 0 by lia. split; lia.
  - rewrite Pos_iter_xO. replace (ex - ez) with (Zpos d) by lia. split; reflexivity.
Qed.

Lemma shl_align_keep (mx : positive) (ex ez : Z) :
  ex <= ez -> shl_align mx ex ez = (mx, ex).
Proof.
  intros Hle. unfold shl_align. destruct (ez - ex) as [|d|d] eqn:Hd; try lia; reflexivity.
Qed.

(** Rounding a value that fits on 53 digits gives its canonical form. *)
Lemma binary_round_canon (s : bool) (n j E : Z) :
  0 < n < 2 ^ 53 -> 0 <= j ->
  -1074 <= Zdigits2 n - 53 + (j + E) <= 970 ->
  binary_round prec emax s (Z.to_pos (n * 2 ^ j)) E = canon s n (j + E).
Proof.
  intros Hn Hj Hr. pose proof (Zdigits2_le_53 n Hn) as Hdn.
  assert (HM : 0 < n * 2 ^ j) by (pose proof (pow2_pos j Hj); nia).
  assert (HdM : Zdigits2 (n * 2 ^ j) = Zdigits2 n + j) by (apply Zdigits2_mul_pow2; lia).
  unfold binary_round.
  change (Z.pos (digits2_pos (Z.to_pos (n * 2 ^ j)))) with (Zdigits2 (Zpos (Z.to_pos (n * 2 ^ j)))).
  rewrite Z2Pos.id by exact HM. rewrite HdM, fexp_eq.
  replace (Z.max (Zdigits2 n + j + E - 53) (-1074)) with (Zdigits2 n + j + E - 53) by lia.
  destruct (Z_le_gt_dec 53 (Zdigits2 n + j)) as [Hge|Hlt].
  - rewrite shl_align_keep by lia. rewrite Z2Pos.id by exact HM.
    apply binary_round_aux_canon; assumption.
  - destruct (shl_align (Z.to_pos (n * 2 ^ j)) E (Zdigits2 n + j + E - 53)) as [mz ez] eqn:Hal.
    pose proof (shl_align_spec (Z.to_pos (n * 2 ^ j)) E (Zdigits2 n + j + E - 53)) as Hs.
    rewrite Hal in Hs. cbn [fst snd] in Hs. destruct Hs as [Hmz Hez]; [lia|].
    rewrite Z2Pos.id in Hmz by exact HM. rewrite Hmz, Hez.
    replace (n * 2 ^ j * 2 ^ (E - (Zdigits2 n + j + E - 53))) with (n * 2 ^ (53 - Zdigits2 n)).
    + rewrite (binary_round_aux_canon s n (53 - Zdigits2 n)) by lia.
      unfold canon. f_equal. lia.
    + rewrite <- Z.mul_assoc, <- Z.pow_add_r by lia. do 2 f_equal. lia.
Qed.

Lemma canon_mantissa (n : Z) :
  0 < n < 2 ^ 53 ->
  2 ^ 52 <= n * 2 ^ (53 - Zdigits2 n) < 2 ^ 53
  /\ Zdigits2 (n * 2 ^ (53 - Zdigits2 n)) = 53.
Proof.
  intros Hn. pose proof (Zdigits2_le_53 n Hn) as Hd.
  assert (Hdig : Zdigits2 (n * 2 ^ (53 - Zdigits2 n)) = 53)
    by (rewrite Zdigits2_mul_pow2 by lia; lia).
  split; [|exact Hdig].
  assert (Hpos : 0 < n * 2 ^ (53 - Zdigits2 n))
    by (pose proof (pow2_pos (53 - Zdigits2 n)); nia).
  pose proof (Zdigits2_bounds _ Hpos) as Hb. rewrite Hdig in Hb. exact Hb.
Qed.

Lemma of_Z_canon (n : Z) : 0 < n < 2 ^ 53 -> of_Z n = canon false n 0.
Proof.
  intros Hn. pose proof (Zdigits2_le_53 n Hn) as Hd.
  pose proof (binary_round_canon false n 0 0 Hn (Z.le_refl 0)) as H.
  rewrite Z.pow_0_r, Z.mul_1_r in H. destruct n as [|p|p]; try lia.
  apply H. lia.
Qed.

Lemma Zdigits2_lower (m k : Z) : 0 <= k -> 2 ^ k <= m -> k + 1 <= Zdigits2 m.
Proof.
  intros Hk Hle. assert (Hm : 0 < m) by (pose proof (pow2_pos k Hk); lia).
  pose proof (Zdigits2_bounds m Hm) as [_ Hb]. pose proof (Zdigits2_pos m Hm).
  assert (k < Zdigits2 m); [|lia].
  apply (Z.pow_lt_mono_r_iff 2); lia.
Qed.

(** The product of two values whose exact product fits on 53 digits. *)
Lemma mul_canon (n1 t1 n2 t2 : Z) :
  0 < n1 -> 0 < n2 -> n1 * n2 < 2 ^ 53 ->
  -1074 <= Zdigits2 (n1 * n2) - 53 + (t1 + t2) <= 970 ->
  mul (canon false n1 t1) (canon false n2 t2) = canon false (n1 * n2) (t1 + t2).
Proof.
  intros H1 H2 Hp Hr.
  assert (Hn1 : 0 < n1 < 2 ^ 53) by nia. assert (Hn2 : 0 < n2 < 2 ^ 53) by nia.
  pose proof (Zdigits2_le_53 n1 Hn1) as Hd1. pose proof (Zdigits2_le_53 n2 Hn2) as Hd2.
  pose proof (canon_mantissa n1 Hn1) as [Hm1 _]. pose proof (canon_mantissa n2 Hn2) as [Hm2 _].
  pose proof (Zdigits2_bounds n1 H1) as [Hb1 _]. pose proof (Zdigits2_bounds n2 H2) as [Hb2 _].
  unfold canon at 1 2. unfold mul, SFmul. cbn [xorb].
  rewrite Pos2Z.inj_mul, !Z2Pos.id by lia.
  set (j := 106 - Zdigits2 n1 - Zdigits2 n2).
  replace (n1 * 2 ^ (53 - Zdigits2 n1) * (n2 * 2 ^ (53 - Zdigits2 n2))) with (n1 * n2 * 2 ^ j).
  - assert (Hlow : Zdigits2 n1 - 1 + (Zdigits2 n2 - 1) + 1 <= Zdigits2 (n1 * n2)).
    { apply Zdigits2_lower; [lia|]. rewrite Z.pow_add_r by lia.
      pose proof (pow2_pos (Zdigits2 n1 - 1)). pose proof (pow2_pos (Zdigits2 n2 - 1)). nia. }
    rewrite binary_round_aux_canon; try (unfold j; lia).
    unfold canon. f_equal. unfold j. lia.
  - unfold j. replace (106 - Zdigits2 n1 - Zdigits2 n2)
      with ((53 - Zdigits2 n1) + (53 - Zdigits2 n2)) by lia.
    rewrite Z.pow_add_r by lia. ring.
Qed.

Lemma div_eucl_div_mod (a b : Z) : Z.div_eucl a b = (a / b, a mod b).
Proof. unfold Z.div, Z.modulo. destruct (Z.div_eucl a b). reflexivity. Qed.

Lemma div_core_100 (mx ex : Z) :
  Zdigits2 mx = 53 -> -900 <= ex <= 900 ->
  SFdiv_core_binary prec emax mx ex (100 * 2 ^ 46) (-46)
  = (mx * 2 ^ 53 / (100 * 2 ^ 46), ex - 7,
      new_location (100 * 2 ^ 46) (mx * 2 ^ 53 mod (100 * 2 ^ 46))).
Proof.
  intros Hd He. unfold SFdiv_core_binary. rewrite Hd.
  replace (Zdigits2 (100 * 2 ^ 46)) with 53 by reflexivity.
  rewrite fexp_eq.
  replace (Z.min (Z.max (53 + ex - (53 + -46) - 53) (-1074)) (ex - -46)) with (ex - 7) by lia.
  replace (ex - -46 - (ex - 7)) with 53 by lia.
  rewrite Z.shiftl_mul_pow2 by lia. rewrite div_eucl_div_mod. reflexivity.
Qed.

Lemma shiftl_scaled (m e e1 : Z) :
  e1 <= e -> e1 <= 0 -> Z.shiftl m e = (m * 2 ^ (e - e1)) / 2 ^ (- e1).
Proof.
  intros H1 H2. pose proof (pow2_pos (- e1)).
  destruct (Z_le_gt_dec 0 e) as [He|He].
  - rewrite Z.shiftl_mul_pow2 by lia.
    replace (e - e1) with (e + - e1) by lia. rewrite Z.pow_add_r by lia.
    rewrite Z.mul_assoc, Z.div_mul by lia. reflexivity.
  - replace e with (- - e) at 1 by lia. rewrite Z.shiftl_opp_r, Z.shiftr_div_pow2 by lia.
    replace (- e1) with (- e + (e - e1)) by lia. rewrite Z.pow_add_r by lia.
    pose proof (pow2_pos (- e)). pose proof (pow2_pos (e - e1)).
    rewrite Z.div_mul_cancel_r by lia. reflexivity.
Qed.

Lemma Zdigits2_upper (m k : Z) : 0 < m -> 0 <= k -> m < 2 ^ k -> Zdigits2 m <= k.
Proof.
  intros Hm Hk Hlt. pose proof (Zdigits2_bounds m Hm) as [Hb _]. pose proof (Zdigits2_pos m Hm).
  assert (Zdigits2 m - 1 < k); [|lia].
  apply (Z.pow_lt_mono_r_iff 2); lia.
Qed.

(** Dividing by 100 and taking the floor: the quotient of a multiple of
    1/2 by 100 is an integer or at least 1/200 away from one, which is
    more than the spacing of the binary64 values around it. *)
Lemma div_100_shape (n t : Z) :
  0 < n < 2 ^ 52 -> -1 <= t <= 0 ->
  exists m e, div (canon false n t) lit_100 = S754_finite false m e
    /\ Z.shiftl (Zpos m) e = n / (100 * 2 ^ (- t)).
Proof.
  intros Hn Ht.
  assert (Hn53 : 0 < n < 2 ^ 53) by lia.
  pose proof (canon_mantissa n Hn53) as [Hmx Hdmx].
  assert (Hdn : 0 < Zdigits2 n <= 52).
  { split; [apply Zdigits2_pos; lia|apply Zdigits2_upper; lia]. }
  set (dn := Zdigits2 n) in *. set (mx := n * 2 ^ (53 - dn)) in *.
  set (W := 2 ^ (106 - dn)).
  assert (HW : mx * 2 ^ 53 = n * W).
  { unfold mx, W. rewrite <- Z.mul_assoc, <- Z.pow_add_r by lia. do 2 f_equal. lia. }
  assert (HWbig : 2 ^ 54 <= W) by (apply Z.pow_le_mono_r; lia).
  set (my := 100 * 2 ^ 46).
  assert (Hmy : 2 ^ 52 < my < 2 ^ 53) by (unfold my; split; reflexivity).
  set (q := mx * 2 ^ 53 / my).
  assert (Hq : 2 ^ 52 <= q < 2 ^ 54).
  { unfold q. split.
    - apply Z.div_le_lower_bound; [lia|]. nia.
    - apply Z.div_lt_upper_bound; [lia|]. nia. }
  assert (Hdq : 53 <= Zdigits2 q <= 54).
  { split; [apply (Zdigits2_lower q 52); lia|apply Zdigits2_upper; lia]. }
  unfold div, SFdiv, canon, lit_100. cbn [xorb].
  rewrite Z2Pos.id by lia. fold dn. fold mx.
  change (Z.pos 7036874417766400) with (100 * 2 ^ 46).
  rewrite div_core_100 by (fold dn; lia). fold my. fold q.
  set (ex := dn - 53 + t).
  destruct (binary_round_aux_bracket false q (ex - 7)
              (new_location my (mx * 2 ^ 53 mod my))) as (m & e & c & -> & Hc & He & Hval);
    try (unfold ex; lia).
  exists m, e. split; [reflexivity|].
  cbv zeta in Hc, He, Hval.
  replace (Z.max 0 (Zdigits2 q + (ex - 7) - 53 - (ex - 7))) with (Zdigits2 q - 53) in * by lia.
  set (sh := Zdigits2 q - 53) in *.
  set (T := 7 - ex - sh).
  assert (HT : 7 <= T) by (unfold T, ex; lia).
  rewrite (shiftl_scaled _ e (ex - 7 + sh)) by (unfold ex; lia).
  rewrite Hval. replace (- (ex - 7 + sh)) with T by (unfold T; lia).
  pose proof (pow2_pos T) as HpT. pose proof (pow2_pos sh) as Hpsh.
  assert (Hc0 : 0 < 100 * 2 ^ (- t)) by (pose proof (pow2_pos (- t)); lia).
  set (c0 := 100 * 2 ^ (- t)) in *.
  assert (Hden : my * (2 ^ sh * 2 ^ T) = c0 * W).
  { unfold my, c0, W. rewrite <- !Z.mul_assoc. f_equal.
    rewrite <- !Z.pow_add_r by lia. f_equal. unfold T, ex. lia. }
  set (m1 := q / 2 ^ sh) in *.
  assert (HA : m1 / 2 ^ T = n / c0).
  { unfold m1, q. rewrite !Z.div_div by lia. rewrite HW, Hden.
    apply Z.div_mul_cancel_r; [lia|]. unfold W. pose proof (pow2_pos (106 - dn)). lia. }
  destruct Hc as [-> | ->]; [exact HA|].
  set (k := n / c0) in *.
  assert (Hk1 : k * 2 ^ T <= m1) by (rewrite <- HA, Z.mul_comm; apply Z.mul_div_le; lia).
  assert (Hk2 : m1 < (k + 1) * 2 ^ T).
  { rewrite <- HA. pose proof (Z.mul_succ_div_gt m1 (2 ^ T)). lia. }
  assert (Hn2 : n < (k + 1) * c0).
  { unfold k. pose proof (Z.mul_succ_div_gt n c0). lia. }
  assert (Hm1q : m1 * 2 ^ sh <= q) by (unfold m1; rewrite Z.mul_comm; apply Z.mul_div_le; lia).
  assert (Hqm : q * my <= n * W).
  { rewrite <- HW. unfold q. rewrite Z.mul_comm. apply Z.mul_div_le. lia. }
  assert (Hsmall : my * 2 ^ sh < W).
  { apply Z.lt_le_trans with (2 ^ 54); [|exact HWbig].
    apply Z.lt_le_trans with (2 ^ 53 * 2 ^ sh); [nia|].
    rewrite <- Z.pow_add_r by lia. apply Z.pow_le_mono_r; lia. }
  symmetry. apply (Z.div_unique _ _ k (m1 + 1 - 2 ^ T * k)); [|lia].
  left. split; [lia|].
  assert (m1 + 1 <> (k + 1) * 2 ^ T); [|lia].
  intros Heq.
  assert (H1 : ((k + 1) * 2 ^ T - 1) * 2 ^ sh * my <= n * W).
  { rewrite <- Heq. replace (m1 + 1 - 1) with m1 by lia.
    apply Z.le_trans with (q * my); [|exact Hqm].
    apply Z.mul_le_mono_nonneg_r; lia. }
  assert (H2 : ((k + 1) * 2 ^ T - 1) * 2 ^ sh * my = (k + 1) * (c0 * W) - my * 2 ^ sh).
  { rewrite <- Hden. ring. }
  assert (H3 : n * W <= (k + 1) * (c0 * W) - W).
  { replace ((k + 1) * (c0 * W) - W) with (((k + 1) * c0 - 1) * W) by ring.
    apply Z.mul_le_mono_nonneg_r; lia. }
  lia.
Qed.

Lemma div_100_floor (n t : Z) :
  0 < n < 2 ^ 52 -> -1 <= t <= 0 ->
  Math_floor (div (canon false n t) lit_100) = of_Z (n / (100 * 2 ^ (- t))).
Proof.
  intros Hn Ht. destruct (div_100_shape n t Hn Ht) as (m & e & -> & Hval).
  unfold Math_floor. cbn [cond_Zopp]. rewrite Hval. reflexivity.
Qed.

Lemma Zdigits2_mono (x y : Z) : 0 < x <= y -> Zdigits2 x <= Zdigits2 y.
Proof.
  intros [Hx Hxy]. pose proof (Zdigits2_bounds x Hx) as [Hb _].
  pose proof (Zdigits2_pos x Hx).
  assert (Zdigits2 x - 1 + 1 <= Zdigits2 y); [|lia].
  apply Zdigits2_lower; lia.
Qed.

Lemma of_Z_0 : of_Z 0 = S754_zero false.
Proof. reflexivity. Qed.

(** The two mantissas of an addition or subtraction of integers, brought
    to the smaller exponent. *)
Lemma aligned_mantissas (x y : Z) :
  0 < y <= x -> x < 2 ^ 53 ->
  let ex := Zdigits2 x - 53 in
  let ey := Zdigits2 y - 53 in
  let mx := Z.to_pos (x * 2 ^ (53 - Zdigits2 x)) in
  let my := Z.to_pos (y * 2 ^ (53 - Zdigits2 y)) in
  Z.min ex ey = ey
  /\ Zpos (fst (shl_align mx ex ey)) = x * 2 ^ (53 - Zdigits2 y)
  /\ Zpos (fst (shl_align my ey ey)) = y * 2 ^ (53 - Zdigits2 y).
Proof.
  intros Hy Hx ex ey mx my.
  assert (Hx53 : 0 < x < 2 ^ 53) by lia. assert (Hy53 : 0 < y < 2 ^ 53) by lia.
  pose proof (Zdigits2_le_53 x Hx53) as Hdx. pose proof (Zdigits2_le_53 y Hy53) as Hdy.
  pose proof (Zdigits2_mono y x Hy) as Hmono.
  pose proof (canon_mantissa x Hx53) as [Hmx _]. pose proof (canon_mantissa y Hy53) as [Hmy _].
  split; [unfold ex, ey; lia|]. split.
  - destruct (shl_align_spec mx ex ey) as [-> _]; [unfold ex, ey; lia|].
    unfold mx. rewrite Z2Pos.id by lia.
    rewrite <- Z.mul_assoc, <- Z.pow_add_r by (unfold ex, ey; lia).
    do 2 f_equal. unfold ex, ey. lia.
  - destruct (shl_align_spec my ey ey) as [-> _]; [lia|].
    unfold my. rewrite Z2Pos.id by lia. rewrite Z.sub_diag. lia.
Qed.

Lemma binary_normalize_scaled (z j : Z) :
  0 <= z < 2 ^ 53 -> 0 <= j <= 53 ->
  binary_normalize prec emax (z * 2 ^ j) (- j) false = of_Z z.
Proof.
  intros Hz Hj. destruct (Z.eq_dec z 0) as [->|Hne]; [reflexivity|].
  assert (Hz' : 0 < z < 2 ^ 53) by lia. pose proof (Zdigits2_le_53 z Hz') as Hd.
  rewrite of_Z_canon by exact Hz'.
  assert (HM : 0 < z * 2 ^ j) by (pose proof (pow2_pos j); nia).
  pose proof (binary_round_canon false z j (- j) Hz') as H.
  replace (j + - j) with 0 in H by lia.
  destruct (z * 2 ^ j) as [|p|p] eqn:Hp; try lia.
  apply H; lia.
Qed.

Lemma sub_of_Z (x y : Z) : 0 <= y <= x -> x < 2 ^ 53 -> sub (of_Z x) (of_Z y) = of_Z (x - y).
Proof.
  intros Hy Hx. destruct (Z.eq_dec y 0) as [->|Hy0].
  - rewrite Z.sub_0_r. destruct (Z.eq_dec x 0) as [->|Hx0]; [reflexivity|].
    rewrite of_Z_canon by lia. reflexivity.
  - rewrite (of_Z_canon x), (of_Z_canon y) by lia.
    destruct (aligned_mantissas x y) as (Hmin & Hax & Hay); [lia|lia|].
    unfold sub, SFsub, canon. cbn [cond_Zopp]. rewrite !Z.add_0_r, Hmin, Hax, Hay.
    rewrite <- Z.mul_sub_distr_r.
    replace (Zdigits2 y - 53) with (- (53 - Zdigits2 y)) by lia.
    pose proof (Zdigits2_le_53 y ltac:(lia)).
    apply binary_normalize_scaled; lia.
Qed.



Lemma le_of_Z (x y : Z) : 0 <= x <= y -> y < 2 ^ 53 -> le (of_Z x) (of_Z y) = true.
Proof.
  intros Hx Hy. destruct (Z.eq_dec x 0) as [->|Hx0].
  - destruct (Z.eq_dec y 0) as [->|Hy0]; [reflexivity|].
    rewrite (of_Z_canon y) by lia. reflexivity.
  - rewrite (of_Z_canon x), (of_Z_canon y) by lia.
    assert (Hx53 : 0 < x < 2 ^ 53) by lia. assert (Hy53 : 0 < y < 2 ^ 53) by lia.
    pose proof (Zdigits2_mono x y ltac:(lia)) as Hmono.
    pose proof (canon_mantissa x Hx53) as [Hmx _]. pose proof (canon_mantissa y Hy53) as [Hmy _].
    unfold le, SFleb, SFcompare, canon. rewrite !Z.add_0_r.
    destruct (Z.compare_spec (Zdigits2 x - 53) (Zdigits2 y - 53)) as [Heq|Hlt|Hgt];
      [|reflexivity|lia].
    change (Pos.compare_cont Eq ?a ?b) with (Pos.compare a b).
    rewrite Pos2Z.inj_compare, !Z2Pos.id by lia.
    replace (Zdigits2 x) with (Zdigits2 y) by lia.
    pose proof (pow2_pos (53 - Zdigits2 y)) as Hp.
    destruct (Z.compare_spec (x * 2 ^ (53 - Zdigits2 y)) (y * 2 ^ (53 - Zdigits2 y)));
      try reflexivity.
    pose proof (Zdigits2_le_53 y Hy53). nia.
Qed.

End Binary64Rounding.

(* ===================================================================== *)
(** * [calculateOffer] in binary64                                       *)
(* ===================================================================== *)

Section OfferBinary64.
Import JsNumber Binary64 OfferSpec OfferScreenBinary64.

Lemma literals_canon :
  lit_100 = canon false 100 0 /\ lit_90 = canon false 90 0 /\ lit_85 = canon false 85 0
  /\ lit_80 = canon false 80 0 /\ lit_2_5 = canon false 5 (-1)
  /\ lit_3_0 = canon false 3 0 /\ lit_3_5 = canon false 7 (-1).
Proof. repeat split; reflexivity. Qed.

(** [Math.floor((amount * percent) / 100)] for an integer amount below
    2^45 and a percentage [k * 2 ^ t] that is a whole number or a half. *)
Lemma percent_floor_exact (a k t : Z) :
  0 <= a < 2 ^ 45 -> 0 < k < 128 -> -1 <= t <= 0 ->
  Math_floor (div (mul (of_Z a) (canon false k t)) lit_100)
  = of_Z (a * k / (100 * 2 ^ (- t))).
Proof.
  intros Ha Hk Ht. destruct (Z.eq_dec a 0) as [->|Ha0]; [reflexivity|].
  assert (Hak : 0 < a * k < 2 ^ 52).
  { split; [nia|]. apply Z.lt_le_trans with (2 ^ 45 * 128); [nia|reflexivity]. }
  assert (Hd : 0 < Zdigits2 (a * k) <= 52).
  { split; [apply Zdigits2_pos; lia|apply Zdigits2_upper; lia]. }
  rewrite of_Z_canon by lia.
  rewrite mul_canon by lia. rewrite Z.add_0_l.
  apply div_100_floor; lia.
Qed.

(** The row of the table a band name selects, in both readings. *)
Lemma offerPercents_cases (riskBand : string) :
  exists b : RiskBand,
    rowOfName riskBand = tableRow b
    /\ offerPercents riskBand
       = match b with
         | low => (lit_90, lit_2_5)
         | medium => (lit_85, lit_3_0)
         | high => (lit_80, lit_3_5)
         end
    /\ OfferScreen.offerPercents riskBand = tableRow b.
Proof.
  unfold rowOfName, bandOfName, offerPercents, OfferScreen.offerPercents.
  destruct (String.eqb riskBand "low"); [exists low; repeat split|].
  destruct (String.eqb riskBand "medium"); [exists medium; repeat split|].
  destruct (String.eqb riskBand "high"); [exists high|exists medium]; repeat split.
Qed.

Lemma floors_within (a p f : Z) :
  0 <= a -> 0 <= p -> 0 <= f -> 2 * p + f <= 200 ->
  0 <= a * p / 100 /\ 0 <= a * f / 200 /\ a * p / 100 + a * f / 200 <= a.
Proof.
  intros Ha Hp Hf Hsum.
  pose proof (Z.mul_div_le (a * p) 100 eq_refl).
  pose proof (Z.mul_div_le (a * f) 200 eq_refl).
  assert (0 <= a * p / 100) by (apply Z.div_pos; nia).
  assert (0 <= a * f / 200) by (apply Z.div_pos; nia).
  split; [assumption|]. split; [assumption|]. nia.
Qed.

(** The binary64 offer for an integer amount below 2^45 is the offer of
    the exact reading: each amount is the double of the exact integer. *)
Lemma calculateOffer_agrees (a : Z) (riskBand : string) :
  0 <= a < 2 ^ 45 ->
  let o := calculateOffer (of_Z a) riskBand in
  let x := OfferScreen.calculateOffer a riskBand in
  advanceAmount o = of_Z (OfferScreen.advanceAmount x)
  /\ fee o = of_Z (OfferScreen.fee x)
  /\ netReceived o = of_Z (OfferScreen.netReceived x)
  /\ remainingAmount o = of_Z (OfferScreen.remainingAmount x)
  /\ 0 <= OfferScreen.advanceAmount x /\ 0 <= OfferScreen.fee x
  /\ OfferScreen.advanceAmount x + OfferScreen.fee x <= a.
Proof.
  intros Ha o x. subst o x. unfold calculateOffer, OfferScreen.calculateOffer.
  destruct (offerPercents_cases riskBand) as (b & _ & -> & ->).
  destruct literals_canon as (_ & -> & -> & -> & -> & -> & ->).
  assert (H2 : 2 ^ 45 < 2 ^ 53) by reflexivity.
  destruct b; cbn [tableRow OfferScreen.advanceAmount OfferScreen.fee
                   OfferScreen.netReceived OfferScreen.remainingAmount
                   advanceAmount fee netReceived remainingAmount];
    rewrite !Qfloor_percent, !percent_floor_exact by lia;
    change (100 * 2 ^ (- 0)) with 100; change (100 * 2 ^ (- -1)) with 200;
    change (1 * 100) with 100; change (10 * 100) with (200 * 5).
  - replace (a * 25) with (a * 5 * 5) by lia. rewrite Z.div_mul_cancel_r by lia.
    destruct (floors_within a 90 5) as (H90 & H5 & Hs); try lia.
    repeat split; try lia. rewrite !sub_of_Z by lia. reflexivity.
  - replace (a * 30) with (a * 6 * 5) by lia. rewrite Z.div_mul_cancel_r by lia.
    replace (a * 3 / 100) with (a * 6 / 200)
      by (replace (a * 6) with (a * 3 * 2) by lia; apply (Z.div_mul_cancel_r _ 100 2); lia).
    destruct (floors_within a 85 6) as (H85 & H6 & Hs); try lia.
    repeat split; try lia. rewrite !sub_of_Z by lia. reflexivity.
  - replace (a * 35) with (a * 7 * 5) by lia. rewrite Z.div_mul_cancel_r by lia.
    destruct (floors_within a 80 7) as (H80 & H7 & Hs); try lia.
    repeat split; try lia. rewrite !sub_of_Z by lia. reflexivity.
Qed.

Lemma offer_literals_denote :
  (to_Q lit_90 == 90)%Q /\ (to_Q lit_85 == 85)%Q /\ (to_Q lit_80 == 80)%Q
  /\ (to_Q lit_2_5 == 2.5)%Q /\ (to_Q lit_3_0 == 3.0)%Q /\ (to_Q lit_3_5 == 3.5)%Q
  /\ (to_Q lit_100 == 100)%Q.
Proof. repeat split; vm_compute; reflexivity. Qed.

(** What [calculateOffer] computes for any number and any band string. *)
Lemma calculateOffer_expressions (amount : number) (riskBand : string) :
  let o := calculateOffer amount riskBand in
  (advancePercent o, feePercent o) = offerPercents riskBand
  /\ advanceAmount o = Math_floor (div (mul amount (advancePercent o)) lit_100)
  /\ fee o = Math_floor (div (mul amount (feePercent o)) lit_100)
  /\ netReceived o = advanceAmount o
  /\ remainingAmount o = sub (sub amount (advanceAmount o)) (fee o).
Proof.
  intros o. subst o. unfold calculateOffer.
  destruct (offerPercents riskBand). repeat split.
Qed.

(** C1 as stated fails for large amounts: at the integer amount 2^53 - 1
    in the low band the product and the quotient are rounded before the
    floor is taken, and the advance amount the code returns is one more
    than floor(amount * 90 / 100). *)
Lemma calculateOffer_floor_is_rounded :
  let a := 9007199254740991 in
  let o := calculateOffer (of_Z a) "low" in
  floor_Z (of_Z a) = Some a
  /\ advancePercent o = lit_90
  /\ advanceAmount o = of_Z 8106479329266892
  /\ Qfloor (inject_Z a * 90 / 100) = 8106479329266891
  /\ advanceAmount o <> of_Z (Qfloor (inject_Z a * 90 / 100)).
Proof. vm_compute. repeat split; try reflexivity. discriminate. Qed.

(** C1, amended. For every band string the percentages are those of the
    fixed table (low 90 / 2.5, medium 85 / 3.0, high 80 / 3.5, any other
    string the medium row), whatever the amount; [calculateOffer] is
    total, so it never fails.  For every integer amount from 0 to below
    2^45, advanceAmount and fee are the exact floors of
    amount * percent / 100, netReceived is advanceAmount and
    remainingAmount is amount - advanceAmount - fee.  For any other
    number the amounts are these expressions evaluated in binary64, each
    operation rounded. *)
Theorem calculateOffer_binary64_table (a : Z) (riskBand : string) :
  0 <= a < 2 ^ 45 ->
  let o := calculateOffer (of_Z a) riskBand in
  let row := rowOfName riskBand in
  (to_Q (advancePercent o) == row.1)%Q
  /\ (to_Q (feePercent o) == row.2)%Q
  /\ rowOfName "low" = (90, 2.5)%Q
  /\ rowOfName "medium" = (85, 3.0)%Q
  /\ rowOfName "high" = (80, 3.5)%Q
  /\ (bandOfName riskBand = None -> row = (85, 3.0)%Q)
  /\ advanceAmount o = of_Z (Qfloor (inject_Z a * row.1 / 100))
  /\ fee o = of_Z (Qfloor (inject_Z a * row.2 / 100))
  /\ netReceived o = advanceAmount o
  /\ remainingAmount o
     = of_Z (a - Qfloor (inject_Z a * row.1 / 100) - Qfloor (inject_Z a * row.2 / 100))
  /\ (forall amount : number,
        let o' := calculateOffer amount riskBand in
        advancePercent o' = advancePercent o
        /\ feePercent o' = feePercent o
        /\ advanceAmount o' = Math_floor (div (mul amount (advancePercent o')) lit_100)
        /\ fee o' = Math_floor (div (mul amount (feePercent o')) lit_100)
        /\ netReceived o' = advanceAmount o'
        /\ remainingAmount o' = sub (sub amount (advanceAmount o')) (fee o')).
Proof.
  intros Ha o row.
  destruct (calculateOffer_agrees a riskBand Ha) as (Hadv & Hfee & Hnet & Hrem & _).
  fold o in Hadv, Hfee, Hnet, Hrem.
  destruct (calculateOffer_expressions (of_Z a) riskBand) as (Hp & _ & _ & Hn & _).
  fold o in Hp, Hn.
  assert (Hx : OfferScreen.calculateOffer a riskBand
    = {| OfferScreen.advancePercent := row.1;
         OfferScreen.feePercent := row.2;
         OfferScreen.advanceAmount := Qfloor (inject_Z a * row.1 / 100);
         OfferScreen.fee := Qfloor (inject_Z a * row.2 / 100);
         OfferScreen.netReceived := Qfloor (inject_Z a * row.1 / 100);
         OfferScreen.remainingAmount :=
           a - Qfloor (inject_Z a * row.1 / 100) - Qfloor (inject_Z a * row.2 / 100) |}).
  { unfold OfferScreen.calculateOffer, row.
    destruct (offerPercents_cases riskBand) as (b & -> & _ & ->).
    destruct (tableRow b). reflexivity. }
  rewrite Hx in Hadv, Hfee, Hrem. cbn [OfferScreen.advanceAmount OfferScreen.fee
    OfferScreen.remainingAmount] in Hadv, Hfee, Hrem.
  assert (Hrow : (to_Q (advancePercent o) == row.1)%Q /\ (to_Q (feePercent o) == row.2)%Q).
  { unfold row. destruct (offerPercents_cases riskBand) as (b & -> & Hb & _).
    rewrite Hb in Hp.
    destruct offer_literals_denote as (H90 & H85 & H80 & H25 & H30 & H35 & _).
    destruct b; injection Hp as -> ->; cbn [tableRow fst snd]; split; assumption. }
  destruct Hrow as [Hrow1 Hrow2].
  split; [exact Hrow1|]. split; [exact Hrow2|].
  split; [reflexivity|]. split; [reflexivity|]. split; [reflexivity|].
  split; [intros Hnone; unfold row, rowOfName; rewrite Hnone; reflexivity|].
  split; [exact Hadv|]. split; [exact Hfee|]. split; [exact Hn|]. split; [exact Hrem|].
  intros amount o'.
  destruct (calculateOffer_expressions amount riskBand) as (Hp' & Ha' & Hf' & Hn' & Hr').
  fold o' in Hp', Ha', Hf', Hn', Hr'.
  rewrite <- Hp in Hp'. injection Hp' as Hp1 Hp2.
  repeat split; assumption.
Qed.

Lemma calculateOffer_binary64_table_witness :
  let o := calculateOffer (of_Z 18000) "unrated" in
  (to_Q (advancePercent o) == 85)%Q /\ (to_Q (feePercent o) == 3.0)%Q
  /\ advanceAmount o = of_Z 15300 /\ fee o = of_Z 540
  /\ netReceived o = of_Z 15300 /\ remainingAmount o = of_Z 2160.
Proof.
  destruct (calculateOffer_binary64_table 18000 "unrated")
    as (Hp1 & Hp2 & _ & _ & _ & _ & Hadv & Hfee & Hnet & Hrem & _); [lia|].
  split; [exact Hp1|]. split; [exact Hp2|].
  split; [exact Hadv|]. split; [exact Hfee|].
  split; [rewrite Hnet; exact Hadv|exact Hrem].
Defined.




End OfferBinary64.

(* ===================================================================== *)
(** * The mark-paid handler in binary64                                  *)
(* ===================================================================== *)

Section MarkPaidBinary64.
Import JsNumber Binary64 ServerBinary64.

Lemma markPaid_binary64_found (env : Server.Env) (advanceId : string) (st : Store)
    (advance : Advance) :
  get ("advance:" ++ advanceId) st = Some (VAdvance advance) ->
  markPaid env advanceId st =
  Some (json BSuccess 200,
        set ("user:" ++ Server.DEFAULT_USER_ID ++ ":settlement:" ++ Server.randomUUID env)
            (VId (Server.randomUUID env))
          (set ("settlement:" ++ Server.randomUUID env)
               (VSettlement (settlementOf env Server.DEFAULT_USER_ID advance))
             (set ("advance:" ++ advanceId) (VAdvance (withStatusPaid advance)) st))).
Proof. intros H. unfold markPaid. rewrite H. reflexivity. Qed.

Lemma markPaid_binary64_missing (env : Server.Env) (advanceId : string) (st : Store) :
  get ("advance:" ++ advanceId) st = None ->
  markPaid env advanceId st = Some (json (BError "Advance not found") 404, st).
Proof. intros H. unfold markPaid. rewrite H. reflexivity. Qed.

Lemma of_halves_canon (k : Z) : 0 < k < 2 ^ 53 -> of_halves k = canon false k (-1).
Proof.
  intros Hk. pose proof (Zdigits2_le_53 k Hk) as Hd.
  pose proof (binary_round_canon false k 0 (-1) Hk (Z.le_refl 0)) as H.
  rewrite Z.pow_0_r, Z.mul_1_r in H. destruct k as [|p|p]; try lia.
  apply H. lia.
Qed.

(** The fee of a settlement when the stored amount is an integer below
    2^45 and the stored percentage a multiple of one half below 64. *)
Lemma fee_exact (a k : Z) :
  0 <= a < 2 ^ 45 -> 0 < k < 128 ->
  Math_floor (div (mul (of_Z a) (of_halves k)) lit_100)
  = of_Z (Qfloor (inject_Z a * (k # 2) / 100)).
Proof.
  intros Ha Hk. assert (H2 : 128 < 2 ^ 53) by reflexivity.
  rewrite of_halves_canon by lia.
  rewrite percent_floor_exact by lia.
  rewrite Qfloor_percent. reflexivity.
Qed.

(** C7 as stated fails for large amounts: for a stored advance of
    9007199254740971 at 3.5 percent the product and the quotient are
    rounded before the floor is taken, and the fee the handler stores is
    one more than floor(invoiceAmount * feePercent / 100). *)
Lemma markPaid_fee_is_rounded :
  let a := 9007199254740971 in
  let advance :=
    {| adv_id := "a9"; adv_invoiceId := "i9"; adv_userId := Server.DEFAULT_USER_ID;
       adv_filename := "INV-2024-009.pdf"; adv_buyer := "Acme Corp";
       adv_invoiceAmount := JNumber (of_Z a); adv_advanceAmount := JNumber (of_Z 0);
       adv_feePercent := JNumber lit_3_5; adv_dueDate := 0; adv_status := "active";
       adv_createdAt := 1000; adv_riskBand := "high" |} in
  let st := set "advance:a9" (VAdvance advance) ∅ in
  floor_Z (of_Z a) = Some a
  /\ (to_Q lit_3_5 == 3.5)%Q
  /\ fmap stl_feeAmount
       (ScenarioBinary64.settlementIn (markPaid Scenario.envPaid1 "a9" st) "settlement:s1")
     = Some (of_Z 315251973915934)
  /\ Qfloor (inject_Z a * 3.5 / 100) = 315251973915933.
Proof. vm_compute. repeat split; reflexivity. Qed.

(** C7, amended. MarkPaid on an existing advance answers success, sets
    the stored advance to paid and stores a Settlement whose figures come
    from the advance's own fields: feeAmount is
    Math.floor((invoiceAmount * feePercent) / 100) and remainingAmount is
    invoiceAmount - advanceAmount - feeAmount, both evaluated in binary64
    on the stored values; settlementAmount = remainingAmount, daysToPay =
    ceil((now - createdAt) / 1 day), createdAt copied.  When the stored
    invoiceAmount is an integer from 0 to below 2^45 and the stored
    feePercent a multiple of one half below 64, feeAmount is the exact
    floor of invoiceAmount * feePercent / 100, and with a stored integer
    advanceAmount that leaves a non-negative rest, remainingAmount is the
    exact difference.  On an unknown advanceId the handler answers 404
    "Advance not found" and leaves the store as it was. *)
Theorem markPaid_binary64_settlement (env : Server.Env) (advanceId : string) (st : Store)
    (advance : Advance) :
  (get ("advance:" ++ advanceId) st = Some (VAdvance advance) ->
   exists st' s updated,
     markPaid env advanceId st = Some (json BSuccess 200, st')
     /\ get ("settlement:" ++ Server.randomUUID env) st' = Some (VSettlement s)
     /\ s = settlementOf env Server.DEFAULT_USER_ID advance
     /\ stl_feeAmount s
        = Math_floor (div (mul (toNumber (adv_invoiceAmount advance))
                               (toNumber (adv_feePercent advance))) lit_100)
     /\ stl_remainingAmount s
        = sub (sub (toNumber (adv_invoiceAmount advance))
                   (toNumber (adv_advanceAmount advance))) (stl_feeAmount s)
     /\ stl_settlementAmount s = stl_remainingAmount s
     /\ stl_daysToPay s
        = Qceiling (inject_Z (Server.dateNow env - adv_createdAt advance) / inject_Z msPerDay)
     /\ stl_createdAt s = adv_createdAt advance
     /\ stl_invoiceAmount s = adv_invoiceAmount advance
     /\ stl_advanceAmount s = adv_advanceAmount advance
     /\ stl_feePercent s = adv_feePercent advance
     /\ (forall a k : Z,
           0 <= a < 2 ^ 45 -> 0 < k < 128 ->
           adv_invoiceAmount advance = JNumber (of_Z a) ->
           adv_feePercent advance = JNumber (of_halves k) ->
           let feeAmount := Qfloor (inject_Z a * (k # 2) / 100) in
           stl_feeAmount s = of_Z feeAmount
           /\ forall b : Z,
                adv_advanceAmount advance = JNumber (of_Z b) ->
                0 <= b -> b + feeAmount <= a ->
                stl_remainingAmount s = of_Z (a - b - feeAmount))
     /\ get ("advance:" ++ advanceId) st' = Some (VAdvance updated)
     /\ updated = withStatusPaid advance
     /\ adv_status updated = "paid"%string)
  /\ (get ("advance:" ++ advanceId) st = None ->
      markPaid env advanceId st = Some (json (BError "Advance not found") 404, st)).
Proof.
  split; [|apply markPaid_binary64_missing].
  intros H. rewrite (markPaid_binary64_found env advanceId st advance H).
  eexists _, (settlementOf env Server.DEFAULT_USER_ID advance), (withStatusPaid advance).
  split; [reflexivity|].
  split.
  { unfold get, set. rewrite lookup_insert_ne by discriminate. apply lookup_insert_eq. }
  do 9 (split; [reflexivity|]).
  split.
  { intros a k Ha Hk Hamount Hpercent feeAmount.
    cbn [settlementOf stl_feeAmount stl_remainingAmount].
    rewrite Hamount, Hpercent. cbn [toNumber]. rewrite fee_exact by assumption.
    fold feeAmount. split; [reflexivity|].
    intros b Hb Hb0 Hrest. rewrite Hb. cbn [toNumber].
    assert (H2 : 2 ^ 45 < 2 ^ 53) by reflexivity.
    assert (Hfee : 0 <= feeAmount).
    { unfold feeAmount. rewrite Qfloor_percent. apply Z.div_pos; [nia|reflexivity]. }
    rewrite !sub_of_Z by lia. reflexivity. }
  split.
  { unfold get, set. rewrite !lookup_insert_ne by discriminate. apply lookup_insert_eq. }
  split; reflexivity.
Qed.

Lemma markPaid_binary64_settlement_witness :
  (exists st', markPaid Scenario.envPaid1 "a1" ScenarioBinary64.active
                 = Some (json BSuccess 200, st')
     /\ exists s, get "settlement:s1" st' = Some (VSettlement s)
        /\ stl_feeAmount s = of_Z 875 /\ stl_remainingAmount s = of_Z 4125
        /\ stl_settlementAmount s = of_Z 4125 /\ stl_daysToPay s = 4)
  /\ markPaid Scenario.envPaid1 "a2" ScenarioBinary64.active
     = Some (json (BError "Advance not found") 404, ScenarioBinary64.active).
Proof.
  split.
  - destruct (markPaid_binary64_settlement Scenario.envPaid1 "a1" ScenarioBinary64.active
                ScenarioBinary64.advance1) as [Hfound _].
    destruct Hfound as (st' & s & updated & Hrun & Hs & Es & _ & _ & Hsettle & Hdays & _ & _
                        & _ & _ & Hexact & _); [reflexivity|].
    destruct (Hexact 25000 7) as [Hfee Hrem]; [lia|lia|reflexivity|reflexivity|].
    specialize (Hrem 20000 eq_refl).
    exists st'. split; [exact Hrun|]. exists s. split; [exact Hs|].
    split; [exact Hfee|].
    assert (Hr : stl_remainingAmount s = of_Z 4125).
    { rewrite Hrem; [reflexivity|lia|]. vm_compute. discriminate. }
    split; [exact Hr|]. split; [rewrite Hsettle; exact Hr|].
    rewrite Hdays. reflexivity.
  - destruct (markPaid_binary64_settlement Scenario.envPaid1 "a2" ScenarioBinary64.active
                ScenarioBinary64.advance1) as [_ Hmissing].
    apply Hmissing. reflexivity.
Defined.

End MarkPaidBinary64.

(* ===================================================================== *)
(** * From the offer to the settlement, in binary64                      *)
(* ===================================================================== *)

Section OfferToSettlement.
Import JsNumber Binary64 ServerBinary64.

Lemma jsonNumber_of_Z (z : Z) : 0 <= z < 2 ^ 53 -> jsonNumber (of_Z z) = JNumber (of_Z z).
Proof.
  intros Hz. destruct (Z.eq_dec z 0) as [->|Hne]; [reflexivity|].
  rewrite of_Z_canon by lia. reflexivity.
Qed.

Lemma jsonNumber_percents (riskBand : string) :
  let p := OfferScreenBinary64.offerPercents riskBand in
  jsonNumber p.1 = JNumber p.1 /\ jsonNumber p.2 = JNumber p.2.
Proof.
  unfold OfferScreenBinary64.offerPercents.
  destruct (String.eqb riskBand "low"); [split; reflexivity|].
  destruct (String.eqb riskBand "medium"); [split; reflexivity|].
  destruct (String.eqb riskBand "high"); split; reflexivity.
Qed.

(** X11. What the offer screen shows is what the settlement records: for
    a stored invoice whose amount is an integer from 0 to below 2^45, if
    the figures of [calculateOffer] are posted by [handleAcceptOffer] and
    the resulting advance is later marked paid, the settlement has the
    invoice's id and amount, the offer's advanceAmount and feePercent, its
    fee as feeAmount and its remainingAmount as remainingAmount and
    settlementAmount. *)
Theorem offer_to_settlement (envAccept envPaid : Server.Env) (invoiceId : string)
    (st : Store) (invoice : Invoice) (a : Z) :
  get ("invoice:" ++ invoiceId) st = Some (VInvoice invoice) ->
  inv_amount invoice = JNumber (of_Z a) ->
  0 <= a < 2 ^ 45 ->
  let offer := OfferScreenBinary64.calculateOffer (of_Z a) (inv_riskBand invoice) in
  exists r st1 st2 s,
    handleAcceptOffer envAccept invoiceId offer st = Some (r, st1)
    /\ markPaid envPaid (Server.randomUUID envAccept) st1 = Some (json BSuccess 200, st2)
    /\ get ("settlement:" ++ Server.randomUUID envPaid) st2 = Some (VSettlement s)
    /\ stl_invoiceId s = invoiceId
    /\ stl_invoiceAmount s = JNumber (of_Z a)
    /\ stl_advanceAmount s = JNumber (OfferScreenBinary64.advanceAmount offer)
    /\ stl_feePercent s = JNumber (OfferScreenBinary64.feePercent offer)
    /\ stl_feeAmount s = OfferScreenBinary64.fee offer
    /\ stl_remainingAmount s = OfferScreenBinary64.remainingAmount offer
    /\ stl_settlementAmount s = OfferScreenBinary64.remainingAmount offer.
Proof.
  intros Hget Hamount Ha offer.
  destruct (calculateOffer_agrees a (inv_riskBand invoice) Ha)
    as (Hadv & _ & _ & _ & HA & HF & Hsum).
  fold offer in Hadv.
  destruct (calculateOffer_expressions (of_Z a) (inv_riskBand invoice))
    as (Hp & Hea & Hef & _ & Her).
  fold offer in Hp, Hea, Hef, Her.
  destruct (jsonNumber_percents (inv_riskBand invoice)) as [Hj1 Hj2].
  rewrite <- Hp in Hj1, Hj2. cbn [fst snd] in Hj1, Hj2.
  assert (H2 : 2 ^ 45 < 2 ^ 53) by reflexivity.
  assert (Hj3 : jsonNumber (OfferScreenBinary64.advanceAmount offer)
                = JNumber (OfferScreenBinary64.advanceAmount offer)).
  { rewrite Hadv. apply jsonNumber_of_Z. lia. }
  unfold handleAcceptOffer, acceptOffer. rewrite Hget, Hj1, Hj2, Hj3. cbn [truthy negb].
  match goal with |- exists r st1 st2 s, Some (_, ?x) = _ /\ _ => set (st1 := x) end.
  set (advance :=
    {| adv_id := Server.randomUUID envAccept;
       adv_invoiceId := invoiceId;
       adv_userId := Server.DEFAULT_USER_ID;
       adv_filename := inv_filename invoice;
       adv_buyer := inv_buyer invoice;
       adv_invoiceAmount := inv_amount invoice;
       adv_advanceAmount := JNumber (OfferScreenBinary64.advanceAmount offer);
       adv_feePercent := JNumber (OfferScreenBinary64.feePercent offer);
       adv_dueDate := inv_dueDate invoice;
       adv_status := "active";
       adv_createdAt := Server.newDate envAccept;
       adv_riskBand := inv_riskBand invoice |}) in *.
  assert (Hstored : get ("advance:" ++ Server.randomUUID envAccept) st1
                    = Some (VAdvance advance)).
  { subst st1. unfold get, set. rewrite lookup_insert_ne by discriminate.
    apply lookup_insert_eq. }
  eexists _, st1, _, (settlementOf envPaid Server.DEFAULT_USER_ID advance).
  split; [reflexivity|].
  split; [exact (markPaid_binary64_found envPaid _ st1 advance Hstored)|].
  split.
  { unfold get, set. rewrite lookup_insert_ne by discriminate. apply lookup_insert_eq. }
  cbn [settlementOf advance stl_invoiceId stl_invoiceAmount stl_advanceAmount stl_feePercent
       stl_feeAmount stl_remainingAmount stl_settlementAmount adv_invoiceId
       adv_invoiceAmount adv_advanceAmount adv_feePercent].
  rewrite Hamount. cbn [toNumber]. rewrite <- Hef, <- Her.
  repeat split.
Qed.

Lemma offer_to_settlement_witness :
  exists r st1 st2 s,
    handleAcceptOffer Scenario.envAccept "i1"
      (OfferScreenBinary64.calculateOffer (of_Z 25000) "high") ScenarioBinary64.uploaded
      = Some (r, st1)
    /\ markPaid Scenario.envPaid1 "a1" st1 = Some (json BSuccess 200, st2)
    /\ get "settlement:s1" st2 = Some (VSettlement s)
    /\ stl_feeAmount s = of_Z 875
    /\ stl_remainingAmount s = of_Z 4125.
Proof.
  destruct (offer_to_settlement Scenario.envAccept Scenario.envPaid1 "i1"
              ScenarioBinary64.uploaded ScenarioBinary64.invoice1 25000 eq_refl eq_refl)
    as (r & st1 & st2 & s & Hrun1 & Hrun2 & Hs & _ & _ & _ & _ & Hfee & Hrem & _); [lia|].
  exists r, st1, st2, s. split; [exact Hrun1|]. split; [exact Hrun2|].
  split; [exact Hs|]. split; [rewrite Hfee|rewrite Hrem]; reflexivity.
Defined.

End OfferToSettlement.

(* ===================================================================== *)
(** * The exact reading of the offer against the code's arithmetic       *)
(* ===================================================================== *)

Section ExactReading.
Import JsNumber Binary64 OfferSpec.

(** X25. The exact reading of [calculateOffer] is what the code computes
    in binary64 for every integer amount from 0 to below 2^45 and every
    band string: the percentages denote the same rationals, and each of
    advanceAmount, fee, netReceived and remainingAmount is the double that
    holds the integer of the exact reading. *)
Theorem calculateOffer_exact_reading (a : Z) (riskBand : string) :
  0 <= a < 2 ^ 45 ->
  let o := OfferScreenBinary64.calculateOffer (of_Z a) riskBand in
  let x := OfferScreen.calculateOffer a riskBand in
  (to_Q (OfferScreenBinary64.advancePercent o) == OfferScreen.advancePercent x)%Q
  /\ (to_Q (OfferScreenBinary64.feePercent o) == OfferScreen.feePercent x)%Q
  /\ OfferScreenBinary64.advanceAmount o = of_Z (OfferScreen.advanceAmount x)
  /\ OfferScreenBinary64.fee o = of_Z (OfferScreen.fee x)
  /\ OfferScreenBinary64.netReceived o = of_Z (OfferScreen.netReceived x)
  /\ OfferScreenBinary64.remainingAmount o = of_Z (OfferScreen.remainingAmount x)
  /\ floor_Z (OfferScreenBinary64.advanceAmount o) = Some (OfferScreen.advanceAmount x)
  /\ floor_Z (OfferScreenBinary64.fee o) = Some (OfferScreen.fee x).
Proof.
  intros Ha o x.
  destruct (calculateOffer_agrees a riskBand Ha) as (Hadv & Hfee & Hnet & Hrem & HA & HF & Hs).
  fold o x in Hadv, Hfee, Hnet, Hrem, HA, HF, Hs.
  assert (Hp : (to_Q (OfferScreenBinary64.advancePercent o) == OfferScreen.advancePercent x)%Q
               /\ (to_Q (OfferScreenBinary64.feePercent o) == OfferScreen.feePercent x)%Q).
  { subst o x. unfold OfferScreenBinary64.calculateOffer, OfferScreen.calculateOffer.
    destruct (offerPercents_cases riskBand) as (b & _ & -> & ->).
    destruct offer_literals_denote as (H90 & H85 & H80 & H25 & H30 & H35 & _).
    destruct b; cbn [tableRow OfferScreenBinary64.advancePercent
                     OfferScreenBinary64.feePercent OfferScreen.advancePercent
                     OfferScreen.feePercent]; split; assumption. }
  destruct Hp as [Hp1 Hp2].
  assert (Hfloor : forall z, 0 <= z <= a -> floor_Z (of_Z z) = Some z).
  { intros z Hz. destruct (Z.eq_dec z 0) as [->|Hne]; [reflexivity|].
    assert (H2 : 2 ^ 45 < 2 ^ 53) by reflexivity.
    assert (Hz53 : 0 < z < 2 ^ 53) by lia.
    pose proof (Zdigits2_le_53 z Hz53) as Hd. pose proof (canon_mantissa z Hz53) as [Hm _].
    rewrite of_Z_canon by lia. unfold canon, floor_Z. cbn [cond_Zopp].
    rewrite Z2Pos.id by lia. f_equal.
    rewrite (shiftl_scaled _ _ (Zdigits2 z - 53 + 0)) by lia.
    rewrite Z.sub_diag, Z.mul_1_r.
    replace (- (Zdigits2 z - 53 + 0)) with (53 - Zdigits2 z) by lia.
    apply Z.div_mul. pose proof (pow2_pos (53 - Zdigits2 z)). lia. }
  split; [exact Hp1|]. split; [exact Hp2|].
  split; [exact Hadv|]. split; [exact Hfee|]. split; [exact Hnet|]. split; [exact Hrem|].
  split; [rewrite Hadv|rewrite Hfee]; apply Hfloor; lia.
Qed.

Lemma calculateOffer_exact_reading_witness :
  let o := OfferScreenBinary64.calculateOffer (of_Z 25000) "high" in
  floor_Z (OfferScreenBinary64.advanceAmount o) = Some 20000
  /\ floor_Z (OfferScreenBinary64.fee o) = Some 875
  /\ OfferScreenBinary64.remainingAmount o = of_Z 4125.
Proof.
  destruct (calculateOffer_exact_reading 25000 "high")
    as (_ & _ & _ & _ & _ & Hrem & Hadv & Hfee); [lia|].
  split; [exact Hadv|]. split; [exact Hfee|exact Hrem].
Defined.

(** X26. In the code's arithmetic too a riskier band never gets better
    terms and a larger invoice never gets a smaller advance or fee: for
    integer amounts from 0 to below 2^45, going from a band to a riskier
    one does not raise advanceAmount and does not lower the fee, and for
    any band raising the amount lowers neither; the comparisons are those
    of binary64. *)
Theorem calculateOffer_binary64_order (a1 a2 : Z) (b1 b2 : RiskBand) :
  0 <= a1 -> a1 <= a2 -> a2 < 2 ^ 45 -> riskLevel b1 <= riskLevel b2 ->
  let offer a b := OfferScreenBinary64.calculateOffer (of_Z a) (riskBandName b) in
  le (OfferScreenBinary64.advanceAmount (offer a1 b2))
     (OfferScreenBinary64.advanceAmount (offer a1 b1)) = true
  /\ le (OfferScreenBinary64.fee (offer a1 b1))
        (OfferScreenBinary64.fee (offer a1 b2)) = true
  /\ le (OfferScreenBinary64.advanceAmount (offer a1 b1))
        (OfferScreenBinary64.advanceAmount (offer a2 b1)) = true
  /\ le (OfferScreenBinary64.fee (offer a1 b1))
        (OfferScreenBinary64.fee (offer a2 b1)) = true.
Proof.
  intros H0 Hle Hlt Hband offer. subst offer. cbv beta.
  assert (H2 : 2 ^ 45 < 2 ^ 53) by reflexivity.
  destruct (calculateOffer_agrees a1 (riskBandName b1)) as (-> & -> & _ & _ & A1 & F1 & S1);
    [lia|].
  destruct (calculateOffer_agrees a1 (riskBandName b2)) as (-> & -> & _ & _ & A2 & F2 & S2);
    [lia|].
  destruct (calculateOffer_agrees a2 (riskBandName b1)) as (-> & -> & _ & _ & A3 & F3 & S3);
    [lia|].
  destruct (offer_amounts a1 b1) as [E1 E2]. destruct (offer_amounts a1 b2) as [E3 E4].
  destruct (offer_amounts a2 b1) as [E5 E6].
  assert (Horder :
    OfferScreen.advanceAmount (OfferScreen.calculateOffer a1 (riskBandName b2))
      <= OfferScreen.advanceAmount (OfferScreen.calculateOffer a1 (riskBandName b1))
    /\ OfferScreen.fee (OfferScreen.calculateOffer a1 (riskBandName b1))
       <= OfferScreen.fee (OfferScreen.calculateOffer a1 (riskBandName b2))
    /\ OfferScreen.advanceAmount (OfferScreen.calculateOffer a1 (riskBandName b1))
       <= OfferScreen.advanceAmount (OfferScreen.calculateOffer a2 (riskBandName b1))
    /\ OfferScreen.fee (OfferScreen.calculateOffer a1 (riskBandName b1))
       <= OfferScreen.fee (OfferScreen.calculateOffer a2 (riskBandName b1))).
  { rewrite E1, E2, E3, E4, E5, E6.
    destruct b1, b2; cbn [riskLevel] in Hband; try lia;
      repeat split; apply Z.div_le_mono; lia. }
  destruct Horder as (O1 & O2 & O3 & O4).
  repeat split; apply le_of_Z; lia.
Qed.

Lemma calculateOffer_binary64_order_witness :
  le (OfferScreenBinary64.advanceAmount
        (OfferScreenBinary64.calculateOffer (of_Z 25000) "high"))
     (OfferScreenBinary64.advanceAmount
        (OfferScreenBinary64.calculateOffer (of_Z 25000) "low")) = true
  /\ le (OfferScreenBinary64.fee (OfferScreenBinary64.calculateOffer (of_Z 25000) "low"))
        (OfferScreenBinary64.fee (OfferScreenBinary64.calculateOffer (of_Z 25000) "high"))
     = true.
Proof.
  destruct (calculateOffer_binary64_order 25000 42000 low high) as (H1 & H2 & _);
    [lia|lia|lia|cbn [riskLevel]; lia|].
  split; [exact H1|exact H2].
Defined.

End ExactReading.

